(** * aiarchi-portal: webhook processing and archive entitlement

    A shallow embedding of [src/server/index.js] (and of its variant with
    Firebase sign-in, [src/unnamed/part_000]): the Stripe webhook handler with
    its idempotency file, the e-mail dispatcher with retries, the per-e-mail
    rate limiter and the archive entitlement resolver.

    Conventions of the embedding.
    - JavaScript strings are byte strings; [toLowerCase], [trim] and the
      [\s] class are exact on ASCII input.
    - [Set] objects are duplicate-free lists in insertion order, plain objects
      used as lookup tables and the [Map] of the rate limiter are [gmap]s.
    - Code that calls the outside world (Stripe, SendGrid, Firebase, the clock)
      is run against a record of oracles; every call is appended to a log, so
      that "was not consulted" is a statement about the log. An oracle answers
      a call by its arguments: within one request the same call gets the same
      answer.
    - The data directory and its two JSON files are state. A file in a
      directory that exists is read and written without failure; a write into
      a directory that does not exist throws, as [fs.writeFileSync] does.
    - [try]/[catch] is a result type threaded through a small state monad.
    - Price identifiers are Stripe identifiers, never names of members of
      [Object.prototype], so a table lookup is a lookup of its own keys. *)

From Stdlib Require Import ZArith List Ascii String Sorted Permutation Lia.
From stdpp Require Import base tactics option list gmap sets strings sorting pretty.

Local Open Scope Z_scope.

(** ** JavaScript string helpers *)

Module Js.

(** [String.prototype.toLowerCase], on ASCII letters. *)
Definition ascii_toLowerCase (c : ascii) : ascii :=
  let n := N_of_ascii c in
  if ((65 <=? n) && (n <=? 90))%N then ascii_of_N (n + 32) else c.

Fixpoint toLowerCase (s : string) : string :=
  match s with
  | EmptyString => EmptyString
  | String c s' => String (ascii_toLowerCase c) (toLowerCase s')
  end.

Fixpoint trimStart (s : string) : string :=
  match s with
  | EmptyString => EmptyString
  | String c s' => if Ascii.is_space c then trimStart s' else s
  end.

(** [String.prototype.trim]. *)
Definition trim (s : string) : string :=
  String.rev (trimStart (String.rev (trimStart s))).

(** Truthiness of a possibly [undefined] string: [undefined] and the empty
    string are falsy. *)
Definition truthy (v : option string) : bool :=
  match v with
  | None => false
  | Some s => negb (String.eqb s "")
  end.

(** [a || b] on possibly [undefined] strings. *)
Definition or (a b : option string) : option string :=
  if truthy a then a else b.

(** [v || ''] followed by string methods. *)
Definition or_empty (v : option string) : string :=
  match Js.or v (Some "") with Some s => s | None => "" end.

End Js.

(** ** Rate limiter *)

Definition windowMs : Z := 10 * 60 * 1000.

(** [checkArchiveRateLimit], with the constant [maxRequests] of its body as a
    parameter and [Date.now()] and the module-level [Map] passed in; the
    second component is the [Map] after the call. *)
Definition checkArchiveRateLimit_with (maxRequests : nat) (now : Z) (email : string)
    (archiveRateLimit : gmap string (list Z)) : bool * gmap string (list Z) :=
  let key := Js.trim (Js.toLowerCase email) in
  let archiveRateLimit :=
    match archiveRateLimit !! key with
    | None => <[key := []]> archiveRateLimit
    | Some _ => archiveRateLimit
    end in
  let timestamps :=
    filter (λ t, now - t < windowMs) (default [] (archiveRateLimit !! key)) in
  if decide (maxRequests ≤ length timestamps)%nat
  then (false, <[key := timestamps]> archiveRateLimit)
  else (true, <[key := timestamps ++ [now]]> archiveRateLimit).

(** [src/server/index.js]: [const maxRequests = 5]. *)
Definition checkArchiveRateLimit := checkArchiveRateLimit_with 5.

(** [src/unnamed/part_000]: [const maxRequests = 30]. *)
Definition checkArchiveRateLimit_part_000 := checkArchiveRateLimit_with 30.

(** A sequence of calls, each with its clock reading and its argument. *)
Fixpoint run_checks (maxRequests : nat) (reqs : list (Z * string))
    (m : gmap string (list Z)) : list bool * gmap string (list Z) :=
  match reqs with
  | [] => ([], m)
  | (now, email) :: reqs' =>
      let '(ok, m1) := checkArchiveRateLimit_with maxRequests now email m in
      let '(oks, m2) := run_checks maxRequests reqs' m1 in
      (ok :: oks, m2)
  end.

(** Every later request is made less than [windowMs] after every earlier one. *)
Definition within_window (reqs : list (Z * string)) : Prop :=
  StronglySorted (λ r r', r'.1 - r.1 < windowMs) reqs.

(** The timestamps recorded for a key ([[]] when the key is absent). *)
Definition window_of (m : gmap string (list Z)) (key : string) : list Z :=
  default [] (m !! key).

(** ** Results, the call log and the effect monad *)

(** A thrown JavaScript [Error]. *)
Record JsError := { err_name : string; err_message : string }.

(** [error.message || String(error)]: [String] of an [Error] whose message is
    empty is its name. *)
Definition error_text (e : JsError) : string :=
  if Js.truthy (Some (err_message e)) then err_message e else err_name e.

Inductive result (A : Type) : Type :=
| Ok (a : A)
| Throw (e : JsError).
Arguments Ok {A} a.
Arguments Throw {A} e.

Definition is_ok {A} (r : result A) : bool :=
  match r with Ok _ => true | Throw _ => false end.

(** What the notification template is instantiated with
    ([generateEmailContent productName sortedKeys zoomMeetings]; the HTML
    itself is not modelled). *)
Record EmailContent := {
  ec_productName : string;
  ec_meetingKeys : list string
}.

(** One entry of [failed_emails.json]. *)
Record FailedEmail := {
  fe_email : string;
  fe_product_name : string;
  fe_error : string;
  fe_timestamp : Z
}.

(** The calls a handler makes to its collaborators, in the order made; the
    boolean of a call that can throw says whether it returned. *)
Inductive Call : Type :=
| ConstructEvent (returned : bool)
| LoadProcessedEvents
| SaveProcessedEvent (eventId : string)
| ListLineItems (sessionId : string) (returned : bool)
| CatalogLookup (priceId : string)
| LoadZoomMeetings
| SendEmailWithRetry (to subject : string) (content : EmailContent)
| Fetch (to : string) (attempt : nat) (delivered : bool)
| SetTimeout (ms : Z)
| RecordFailedEmail (entry : FailedEmail)
| CustomersList (email : string) (returned : bool)
| SubscriptionsList (customer : string) (returned : bool)
| SessionsList (customer : option string) (returned : bool)
| VerifyIdToken (token : string) (returned : bool).

Global Instance EmailContent_eq_dec : EqDecision EmailContent.
Proof. solve_decision. Defined.
Global Instance FailedEmail_eq_dec : EqDecision FailedEmail.
Proof. solve_decision. Defined.
Global Instance Call_eq_dec : EqDecision Call.
Proof. solve_decision. Defined.

(** State [S], result or exception, and the calls made. *)
Definition M (S A : Type) : Type := S → result A * S * list Call.

Definition ret {S A} (a : A) : M S A := λ s, (Ok a, s, []).

Definition bind {S A B} (m : M S A) (f : A → M S B) : M S B := λ s,
  match m s with
  | (Ok a, s1, l1) => let '(r, s2, l2) := f a s1 in (r, s2, l1 ++ l2)
  | (Throw e, s1, l1) => (Throw e, s1, l1)
  end.

Definition throw {S A} (e : JsError) : M S A := λ s, (Throw e, s, []).

(** [try { m } catch (e) { h e }]: the state reached when [m] threw is kept. *)
Definition try_catch {S A} (m : M S A) (h : JsError → M S A) : M S A := λ s,
  match m s with
  | (Ok a, s1, l1) => (Ok a, s1, l1)
  | (Throw e, s1, l1) => let '(r, s2, l2) := h e s1 in (r, s2, l1 ++ l2)
  end.

Definition get {S} : M S S := λ s, (Ok s, s, []).
Definition modify {S} (f : S → S) : M S unit := λ s, (Ok tt, f s, []).
Definition tell {S} (l : list Call) : M S unit := λ s, (Ok tt, s, l).

(** An awaited call to a collaborator whose answer is [r]. *)
Definition call {S A} (c : bool → Call) (r : result A) : M S A :=
  λ s, (r, s, [c (is_ok r)]).

Notation "'let*' x := m 'in' k" := (bind m (λ x, k))
  (at level 10, x name, m at level 100, k at level 200).
Notation "'do*' m 'in' k" := (bind m (λ _, k))
  (at level 10, m at level 100, k at level 200).

(** ** JavaScript [Set] of strings *)

(** [Set.prototype.add]: insertion order is kept, a present key is not
    added again. *)
Definition set_add (k : string) (s : list string) : list string :=
  if bool_decide (k ∈ s) then s else s ++ [k].

(** [keys.forEach(k => s.add(k))]. *)
Definition set_add_all (keys s : list string) : list string :=
  fold_left (λ acc k, set_add k acc) keys s.

(** ** Stripe objects, as far as the handlers read them *)

Record Price := { price_id : option string; price_product : option string }.
(** A line item or a subscription item: [item.price] may be absent. *)
Record Item := { item_price : option Price }.
Record Subscription := { sub_items : list Item }.
Record Customer := { customer_id : string }.
Record CheckoutSession := {
  session_id : string;
  payment_status : string;
  customer_details_email : option string;   (* session.customer_details?.email *)
  customer_email : option string
}.
Record StripeEvent := {
  event_id : string;
  event_type : string;
  event_object : CheckoutSession             (* event.data.object *)
}.

(** The Stripe SDK. [sessions_list None] is the listing without a customer
    filter; page sizes ([limit]) are the provider's business. *)
Record Stripe := {
  constructEvent : string → option string → option string → result StripeEvent;
  listLineItems : string → result (list Item);
  customers_list : string → result (list Customer);
  subscriptions_list : string → result (list Subscription);
  sessions_list : option string → result (list CheckoutSession)
}.

(** What one [fetch] to SendGrid does. *)
Inductive FetchOutcome : Type :=
| Response (ok : bool) (status : Z) (text : result string)
| FetchThrows (e : JsError).

(** ** Catalog *)

Record Catalog := {
  PRODUCT_NAME_MAP : gmap string string;
  ZOOM_LINK_MAP : gmap string (list string);
  ARCHIVE_SESSION_MAP : gmap string (list string)
}.

(** The four [PRICE_ID_*] environment variables. *)
Record PriceIds := {
  PRICE_ID_FULL_DAY : option string;
  PRICE_ID_PRACTICAL_AI_ARCHITECTURE : option string;
  PRICE_ID_IMAGE_GEN_AI : option string;
  PRICE_ID_GOOGLE_HP_GAS : option string
}.

(** A computed property name: an unset variable gives the key ["undefined"]. *)
Definition property_key (v : option string) : string := default "undefined" v.

(** An object literal with four computed keys: a later entry replaces an
    earlier one with the same key. *)
Definition object_literal {V} (e1 e2 e3 e4 : option string * V) : gmap string V :=
  <[property_key e4.1 := e4.2]> (<[property_key e3.1 := e3.2]>
    (<[property_key e2.1 := e2.2]> (<[property_key e1.1 := e1.2]> ∅))).

Definition catalog_of (ids : PriceIds) : Catalog := {|
  PRODUCT_NAME_MAP := object_literal
    (PRICE_ID_FULL_DAY ids, "AI FES. 参加チケット（1日通し）")
    (PRICE_ID_PRACTICAL_AI_ARCHITECTURE ids, "第２回実務で使えるAI×建築セミナー")
    (PRICE_ID_IMAGE_GEN_AI ids, "今使える画像生成AIセミナー（第２回開催）")
    (PRICE_ID_GOOGLE_HP_GAS ids,
      "Googleサービスでつくる無料HP＆業務自動化（GAS）セミナー（第１回開催）");
  ZOOM_LINK_MAP := object_literal
    (PRICE_ID_FULL_DAY ids, ["A"; "B"; "C"; "D"; "E"; "F"])
    (PRICE_ID_PRACTICAL_AI_ARCHITECTURE ids, ["C"; "F"])
    (PRICE_ID_IMAGE_GEN_AI ids, ["D"; "F"])
    (PRICE_ID_GOOGLE_HP_GAS ids, ["E"; "F"]);
  ARCHIVE_SESSION_MAP := object_literal
    (PRICE_ID_FULL_DAY ids, ["A"; "B"; "C"; "D"; "E1"; "E2"; "F"])
    (PRICE_ID_PRACTICAL_AI_ARCHITECTURE ids, ["A"; "B"; "C"; "F"])
    (PRICE_ID_IMAGE_GEN_AI ids, ["A"; "B"; "D"; "F"])
    (PRICE_ID_GOOGLE_HP_GAS ids, ["A"; "B"; "E1"; "E2"; "F"])
|}.

Definition CIRCLE_PRODUCT_ID : string := "prod_TA2S72xlZ4teEN".

(** The session keys of the archive, in display order. *)
Definition ALL_SESSION_KEYS : list string := ["A"; "B"; "C"; "D"; "E1"; "E2"; "F"].

(** [item.price?.id]. *)
Definition item_price_id (item : Item) : option string :=
  p ← item_price item; price_id p.

(** [item.price?.product]. *)
Definition item_price_product (item : Item) : option string :=
  p ← item_price item; price_product p.

(** ** HTTP responses *)

Record HttpResponse (B : Type) := { status : Z; body : B }.
Arguments status {B} _.
Arguments body {B} _.

Inductive WebhookBody : Type :=
| WebhookText (text : string)      (* res.send(text) *)
| Received                          (* { received: true } *)
| ReceivedAlreadyProcessed.         (* { received: true, status: 'already_processed' } *)

(** The message handed to [generateArchiveErrorPage]. *)
Inductive ArchiveMessage : Type :=
| EnterValidEmail        (* "enter a valid e-mail address" *)
| RequestLimitReached    (* "request limit reached, try again later" *)
| PurchaseNotFound       (* "no purchase history or circle membership found" *)
| ServerError            (* "a server error occurred, try again later" *)
| AuthenticationFailed.  (* part_000: "authentication failed" *)

(** The page of an archive response: [generateArchiveErrorPage message] or
    [generateArchiveVideoPage sortedKeys]. *)
Inductive ArchivePage : Type :=
| ErrorPage (message : ArchiveMessage)
| VideoPage (sessionKeys : list string).

(** ** The server *)

(** The data directory and the two data files the webhook writes. A file
    that does not exist is read as empty, as the [existsSync] guards of
    [loadProcessedEvents] and [recordFailedEmail] have it. *)
Record Files := {
  data_dir : bool;                         (* fs.existsSync(DATA_DIR) *)
  processed_events : gset string;          (* processed_events.json *)
  failed_emails : list FailedEmail         (* failed_emails.json *)
}.

(** What [fs.writeFileSync] throws for a file in a directory that does not
    exist (the message has the full path, here the name of the file). *)
Definition ENOENT (file : string) : JsError :=
  {| err_name := "Error";
     err_message := "ENOENT: no such file or directory, open '" +:+ file +:+ "'" |}.

(** The local variables of the [/archive/verify] handler that its
    [try] blocks assign. *)
Record Locals := {
  purchasedSessionKeys : list string;
  allCustomers : list Customer
}.

Record WebhookRequest := {
  req_body : string;
  stripe_signature : option string         (* req.headers['stripe-signature'] *)
}.

Definition delays : list Z := [1000; 2000; 4000].

Section Server.
Variable catalog : Catalog.
Variable stripe : Stripe.
(** The outcome of the [fetch] of attempt number [attempt]. *)
Variable sendgrid : nat → FetchOutcome.
(** [new Date()] when a failed e-mail is recorded. *)
Variable clock : Z.
Variable STRIPE_WEBHOOK_SECRET : option string.

(** The body of the [try] of [sendEmailWithRetry], from the [fetch] to
    [return true] or the [throw]. *)
Definition fetch_result (o : FetchOutcome) : result unit :=
  match o with
  | FetchThrows e => Throw e
  | Response ok status text =>
      if ok || (status =? 202) then Ok tt
      else match text with
           | Ok text =>
               Throw {| err_name := "Error";
                        err_message :=
                          "SendGrid API Error: " +:+ pretty status +:+ " " +:+ text |}
           | Throw e => Throw e
           end
  end.

(** The [for] loop of [sendEmailWithRetry]; [remaining] is
    [maxRetries - attempt]. [true] is [return true], [false] is falling out
    of the loop (the function then returns [undefined]). *)
Fixpoint sendEmail_loop {S} (remaining attempt maxRetries : nat) (to : string)
    : M S bool :=
  match remaining with
  | O => ret false
  | Datatypes.S remaining' =>
      let* returned :=
        try_catch
          (do* call (Fetch to attempt) (fetch_result (sendgrid attempt)) in
           ret (Some true))
          (λ error,
             if (attempt <? maxRetries - 1)%nat
             then do* tell [SetTimeout (default 0 (delays !! attempt))] in ret None
             else throw error) in
      match returned with
      | Some b => ret b
      | None => sendEmail_loop remaining' (Datatypes.S attempt) maxRetries to
      end
  end.

Definition sendEmailWithRetry {S} (to subject : string) (htmlContent : EmailContent)
    (maxRetries : nat) : M S bool :=
  do* tell [SendEmailWithRetry to subject htmlContent] in
  sendEmail_loop maxRetries 0 maxRetries to.

(** The entry [recordFailedEmail] pushes. *)
Definition failure_entry (email productName : string) (error : JsError) : FailedEmail :=
  {| fe_email := email; fe_product_name := productName;
     fe_error := error_text error; fe_timestamp := clock |}.

Definition record_failure (entry : FailedEmail) (files : Files) : Files :=
  {| data_dir := data_dir files;
     processed_events := processed_events files;
     failed_emails := failed_emails files ++ [entry] |}.

(** [recordFailedEmail] writes the file without creating [DATA_DIR] first. *)
Definition recordFailedEmail (email productName : string) (error : JsError)
    : M Files unit :=
  let entry := failure_entry email productName error in
  do* tell [RecordFailedEmail entry] in
  let* f := get in
  if data_dir f then modify (record_failure entry)
  else throw (ENOENT "failed_emails.json").

Definition loadProcessedEvents : M Files (gset string) :=
  do* tell [LoadProcessedEvents] in
  let* f := get in ret (processed_events f).

(** [saveProcessedEvent] creates [DATA_DIR] when it is missing. *)
Definition saveProcessedEvent (eventId : string) : M Files unit :=
  let* processed := loadProcessedEvents in
  do* tell [SaveProcessedEvent eventId] in
  modify (λ f, {| data_dir := true;
                  processed_events := {[eventId]} ∪ processed;
                  failed_emails := failed_emails f |}).

(** [.filter(Boolean)] on [item.price?.id]. *)
Definition purchasedPriceIds (lineItems : list Item) : list string :=
  omap (λ item, let id := item_price_id item in
                if Js.truthy id then id else None) lineItems.

(** One round of the loop over [purchasedPriceIds]: the state is
    [(productName, meetingKeys)]. *)
Definition purchased_step (acc : option string * list string) (priceId : string)
    : option string * list string :=
  let name := PRODUCT_NAME_MAP catalog !! priceId in
  let keys := ZOOM_LINK_MAP catalog !! priceId in
  (if Js.truthy name then name else acc.1,
   match keys with Some keys => set_add_all keys acc.2 | None => acc.2 end).

Definition email_subject : string :=
  "AI FES. 参加情報（Zoom登録リンクのご案内）".

(** The last statement of [handleCheckoutCompleted]: the [try] around
    [sendEmailWithRetry] (called with its default [maxRetries = 3]) and the
    [catch] that records the failure. *)
Definition send_or_record (customerEmail productName : string)
    (emailContent : EmailContent) : M Files unit :=
  try_catch
    (do* sendEmailWithRetry customerEmail email_subject emailContent 3 in ret tt)
    (λ error, recordFailedEmail customerEmail productName error).

Definition handleCheckoutCompleted (session : CheckoutSession) : M Files unit :=
  let* lineItems :=
    call (ListLineItems (session_id session))
         (listLineItems stripe (session_id session)) in
  let customerEmail :=
    Js.or (customer_details_email session) (customer_email session) in
  if negb (Js.truthy customerEmail) then ret tt
  else
    let customerEmail := default "" customerEmail in
    let ids := purchasedPriceIds lineItems in
    do* tell (CatalogLookup <$> ids) in
    let '(productName, meetingKeys) := fold_left purchased_step ids (None, []) in
    if negb (Js.truthy productName) || (length meetingKeys =? 0)%nat then ret tt
    else
      let productName := default "" productName in
      let meetingKeys := set_add "F" meetingKeys in
      let sortedKeys := merge_sort String.le meetingKeys in
      do* tell [LoadZoomMeetings] in
      let emailContent :=
        {| ec_productName := productName; ec_meetingKeys := sortedKeys |} in
      send_or_record customerEmail productName emailContent.

(** [app.post('/stripe/webhook', ...)]. *)
Definition stripe_webhook (req : WebhookRequest) : M Files (HttpResponse WebhookBody) :=
  let* verified :=
    try_catch
      (let* event :=
         call ConstructEvent
           (constructEvent stripe (req_body req) (stripe_signature req)
              STRIPE_WEBHOOK_SECRET) in
       ret (inr event))
      (λ err, ret (inl {| status := 400;
                          body := WebhookText ("Webhook Error: " +:+ err_message err) |})) in
  match verified with
  | inl rejected => ret rejected
  | inr event =>
      let* processedEvents := loadProcessedEvents in
      if bool_decide (event_id event ∈ processedEvents)
      then ret {| status := 200; body := ReceivedAlreadyProcessed |}
      else
        try_catch
          (do* (if String.eqb (event_type event) "checkout.session.completed"
                then handleCheckoutCompleted (event_object event)
                else ret tt) in
           do* saveProcessedEvent (event_id event) in
           ret {| status := 200; body := Received |})
          (λ err, ret {| status := 500; body := WebhookText "Webhook handler error" |})
  end.

End Server.

(** ** Archive entitlement *)

(** [/^[^\s@]+@[^\s@]+\.[^\s@]+$/.test(email)]: no white space, exactly one
    [@] with something before it, and after it a dot that is neither the
    first nor the last character. *)
Definition not_space_or_at (c : ascii) : bool :=
  negb (Ascii.is_space c) && negb (Ascii.eqb c "@").

Fixpoint split_at_first (sep : ascii) (l : list ascii) : option (list ascii * list ascii) :=
  match l with
  | [] => None
  | c :: l' =>
      if Ascii.eqb c sep then Some ([], l')
      else '(before, after) ← split_at_first sep l'; Some (c :: before, after)
  end.

Definition nonempty {A} (l : list A) : bool :=
  match l with [] => false | _ => true end.

(** [[^\s@]+\.[^\s@]+] against the whole of [l]. *)
Fixpoint dotted (l : list ascii) : bool :=
  match l with
  | [] | [_] | [_; _] => false
  | c :: (d :: rest) as l' =>
      not_space_or_at c &&
      ((Ascii.eqb d "." && nonempty rest && forallb not_space_or_at rest)
       || dotted l')
  end.

Definition email_regex_test (email : string) : bool :=
  match split_at_first "@" (list_ascii_of_string email) with
  | Some (local, domain) =>
      nonempty local && forallb not_space_or_at local && dotted domain
  | None => false
  end.

(** [payment_status] is ['paid'] or ['no_payment_required']. *)
Definition payment_qualifies (session : CheckoutSession) : bool :=
  String.eqb (payment_status session) "paid"
  || String.eqb (payment_status session) "no_payment_required".

(** Some item of the subscription is of the circle product. *)
Definition has_circle_item (items : list Item) : bool :=
  existsb (λ item, bool_decide (item_price_product item = Some CIRCLE_PRODUCT_ID)) items.

(** Some of the subscriptions is a circle membership. *)
Definition circle_member (subscriptions : list Subscription) : bool :=
  existsb (λ sub, has_circle_item (sub_items sub)) subscriptions.

Section Archive.
Variable catalog : Catalog.
Variable stripe : Stripe.

Definition set_keys (f : list string → list string) : M Locals unit :=
  modify (λ l, {| purchasedSessionKeys := f (purchasedSessionKeys l);
                  allCustomers := allCustomers l |}).

Definition set_allCustomers (cs : list Customer) : M Locals unit :=
  modify (λ l, {| purchasedSessionKeys := purchasedSessionKeys l;
                  allCustomers := cs |}).

Definition keys_size : M Locals nat :=
  let* l := get in ret (length (purchasedSessionKeys l)).

(** [for (const item of sub.items.data)]: the first circle item adds every
    session key and leaves the loop. *)
Fixpoint subscription_items_loop (items : list Item) : M Locals unit :=
  match items with
  | [] => ret tt
  | item :: items' =>
      if bool_decide (item_price_product item = Some CIRCLE_PRODUCT_ID)
      then set_keys (set_add_all ALL_SESSION_KEYS)
      else subscription_items_loop items'
  end.

(** [for (const sub of subscriptions.data)], with its [break]. *)
Fixpoint subscriptions_loop (subs : list Subscription) : M Locals unit :=
  match subs with
  | [] => ret tt
  | sub :: subs' =>
      do* subscription_items_loop (sub_items sub) in
      let* size := keys_size in
      if (0 <? size)%nat then ret tt else subscriptions_loop subs'
  end.

(** Channel 1, [for (const customer of allCustomers)], with its [break]. *)
Fixpoint subscription_customers_loop (customers : list Customer) : M Locals unit :=
  match customers with
  | [] => ret tt
  | customer :: customers' =>
      let* subscriptions :=
        call (SubscriptionsList (customer_id customer))
             (subscriptions_list stripe (customer_id customer)) in
      do* subscriptions_loop subscriptions in
      let* size := keys_size in
      if (0 <? size)%nat then ret tt else subscription_customers_loop customers'
  end.

(** [for (const item of lineItems.data)] of channels 2 and 3. *)
Definition add_archive_keys (lineItems : list Item) (keys : list string) : list string :=
  fold_left
    (λ keys item,
       let priceId := item_price_id item in
       if Js.truthy priceId then
         match ARCHIVE_SESSION_MAP catalog !! default "" priceId with
         | Some mapped => set_add_all mapped keys
         | None => keys
         end
       else keys)
    lineItems keys.

(** The inner [try]/[catch] around one session's line items. *)
Definition session_line_items (session : CheckoutSession) : M Locals unit :=
  try_catch
    (let* lineItems :=
       call (ListLineItems (session_id session))
            (listLineItems stripe (session_id session)) in
     set_keys (add_archive_keys lineItems))
    (λ lineItemErr, ret tt).

(** [for (const session of sessions.data)] of channel 2. *)
Fixpoint sessions_loop (sessions : list CheckoutSession) : M Locals unit :=
  match sessions with
  | [] => ret tt
  | session :: sessions' =>
      do* (if payment_qualifies session then session_line_items session else ret tt) in
      sessions_loop sessions'
  end.

(** Channel 2, [for (const customer of allCustomers)]. *)
Fixpoint purchase_customers_loop (customers : list Customer) : M Locals unit :=
  match customers with
  | [] => ret tt
  | customer :: customers' =>
      let* sessions :=
        call (SessionsList (Some (customer_id customer)))
             (sessions_list stripe (Some (customer_id customer))) in
      do* sessions_loop sessions in
      purchase_customers_loop customers'
  end.

(** Channel 3, [for (const session of recentSessions.data)]. *)
Fixpoint guest_sessions_loop (email : string) (sessions : list CheckoutSession)
    : M Locals unit :=
  match sessions with
  | [] => ret tt
  | session :: sessions' =>
      let sessionEmail :=
        Js.toLowerCase
          (Js.or_empty (Js.or (customer_details_email session) (customer_email session))) in
      do* (if negb (String.eqb sessionEmail email) then ret tt
           else if payment_qualifies session then session_line_items session
           else ret tt) in
      guest_sessions_loop email sessions'
  end.

(** Channel 1 with its own [try]/[catch]: customers by e-mail, then their
    active subscriptions. *)
Definition subscription_channel (email : string) : M Locals unit :=
  try_catch
    (let* customers :=
       call (CustomersList email) (customers_list stripe email) in
     do* set_allCustomers customers in
     subscription_customers_loop customers)
    (λ subErr, ret tt).

(** Channels 2 and 3: the block under [if (purchasedSessionKeys.size === 0)]. *)
Definition purchase_channels (email : string) : M Locals unit :=
  let* size := keys_size in
  if (size =? 0)%nat then
    let* l := get in
    do* purchase_customers_loop (allCustomers l) in
    let* l := get in
    if (length (purchasedSessionKeys l) =? 0)%nat
       && (length (allCustomers l) =? 0)%nat
    then
      let* recentSessions :=
        call (SessionsList None) (sessions_list stripe None) in
      guest_sessions_loop email recentSessions
    else ret tt
  else ret tt.

(** The end of the outer [try] block: the "not found" page or the videos. *)
Definition entitlement_page : M Locals (HttpResponse ArchivePage) :=
  let* l := get in
  if (length (purchasedSessionKeys l) =? 0)%nat
  then ret {| status := 200; body := ErrorPage PurchaseNotFound |}
  else
    let sortedKeys :=
      filter (λ k, k ∈ purchasedSessionKeys l) ALL_SESSION_KEYS in
    ret {| status := 200; body := VideoPage sortedKeys |}.

(** The outer [try] block of [/archive/verify] and its [catch]. *)
Definition resolve_entitlement (email : string) : M Locals (HttpResponse ArchivePage) :=
  try_catch
    (do* subscription_channel email in
     do* purchase_channels email in
     entitlement_page)
    (λ err, ret {| status := 500; body := ErrorPage ServerError |}).

(** The locals once a circle membership was found. *)
Definition grant_all (l : Locals) : Locals :=
  {| purchasedSessionKeys := ALL_SESSION_KEYS; allCustomers := allCustomers l |}.

Definition new_locals : Locals :=
  {| purchasedSessionKeys := []; allCustomers := [] |}.

(** [/archive/verify] from the validation on, for an e-mail address already
    taken from the request. The result is the response, the rate limiter's
    [Map] afterwards and the calls made. *)
Definition verify_email (maxRequests : nat) (now : Z) (email : string)
    (archiveRateLimit : gmap string (list Z))
    : HttpResponse ArchivePage * gmap string (list Z) * list Call :=
  if negb (Js.truthy (Some email)) || negb (email_regex_test email)
  then ({| status := 200; body := ErrorPage EnterValidEmail |}, archiveRateLimit, [])
  else
    let '(allowed, archiveRateLimit) :=
      checkArchiveRateLimit_with maxRequests now email archiveRateLimit in
    if negb allowed
    then ({| status := 429; body := ErrorPage RequestLimitReached |}, archiveRateLimit, [])
    else
      match resolve_entitlement email new_locals with
      | (Ok response, _, calls) => (response, archiveRateLimit, calls)
      | (Throw _, _, calls) =>
          ({| status := 500; body := ErrorPage ServerError |}, archiveRateLimit, calls)
      end.

(** [app.post('/archive/verify', ...)] of [src/server/index.js];
    [body_email] is [req.body.email]. *)
Definition archive_verify (now : Z) (body_email : option string)
    (archiveRateLimit : gmap string (list Z)) :=
  let email := Js.toLowerCase (Js.trim (Js.or_empty body_email)) in
  verify_email 5 now email archiveRateLimit.

(** [app.post('/archive/verify', ...)] of [src/unnamed/part_000].
    [FIREBASE_CONFIG] says whether the service account is configured;
    [verifyIdToken token] is the [email] claim of the decoded token, or the
    error of [admin.auth().verifyIdToken]. *)
Definition archive_verify_part_000 (FIREBASE_CONFIG : bool)
    (verifyIdToken : string → result (option string))
    (now : Z) (firebaseToken body_email : option string)
    (archiveRateLimit : gmap string (list Z))
    : HttpResponse ArchivePage * gmap string (list Z) * list Call :=
  if Js.truthy firebaseToken && FIREBASE_CONFIG then
    let token := default "" firebaseToken in
    match verifyIdToken token with
    | Ok decoded_email =>
        let email := Js.toLowerCase (Js.or_empty decoded_email) in
        let '(response, archiveRateLimit, calls) :=
          verify_email 30 now email archiveRateLimit in
        (response, archiveRateLimit, VerifyIdToken token true :: calls)
    | Throw tokenErr =>
        ({| status := 200; body := ErrorPage AuthenticationFailed |},
         archiveRateLimit, [VerifyIdToken token false])
    end
  else
    let email := Js.toLowerCase (Js.trim (Js.or_empty body_email)) in
    verify_email 30 now email archiveRateLimit.

End Archive.

(** ** Reading the call log *)

Definition is_dispatch (c : Call) : bool :=
  match c with SendEmailWithRetry _ _ _ => true | _ => false end.

Definition is_fetch (c : Call) : bool :=
  match c with Fetch _ _ _ => true | _ => false end.

Definition is_failure_record (c : Call) : bool :=
  match c with RecordFailedEmail _ => true | _ => false end.

(** Calls that read or write the idempotency file or look up the catalog. *)
Definition is_store_or_catalog (c : Call) : bool :=
  match c with
  | LoadProcessedEvents | SaveProcessedEvent _ | CatalogLookup _ => true
  | _ => false
  end.

Definition is_checkout_lookup (c : Call) : bool :=
  match c with SessionsList _ _ | ListLineItems _ _ => true | _ => false end.

Definition is_stripe_lookup (c : Call) : bool :=
  match c with
  | CustomersList _ _ | SubscriptionsList _ _ | SessionsList _ _
  | ListLineItems _ _ => true
  | _ => false
  end.

Definition is_token_check (c : Call) : bool :=
  match c with VerifyIdToken _ _ => true | _ => false end.

(** A customer or subscription lookup that threw (channel 1). *)
Definition subscription_channel_error (c : Call) : bool :=
  match c with
  | CustomersList _ false | SubscriptionsList _ false => true
  | _ => false
  end.

(** A line-item fetch that threw (channels 2 and 3). *)
Definition line_items_error (c : Call) : bool :=
  match c with ListLineItems _ false => true | _ => false end.

(** A checkout-session listing that threw (channels 2 and 3). *)
Definition sessions_list_error (c : Call) : bool :=
  match c with SessionsList _ false => true | _ => false end.

Definition count (p : Call → bool) (calls : list Call) : nat :=
  length (List.filter p calls).

(** The delays handed to [setTimeout], in order. *)
Definition timeouts (calls : list Call) : list Z :=
  omap (λ c, match c with SetTimeout ms => Some ms | _ => None end) calls.

(** The session keys of each notification sent, in order. *)
Definition notified_keys (calls : list Call) : list (list string) :=
  omap (λ c, match c with
             | SendEmailWithRetry _ _ content => Some (ec_meetingKeys content)
             | _ => None
             end) calls.

(** A log of Stripe lookups in which [ok] says whether every checkout-session
    listing returned. *)
Definition lookups_with (ok : bool) (calls : list Call) : Prop :=
  Forall (λ c, is_stripe_lookup c = true) calls
  ∧ ok = negb (existsb sessions_list_error calls).

(** ** Sample collaborators *)

Module Sample.

Definition ids : PriceIds := {|
  PRICE_ID_FULL_DAY := Some "price_full";
  PRICE_ID_PRACTICAL_AI_ARCHITECTURE := Some "price_practical";
  PRICE_ID_IMAGE_GEN_AI := Some "price_image";
  PRICE_ID_GOOGLE_HP_GAS := Some "price_gas"
|}.

(** A catalog none of whose registration-link lists contains [F]. *)
Definition workshop_catalog : Catalog := {|
  PRODUCT_NAME_MAP := {[ "price_workshop" := "Workshop" ]};
  ZOOM_LINK_MAP := {[ "price_workshop" := ["C"] ]};
  ARCHIVE_SESSION_MAP := ∅
|}.

Definition bad_signature : JsError :=
  {| err_name := "StripeSignatureVerificationError";
     err_message := "No stripe-signature header value was provided." |}.

Definition session : CheckoutSession :=
  {| session_id := "cs_1"; payment_status := "paid";
     customer_details_email := Some "buyer@example.com";
     customer_email := None |}.

Definition event : StripeEvent :=
  {| event_id := "evt_1"; event_type := "checkout.session.completed";
     event_object := session |}.

Definition line_item (priceId : string) : Item :=
  {| item_price := Some {| price_id := Some priceId; price_product := None |} |}.

Definition circle_subscription : Subscription :=
  {| sub_items :=
       [{| item_price := Some {| price_id := Some "price_circle";
                                 price_product := Some CIRCLE_PRODUCT_ID |} |}] |}.

(** Accepts the signature ["valid"] only; the session has the line items
    [items]; of the two customers the second is a member of the circle. *)
Definition stripe (items : list Item) : Stripe := {|
  constructEvent := λ body signature secret,
    if bool_decide (signature = Some "valid") then Ok event else Throw bad_signature;
  listLineItems := λ _, Ok items;
  customers_list := λ _, Ok [{| customer_id := "cus_1" |}; {| customer_id := "cus_2" |}];
  subscriptions_list := λ customer,
    if String.eqb customer "cus_2" then Ok [circle_subscription] else Ok [];
  sessions_list := λ _, Ok []
|}.

Definition signed : WebhookRequest :=
  {| req_body := "{}"; stripe_signature := Some "valid" |}.

Definition unsigned : WebhookRequest :=
  {| req_body := "{}"; stripe_signature := None |}.

(** The data directory with neither file in it. *)
Definition no_files : Files :=
  {| data_dir := true; processed_events := ∅; failed_emails := [] |}.

Definition unavailable : nat → FetchOutcome :=
  λ _, Response false 500 (Ok "unavailable").

Definition accepted : nat → FetchOutcome := λ _, Response true 202 (Ok "").

(** Five requests of one person, a minute apart, then a sixth. *)
Definition requests : list (Z * string) :=
  [(0, "User@Example.com"); (60000, " user@example.com");
   (120000, "USER@EXAMPLE.COM "); (180000, "user@example.com");
   (240000, "user@example.com")].

Definition sixth : Z * string := (300000, "user@example.com").

End Sample.

(** ** Registration links *)

(** Meeting key to the name under which [zoom_meetings.json] lists the
    meeting. *)
Definition MEETING_NAME_MAP : gmap string string :=
  <["F" := "AI FES. プレゼント配布＋最終質問タイム＋AI×建築サークル案内"]>
  (<["E" := "Googleサービスでつくる無料HP＆業務自動化（GAS）セミナー（第１回開催）"]>
  (<["D" := "今使える画像生成AIセミナー（第２回開催）"]>
  (<["C" := "第２回実務で使えるAI×建築セミナー"]>
  (<["B" := "AI FES. 自社プロダクト（COMPASS/SpotPDF/KAKOME）使い方"]>
  (<["A" := "AI FES. 直近30日：最新AI Newsまとめ（建築業界向け sena流）"]> ∅))))).

(** An entry of [zoom_meetings.json], as far as it is read. *)
Record ZoomMeeting := { registration_url : option string }.

(** [getRegistrationUrl]: [None] is [null] or [undefined]. *)
Definition getRegistrationUrl (zoomMeetings : gmap string ZoomMeeting)
    (meetingKey : string) : option string :=
  let meetingName := MEETING_NAME_MAP !! meetingKey in
  if negb (Js.truthy meetingName) then None
  else
    match zoomMeetings !! default "" meetingName with
    | None => None
    | Some meeting => registration_url meeting
    end.

(** ** The archive page *)

Record ArchiveSession := {
  as_name : string;
  youtubeId : string;
  duration : string;
  comingSoon : option string
}.

Definition AIFES_SESSIONS : gmap string ArchiveSession :=
  <["F" := {| as_name := "プレゼント配布＋最終質問タイム"; youtubeId := "QZ3voPMY7QU";
              duration := "60min"; comingSoon := None |}]>
  (<["E2" := {| as_name := "Googleサービスでつくる無料HP"; youtubeId := "fiF6r7ZOUCI";
                duration := "120min"; comingSoon := None |}]>
  (<["E1" := {| as_name := "GAS業務自動化セミナー"; youtubeId := "";
                duration := "50min";
                comingSoon :=
                  Some "録画トラブルにより、後日公開予定です。お待たせして申し訳ございません。" |}]>
  (<["D" := {| as_name := "今使える画像生成AIセミナー"; youtubeId := "ZyKBkx0IrT8";
               duration := "90min"; comingSoon := None |}]>
  (<["C" := {| as_name := "実務で使えるAI×建築セミナー"; youtubeId := "4ItAbxrfL84";
               duration := "145min"; comingSoon := None |}]>
  (<["B" := {| as_name := "自社プロダクト紹介（COMPASS/SpotPDF/KAKOME）";
               youtubeId := "J33xRxt2kiU"; duration := "80min"; comingSoon := None |}]>
  (<["A" := {| as_name := "直近30日：最新AI Newsまとめ"; youtubeId := "zspijMjW-tU";
               duration := "75min"; comingSoon := None |}]> ∅)))))).

(** What a session card shows in place of the video. *)
Inductive VideoContent : Type :=
| Player (key : string)                   (* the [player-<key>] element *)
| Placeholder (title notice : string).    (* the [video-placeholder] element *)

Record SessionCard := {
  card_key : string;
  card_name : string;
  card_duration : string;
  card_video : VideoContent
}.

(** The callback of [sessionKeys.map] in [generateArchiveVideoPage]; [None]
    is the empty string returned for a key without session. *)
Definition session_card (key : string) : option SessionCard :=
  session ← AIFES_SESSIONS !! key;
  Some {| card_key := key;
          card_name := as_name session;
          card_duration := duration session;
          card_video :=
            if Js.truthy (Some (youtubeId session)) then Player key
            else Placeholder
                   (if Js.truthy (comingSoon session)
                    then "後日公開予定" else "準備中")
                   (default "動画は近日公開予定です"
                      (Js.or (comingSoon session) None)) |}.

(** What the template of [generateArchiveVideoPage] is filled with: the
    number in the "sessions available" line, the cards, and the entries of
    the [videoIds] object of the script. *)
Record ArchiveVideoPage := {
  session_count : nat;
  session_cards : list SessionCard;
  videoIds : list (string * string)
}.

Definition generateArchiveVideoPage (sessionKeys : list string) : ArchiveVideoPage := {|
  session_count := length sessionKeys;
  session_cards := omap session_card sessionKeys;
  videoIds :=
    (λ k, (k, default "" (youtubeId <$> AIFES_SESSIONS !! k))) <$>
      List.filter (λ k, Js.truthy (youtubeId <$> AIFES_SESSIONS !! k)) sessionKeys
|}.

(** ** The three channels, read as sets *)

(** The session has a line item whose price identifier the catalog maps to
    an archive list containing [key], and the fetch of its line items
    returns. *)
Definition purchased_in (catalog : Catalog) (stripe : Stripe)
    (session : CheckoutSession) (key : string) : Prop :=
  ∃ lineItems item priceId keys,
    listLineItems stripe (session_id session) = Ok lineItems
    ∧ item ∈ lineItems
    ∧ item_price_id item = Some priceId
    ∧ priceId ≠ ""
    ∧ ARCHIVE_SESSION_MAP catalog !! priceId = Some keys
    ∧ key ∈ keys.

(** The e-mail of a checkout session, as channel 3 compares it. *)
Definition session_email (session : CheckoutSession) : string :=
  Js.toLowerCase
    (Js.or_empty (Js.or (customer_details_email session) (customer_email session))).

(** Whether the subscription loop of channel 1 reaches a member of the
    circle: it stops at the first listing that throws. *)
Fixpoint finds_member (stripe : Stripe) (customers : list Customer) : bool :=
  match customers with
  | [] => false
  | customer :: customers' =>
      match subscriptions_list stripe (customer_id customer) with
      | Ok subscriptions =>
          circle_member subscriptions || finds_member stripe customers'
      | Throw _ => false
      end
  end.

(** [key] is granted by a paid checkout session of one of the customers. *)
Definition granted_to_customers (catalog : Catalog) (stripe : Stripe)
    (customers : list Customer) (key : string) : Prop :=
  ∃ c sessions s,
    c ∈ customers
    ∧ sessions_list stripe (Some (customer_id c)) = Ok sessions
    ∧ s ∈ sessions ∧ payment_qualifies s = true ∧ purchased_in catalog stripe s key.

(** [key] is granted by a paid recent checkout session with the e-mail. *)
Definition granted_to_guest (catalog : Catalog) (stripe : Stripe)
    (email : string) (key : string) : Prop :=
  ∃ recent s,
    sessions_list stripe None = Ok recent
    ∧ s ∈ recent ∧ session_email s = email
    ∧ payment_qualifies s = true ∧ purchased_in catalog stripe s key.

(** The end of the handler for a given key set. *)
Definition page_of (keys : list string) : HttpResponse ArchivePage :=
  if (length keys =? 0)%nat
  then {| status := 200; body := ErrorPage PurchaseNotFound |}
  else {| status := 200;
          body := VideoPage (filter (λ k, k ∈ keys) ALL_SESSION_KEYS) |}.

(** ** Strings as lists of characters *)

(** [trimStart] on the list of characters. *)
Fixpoint drop_spaces (l : list ascii) : list ascii :=
  match l with
  | [] => []
  | c :: l' => if Ascii.is_space c then drop_spaces l' else l
  end.

(** The list is empty or starts with a character that is not white space. *)
Definition starts_clean (l : list ascii) : Prop :=
  match l with
  | [] => True
  | c :: _ => Ascii.is_space c = false
  end.

(** What [/^[^\s@]+@[^\s@]+\.[^\s@]+$/] says of the characters of a string:
    three non-empty runs of characters other than white space and [@],
    separated by an [@] and a dot. *)
Definition email_shape (l : list ascii) : Prop :=
  ∃ local host tld,
    l = local ++ "@"%char :: host ++ "."%char :: tld
    ∧ local ≠ [] ∧ host ≠ [] ∧ tld ≠ []
    ∧ forallb not_space_or_at local = true
    ∧ forallb not_space_or_at host = true
    ∧ forallb not_space_or_at tld = true.

(** The listing of recent checkout sessions, the one call of channel 3 that
    is not made per customer or per session. *)
Definition is_recent_listing (c : Call) : bool :=
  match c with SessionsList None _ => true | _ => false end.

(** The value of [allCustomers] after channel 1: the customers found, or
    nothing when the lookup threw. *)
Definition customers_found (stripe : Stripe) (email : string) : list Customer :=
  match customers_list stripe email with
  | Ok customers => customers
  | Throw _ => []
  end.

(** Calls that are Stripe lookups other than a listing of recent checkout
    sessions or a checkout-session listing that threw. *)
Definition line_item_fetches (calls : list Call) : Prop :=
  Forall (λ c, is_stripe_lookup c = true ∧ is_recent_listing c = false
               ∧ sessions_list_error c = false) calls.

(** ** More sample collaborators *)

Module Scenario.

Definition down : JsError :=
  {| err_name := "Error"; err_message := "connection reset" |}.

(** Three recent checkout sessions: of somebody else, unpaid, and the
    buyer's paid one, with the address in capitals. *)
Definition other_session : CheckoutSession :=
  {| session_id := "cs_other"; payment_status := "paid";
     customer_details_email := Some "other@example.com"; customer_email := None |}.

Definition unpaid_session : CheckoutSession :=
  {| session_id := "cs_unpaid"; payment_status := "unpaid";
     customer_details_email := Some "buyer@example.com"; customer_email := None |}.

Definition guest_session : CheckoutSession :=
  {| session_id := "cs_guest"; payment_status := "paid";
     customer_details_email := None; customer_email := Some "Buyer@Example.com" |}.

(** No customer record; every session holds the image seminar. *)
Definition guest_stripe : Stripe := {|
  constructEvent := λ _ _ _, Throw Sample.bad_signature;
  listLineItems := λ _, Ok [Sample.line_item "price_image"];
  customers_list := λ _, Ok [];
  subscriptions_list := λ _, Ok [];
  sessions_list := λ _, Ok [other_session; unpaid_session; guest_session]
|}.

(** One customer record whose subscription listing throws and whose paid
    session holds the practical seminar. *)
Definition registered_stripe : Stripe := {|
  constructEvent := λ _ _ _, Throw Sample.bad_signature;
  listLineItems := λ _, Ok [Sample.line_item "price_practical"];
  customers_list := λ _, Ok [{| customer_id := "cus_1" |}];
  subscriptions_list := λ _, Throw down;
  sessions_list := λ _, Ok [Sample.session]
|}.

(** The event of [Sample], with line items that cannot be fetched. *)
Definition broken_items_stripe : Stripe := {|
  constructEvent := constructEvent (Sample.stripe []);
  listLineItems := λ _, Throw down;
  customers_list := customers_list (Sample.stripe []);
  subscriptions_list := subscriptions_list (Sample.stripe []);
  sessions_list := sessions_list (Sample.stripe [])
|}.

(** A purchase-completed event without buyer e-mail. *)
Definition anonymous_event : StripeEvent :=
  {| event_id := "evt_2"; event_type := "checkout.session.completed";
     event_object := {| session_id := "cs_2"; payment_status := "paid";
                        customer_details_email := None;
                        customer_email := Some "" |} |}.

Definition anonymous_stripe : Stripe := {|
  constructEvent := λ _ _ _, Ok anonymous_event;
  listLineItems := λ _, Ok [Sample.line_item "price_practical"];
  customers_list := λ _, Ok [];
  subscriptions_list := λ _, Ok [];
  sessions_list := λ _, Ok []
|}.

(** The notification for the image and the practical seminar bought
    together, in this order. *)
Definition two_seminars : list Item :=
  [Sample.line_item "price_image"; Sample.line_item "price_practical"].

Definition two_seminars_content : EmailContent :=
  {| ec_productName := "第２回実務で使えるAI×建築セミナー";
     ec_meetingKeys := ["C"; "D"; "F"] |}.

(** A [zoom_meetings.json] with the meeting of key [C] only. *)
Definition zoom_meetings : gmap string ZoomMeeting :=
  {[ "第２回実務で使えるAI×建築セミナー" :=
       {| registration_url := Some "https://zoom.example/register/c" |} ]}.

Definition other_window : gmap string (list Z) := {[ "other@example.com" := [5] ]}.

(** An event of another type; its object is not read by the webhook. *)
Definition invoice_event : StripeEvent :=
  {| event_id := "evt_3"; event_type := "invoice.paid";
     event_object := {| session_id := "in_1"; payment_status := "paid";
                        customer_details_email := None; customer_email := None |} |}.

Definition invoice_stripe : Stripe := {|
  constructEvent := λ _ _ _, Ok invoice_event;
  listLineItems := λ _, Ok [];
  customers_list := λ _, Ok [];
  subscriptions_list := λ _, Ok [];
  sessions_list := λ _, Ok []
|}.

(** A deployment whose data directory has not been created yet. *)
Definition no_data_dir : Files :=
  {| data_dir := false; processed_events := ∅; failed_emails := [] |}.

End Scenario.

(** * Properties *)

(** ** Rate limiter *)

Section RateLimiter.
Variable maxRequests : nat.
Implicit Types (m : gmap string (list Z)) (reqs : list (Z * string)).

Let key (email : string) := Js.trim (Js.toLowerCase email).
Let fresh (now : Z) (l : list Z) := filter (λ t, now - t < windowMs) l.

Lemma checkArchiveRateLimit_with_eq now email m :
  checkArchiveRateLimit_with maxRequests now email m =
    if decide (maxRequests ≤ length (fresh now (window_of m (key email))))%nat
    then (false, <[key email := fresh now (window_of m (key email))]> m)
    else (true, <[key email := fresh now (window_of m (key email)) ++ [now]]> m).
Proof.
  unfold checkArchiveRateLimit_with, window_of, fresh, key.
  destruct (m !! Js.trim (Js.toLowerCase email)) as [l|] eqn:E; simpl.
  - rewrite E. reflexivity.
  - rewrite lookup_insert_eq. simpl.
    rewrite !insert_insert_eq. reflexivity.
Qed.

Lemma fresh_all now l :
  Forall (λ t, now - t < windowMs) l → fresh now l = l.
Proof.
  unfold fresh. induction 1 as [|t l Ht _ IH]; [done|].
  rewrite filter_cons_True by done. by rewrite IH.
Qed.

Lemma fresh_drops now l t :
  t ∈ l → windowMs ≤ now - t → (length (fresh now l) < length l)%nat.
Proof.
  unfold fresh. induction l as [|x l IH]; intros Hin Hold.
  - by apply elem_of_nil in Hin.
  - apply elem_of_cons in Hin as [->|Hin].
    + rewrite filter_cons_False by lia.
      pose proof (length_filter (λ t, now - t < windowMs) l). simpl. lia.
    + specialize (IH Hin Hold).
      destruct (decide (now - x < windowMs)).
      * rewrite filter_cons_True by done. simpl. lia.
      * rewrite filter_cons_False by done. simpl. lia.
Qed.

Lemma run_checks_allowed k reqs : ∀ done m,
  window_of m k = done →
  Forall (λ r, key r.2 = k) reqs →
  Forall (λ t, Forall (λ r, r.1 - t < windowMs) reqs) done →
  within_window reqs →
  (length done + length reqs ≤ maxRequests)%nat →
  ∃ m', run_checks maxRequests reqs m = (replicate (length reqs) true, m')
        ∧ window_of m' k = done ++ reqs.*1.
Proof.
  induction reqs as [|[now email] reqs IH]; intros done m Hw Hk Hd Hs Hlen.
  - exists m. simpl. by rewrite app_nil_r.
  - apply Forall_cons in Hk as [Hk1 Hk]. simpl in Hk1.
    apply StronglySorted_inv in Hs as [Hs Hnow].
    assert (Hall : Forall (λ t, now - t < windowMs) done).
    { eapply Forall_impl; [exact Hd|]. intros t Ht.
      by apply Forall_cons in Ht as [Ht _]. }
    simpl. rewrite checkArchiveRateLimit_with_eq, Hk1, Hw, (fresh_all _ _ Hall).
    simpl in Hlen. rewrite decide_False by lia.
    destruct (IH (done ++ [now]) (<[k := done ++ [now]]> m)) as (m' & Hrun & Hwin).
    + unfold window_of. by rewrite lookup_insert_eq.
    + done.
    + apply Forall_app. split.
      * eapply Forall_impl; [exact Hd|]. intros t Ht.
        by apply Forall_cons in Ht as [_ Ht].
      * apply Forall_singleton. exact Hnow.
    + done.
    + rewrite length_app. simpl. lia.
    + exists m'. rewrite Hrun. split; [done|].
      rewrite Hwin, <- app_assoc. done.
Qed.

End RateLimiter.

Lemma run_checks_app maxRequests (reqs1 reqs2 : list (Z * string)) m :
  run_checks maxRequests (reqs1 ++ reqs2) m =
    let '(oks1, m1) := run_checks maxRequests reqs1 m in
    let '(oks2, m2) := run_checks maxRequests reqs2 m1 in
    (oks1 ++ oks2, m2).
Proof.
  revert m. induction reqs1 as [|[now email] reqs1 IH]; intros m; simpl.
  - by destruct (run_checks maxRequests reqs2 m).
  - destruct (checkArchiveRateLimit_with maxRequests now email m) as [ok m1].
    rewrite IH. destruct (run_checks maxRequests reqs1 m1) as [oks1 m2].
    by destruct (run_checks maxRequests reqs2 m2).
Qed.

(** C3. For one identity [key] (the lower-cased, trimmed e-mail) with nothing
    recorded yet and a ceiling [maxRequests] (5 in [src/server/index.js], 30
    in [src/unnamed/part_000]):
    of [maxRequests + 1] requests made within one window the first
    [maxRequests] are allowed and the last is denied; the denied request
    leaves exactly the allowed timestamps recorded; a request made once
    [windowMs] has passed since the earliest of them is allowed again; and in
    any state at all a denied call records no timestamp. *)
Theorem rate_limit_sliding_window (maxRequests : nat) (key : string)
    (reqs : list (Z * string)) (last : Z * string) (m : gmap string (list Z)) :
  (0 < maxRequests)%nat →
  window_of m key = [] →
  length reqs = maxRequests →
  Forall (λ r, Js.trim (Js.toLowerCase r.2) = key) (reqs ++ [last]) →
  within_window (reqs ++ [last]) →
  let out := run_checks maxRequests (reqs ++ [last]) m in
  out.1 = replicate maxRequests true ++ [false]
  ∧ window_of out.2 key = reqs.*1
  ∧ (∀ now email t0,
       Js.trim (Js.toLowerCase email) = key →
       head reqs.*1 = Some t0 →
       windowMs ≤ now - t0 →
       (checkArchiveRateLimit_with maxRequests now email out.2).1 = true)
  ∧ (∀ now email m0,
       (checkArchiveRateLimit_with maxRequests now email m0).1 = false →
       window_of (checkArchiveRateLimit_with maxRequests now email m0).2
                 (Js.trim (Js.toLowerCase email))
       = filter (λ t, now - t < windowMs)
                (window_of m0 (Js.trim (Js.toLowerCase email)))).
Proof.
  intros Hpos Hempty Hlen Hkey Hwin out.
  apply Forall_app in Hkey as [Hkey Hlast].
  apply Forall_inv in Hlast.
  assert (Hreqs : within_window reqs ∧ Forall (λ r, last.1 - r.1 < windowMs) reqs).
  { clear -Hwin. unfold within_window in *.
    induction reqs as [|r reqs IH]; simpl in *.
    - split; constructor.
    - apply StronglySorted_inv in Hwin as [Hs Hr].
      apply Forall_app in Hr as [Hr Hl]. apply Forall_inv in Hl.
      destruct (IH Hs) as [IH1 IH2].
      split; constructor; assumption. }
  destruct Hreqs as [Hsorted Hbefore].
  destruct (run_checks_allowed maxRequests key reqs [] m) as (m1 & Hrun & Hw1);
    [done|done|constructor|done|simpl; lia|].
  simpl in Hw1.
  assert (Hout : out = (replicate maxRequests true ++ [false],
                        <[key := reqs.*1]> m1)).
  { unfold out. rewrite run_checks_app, Hrun. destruct last as [now email].
    simpl in *. rewrite checkArchiveRateLimit_with_eq, Hlast, Hw1.
    rewrite fresh_all by (by apply Forall_fmap).
    rewrite decide_True by (rewrite length_fmap; lia).
    by rewrite Hlen. }
  rewrite Hout. simpl.
  assert (Hw2 : window_of (<[key := reqs.*1]> m1) key = reqs.*1).
  { unfold window_of. by rewrite lookup_insert_eq. }
  split; [done|]. split; [done|]. split.
  - intros now email t0 Hk Hhead Hold.
    rewrite checkArchiveRateLimit_with_eq, Hk, Hw2.
    assert (t0 ∈ reqs.*1) by (destruct (reqs.*1); simplify_eq/=; left).
    pose proof (fresh_drops now (reqs.*1) t0 H Hold) as Hlt.
    rewrite length_fmap in Hlt.
    rewrite decide_False by lia. done.
  - intros now email m0. rewrite checkArchiveRateLimit_with_eq.
    case_decide; simpl; [|done]. intros _.
    unfold window_of at 1. by rewrite lookup_insert_eq.
Qed.

(** ** Notification dispatcher *)

Lemma count_app p (l1 l2 : list Call) : count p (l1 ++ l2) = (count p l1 + count p l2)%nat.
Proof. unfold count. by rewrite List.filter_app, length_app. Qed.

Lemma count_cons p c (l : list Call) :
  count p (c :: l) = ((if p c then 1 else 0) + count p l)%nat.
Proof. unfold count. simpl. by destruct (p c). Qed.

Lemma count_none p (l : list Call) : Forall (λ c, p c = false) l → count p l = 0%nat.
Proof.
  induction 1 as [|c l Hc _ IH]; [done|]. by rewrite count_cons, Hc, IH.
Qed.

Lemma count_nil p : count p [] = 0%nat.
Proof. done. Qed.

Ltac count_simpl :=
  repeat (rewrite count_app || rewrite count_cons || rewrite count_nil);
  cbn [is_dispatch is_fetch is_failure_record is_store_or_catalog].

Lemma timeouts_app (l1 l2 : list Call) : timeouts (l1 ++ l2) = timeouts l1 ++ timeouts l2.
Proof. apply omap_app. Qed.

Lemma notified_keys_app (l1 l2 : list Call) :
  notified_keys (l1 ++ l2) = notified_keys l1 ++ notified_keys l2.
Proof. apply omap_app. Qed.

Section Dispatcher.
Variable sendgrid : nat → FetchOutcome.
Variable clock : Z.

(** [send_or_record], run: the three attempts decide everything. *)
Lemma send_or_record_eq to productName content files :
  send_or_record sendgrid clock to productName content files =
    let dispatch := SendEmailWithRetry to email_subject content in
    match fetch_result (sendgrid 0%nat), fetch_result (sendgrid 1%nat),
          fetch_result (sendgrid 2%nat) with
    | Ok _, _, _ => (Ok tt, files, [dispatch; Fetch to 0 true])
    | Throw _, Ok _, _ =>
        (Ok tt, files,
         [dispatch; Fetch to 0 false; SetTimeout 1000; Fetch to 1 true])
    | Throw _, Throw _, Ok _ =>
        (Ok tt, files,
         [dispatch; Fetch to 0 false; SetTimeout 1000; Fetch to 1 false;
          SetTimeout 2000; Fetch to 2 true])
    | Throw _, Throw _, Throw e =>
        let calls :=
          [dispatch; Fetch to 0 false; SetTimeout 1000; Fetch to 1 false;
           SetTimeout 2000; Fetch to 2 false;
           RecordFailedEmail (failure_entry clock to productName e)] in
        if data_dir files
        then (Ok tt, record_failure (failure_entry clock to productName e) files, calls)
        else (Throw (ENOENT "failed_emails.json"), files, calls)
    end.
Proof.
  unfold send_or_record, sendEmailWithRetry, recordFailedEmail, try_catch, bind,
    tell, get, modify, call, ret, throw. simpl.
  unfold try_catch, bind, tell, call, ret, throw.
  destruct (fetch_result (sendgrid 0%nat)) as [[]|e0]; simpl; [done|].
  destruct (fetch_result (sendgrid 1%nat)) as [[]|e1]; simpl; [done|].
  destruct (fetch_result (sendgrid 2%nat)) as [[]|e2]; simpl; [done|].
  by destruct (data_dir files).
Qed.

End Dispatcher.

(** What one notification does, whatever the transport answers. At most three
    attempts are made; the waits between them are the first entries of
    [delays], one wait fewer than attempts; the idempotency file is not
    touched; when an attempt succeeds nothing is recorded. When all three
    fail, [recordFailedEmail] is called once with the recipient and the error
    of the third attempt: with the data directory in place its entry is
    appended to the failed e-mails, without it the write throws out of
    [handleCheckoutCompleted] and no file is changed. *)
Lemma send_or_record_retries (sendgrid : nat → FetchOutcome) (clock : Z)
    (to productName : string) (content : EmailContent) (files : Files) :
  let '(r, files', calls) := send_or_record sendgrid clock to productName content files in
  (count is_fetch calls ≤ 3)%nat
  ∧ count is_dispatch calls = 1%nat
  ∧ timeouts calls = take (count is_fetch calls - 1) delays
  ∧ processed_events files' = processed_events files
  ∧ data_dir files' = data_dir files
  ∧ match fetch_result (sendgrid 0%nat), fetch_result (sendgrid 1%nat),
          fetch_result (sendgrid 2%nat) with
    | Throw _, Throw _, Throw e =>
        count is_fetch calls = 3%nat
        ∧ count is_failure_record calls = 1%nat
        ∧ if data_dir files
          then r = Ok tt
               ∧ failed_emails files' =
                   failed_emails files ++
                     [{| fe_email := to; fe_product_name := productName;
                         fe_error := error_text e; fe_timestamp := clock |}]
          else r = Throw (ENOENT "failed_emails.json") ∧ files' = files
    | _, _, _ =>
        r = Ok tt
        ∧ failed_emails files' = failed_emails files
        ∧ count is_failure_record calls = 0%nat
    end.
Proof.
  rewrite send_or_record_eq.
  destruct (fetch_result (sendgrid 0%nat)) as [[]|e0];
    [|destruct (fetch_result (sendgrid 1%nat)) as [[]|e1];
      [|destruct (fetch_result (sendgrid 2%nat)) as [[]|e2]]];
    cbn zeta; try destruct (data_dir files) eqn:Hdir; cbn; repeat split; (lia || done).
Qed.

(** ** Webhook processor *)

Section Webhook.
Variable catalog : Catalog.
Variable stripe : Stripe.
Variable sendgrid : nat → FetchOutcome.
Variable clock : Z.
Variable STRIPE_WEBHOOK_SECRET : option string.

(** [handleCheckoutCompleted], run. *)
Lemma handleCheckoutCompleted_eq session files :
  handleCheckoutCompleted catalog stripe sendgrid clock session files =
    let fetched b := ListLineItems (session_id session) b in
    match listLineItems stripe (session_id session) with
    | Throw e => (Throw e, files, [fetched false])
    | Ok lineItems =>
        let customerEmail :=
          Js.or (customer_details_email session) (customer_email session) in
        let ids := purchasedPriceIds lineItems in
        let acc := fold_left (purchased_step catalog) ids (None, []) in
        if negb (Js.truthy customerEmail) then (Ok tt, files, [fetched true])
        else if negb (Js.truthy acc.1) || (length acc.2 =? 0)%nat
        then (Ok tt, files, fetched true :: (CatalogLookup <$> ids))
        else
          let content :=
            {| ec_productName := default "" acc.1;
               ec_meetingKeys := merge_sort String.le (set_add "F" acc.2) |} in
          let '(r, files', calls) :=
            send_or_record sendgrid clock (default "" customerEmail)
              (default "" acc.1) content files in
          (r, files', fetched true :: (CatalogLookup <$> ids) ++ LoadZoomMeetings :: calls)
    end.
Proof.
  unfold handleCheckoutCompleted, bind at 1, call.
  destruct (listLineItems stripe (session_id session)) as [lineItems|e]; simpl; [|done].
  destruct (negb (Js.truthy _)); simpl; [done|].
  unfold bind at 1, tell.
  destruct (fold_left _ _ _) as [productName meetingKeys]; simpl.
  destruct (negb (Js.truthy productName) || _); simpl.
  - by rewrite app_nil_r.
  - unfold bind, tell. by destruct (send_or_record _ _ _ _ _ _) as [[r files'] calls].
Qed.

(** [stripe_webhook], run. *)
Lemma stripe_webhook_eq req files :
  stripe_webhook catalog stripe sendgrid clock STRIPE_WEBHOOK_SECRET req files =
    match constructEvent stripe (req_body req) (stripe_signature req)
            STRIPE_WEBHOOK_SECRET with
    | Throw err =>
        (Ok {| status := 400;
               body := WebhookText ("Webhook Error: " +:+ err_message err) |},
         files, [ConstructEvent false])
    | Ok event =>
        if bool_decide (event_id event ∈ processed_events files)
        then (Ok {| status := 200; body := ReceivedAlreadyProcessed |}, files,
              [ConstructEvent true; LoadProcessedEvents])
        else
          let '(r, files1, calls) :=
            if String.eqb (event_type event) "checkout.session.completed"
            then handleCheckoutCompleted catalog stripe sendgrid clock
                   (event_object event) files
            else (Ok tt, files, []) in
          match r with
          | Ok _ =>
              (Ok {| status := 200; body := Received |},
               {| data_dir := true;
                  processed_events := {[event_id event]} ∪ processed_events files1;
                  failed_emails := failed_emails files1 |},
               [ConstructEvent true; LoadProcessedEvents] ++ calls ++
                 [LoadProcessedEvents; SaveProcessedEvent (event_id event)])
          | Throw _ =>
              (Ok {| status := 500; body := WebhookText "Webhook handler error" |},
               files1, [ConstructEvent true; LoadProcessedEvents] ++ calls)
          end
    end.
Proof.
  unfold stripe_webhook, loadProcessedEvents, saveProcessedEvent, loadProcessedEvents,
    bind at 1, try_catch at 1, bind at 1, call.
  destruct (constructEvent _ _ _ _) as [event|err]; simpl; [|done].
  unfold bind at 1, bind at 1, tell, get, ret. simpl.
  destruct (bool_decide _); simpl; [done|].
  unfold try_catch, bind at 1.
  destruct (String.eqb _ _).
  - destruct (handleCheckoutCompleted _ _ _ _ _ _) as [[[[]|e] files1] calls];
      simpl; [|by rewrite app_nil_r].
    unfold bind, modify, ret. simpl. done.
  - unfold bind, modify, ret. simpl. done.
Qed.

End Webhook.

(** ** Sets of session keys *)

(** Case analysis on membership in a list written out, and membership of a
    literal in such a list. *)
Ltac elem_cases H :=
  repeat (apply elem_of_cons in H as [->|H]); try (by apply elem_of_nil in H).
Ltac elem_lit := by repeat constructor.

Lemma elem_of_set_add x k (s : list string) : x ∈ set_add k s ↔ x = k ∨ x ∈ s.
Proof.
  unfold set_add. case_bool_decide as Hk.
  - split; [by right|]. by intros [->|?].
  - rewrite elem_of_app, list_elem_of_singleton. tauto.
Qed.

Lemma NoDup_set_add k (s : list string) : NoDup s → NoDup (set_add k s).
Proof.
  intros Hs. unfold set_add. case_bool_decide as Hk; [done|].
  apply NoDup_app. split_and!; [done| |apply NoDup_singleton].
  intros x Hx ->%list_elem_of_singleton. done.
Qed.

Lemma elem_of_set_add_all x keys : ∀ s : list string,
  x ∈ set_add_all keys s ↔ x ∈ keys ∨ x ∈ s.
Proof.
  unfold set_add_all. induction keys as [|k keys IH]; intros s; simpl.
  - rewrite elem_of_nil. tauto.
  - rewrite IH, elem_of_set_add, elem_of_cons. tauto.
Qed.

Lemma NoDup_set_add_all keys : ∀ s : list string, NoDup s → NoDup (set_add_all keys s).
Proof.
  unfold set_add_all. induction keys as [|k keys IH]; intros s Hs; simpl; [done|].
  by apply IH, NoDup_set_add.
Qed.

(** The default [Array.prototype.sort] of a duplicate-free array is determined
    by the elements. *)
Lemma sort_unique (l sorted : list string) :
  NoDup l → NoDup sorted → StronglySorted String.le sorted →
  (∀ x, x ∈ l ↔ x ∈ sorted) →
  merge_sort String.le l = sorted.
Proof.
  intros Hl Hs Hsorted Hel.
  apply (StronglySorted_unique String.le).
  - apply StronglySorted_merge_sort; apply _.
  - done.
  - rewrite merge_sort_Permutation. by apply NoDup_Permutation.
Qed.

Section PurchasedKeys.
Variable catalog : Catalog.

Lemma purchased_keys_elem x ids : ∀ acc,
  x ∈ (fold_left (purchased_step catalog) ids acc).2 ↔
    x ∈ acc.2 ∨ ∃ p keys, p ∈ ids ∧ ZOOM_LINK_MAP catalog !! p = Some keys ∧ x ∈ keys.
Proof.
  induction ids as [|p ids IH]; intros acc; simpl.
  - split; [by left|]. intros [?|(p & keys & Hp & _)]; [done|].
    by apply elem_of_nil in Hp.
  - rewrite IH. unfold purchased_step. simpl. split.
    + intros [Hx|(q & keys & Hq & Hm & Hk)].
      * destruct (ZOOM_LINK_MAP catalog !! p) as [keys|] eqn:Hp; [|by left].
        apply elem_of_set_add_all in Hx as [Hx|Hx]; [|by left].
        right. exists p, keys. split_and!; [left|done|done].
      * right. exists q, keys. split_and!; [by right|done|done].
    + intros [Hx|(q & keys & Hq & Hm & Hk)].
      * left. destruct (ZOOM_LINK_MAP catalog !! p); [|done].
        apply elem_of_set_add_all. by right.
      * apply elem_of_cons in Hq as [->|Hq].
        -- left. rewrite Hm. apply elem_of_set_add_all. by left.
        -- right. by exists q, keys.
Qed.

Lemma purchased_keys_NoDup ids : ∀ acc,
  NoDup acc.2 → NoDup (fold_left (purchased_step catalog) ids acc).2.
Proof.
  induction ids as [|p ids IH]; intros acc Hacc; simpl; [done|].
  apply IH. unfold purchased_step. simpl.
  destruct (ZOOM_LINK_MAP catalog !! p); [|done]. by apply NoDup_set_add_all.
Qed.

(** [productName] ends up truthy as soon as it is truthy at some point. *)
Lemma purchased_name_truthy ids : ∀ acc,
  Js.truthy acc.1 = true ∨
    (∃ p, p ∈ ids ∧ Js.truthy (PRODUCT_NAME_MAP catalog !! p) = true) →
  Js.truthy (fold_left (purchased_step catalog) ids acc).1 = true.
Proof.
  induction ids as [|p ids IH]; intros acc Hacc; simpl.
  - destruct Hacc as [?|(p & Hp & _)]; [done|]. by apply elem_of_nil in Hp.
  - apply IH. unfold purchased_step. simpl.
    destruct (Js.truthy (PRODUCT_NAME_MAP catalog !! p)) eqn:Hn; [by left|].
    destruct Hacc as [?|(q & Hq & Hname)]; [by left|].
    apply elem_of_cons in Hq as [->|Hq]; [congruence|].
    right. by exists q.
Qed.

(** Nothing is collected from identifiers the catalog does not know. *)
Lemma purchased_unmapped ids :
  Forall (λ p, PRODUCT_NAME_MAP catalog !! p = None
               ∧ ZOOM_LINK_MAP catalog !! p = None) ids →
  fold_left (purchased_step catalog) ids (None, []) = (None, []).
Proof.
  induction 1 as [|p ids [Hn Hz] _ IH]; simpl; [done|].
  replace (purchased_step catalog (None, []) p) with (@None string, @nil string);
    [done|].
  unfold purchased_step. simpl. by rewrite Hn, Hz.
Qed.

End PurchasedKeys.

Lemma count_lookups p (ids : list string) :
  (∀ id, p (CatalogLookup id) = false) → count p (CatalogLookup <$> ids) = 0%nat.
Proof.
  intros Hp. apply count_none, Forall_fmap, Forall_forall. intros id _. apply Hp.
Qed.

Lemma notified_keys_lookups (ids : list string) :
  notified_keys (CatalogLookup <$> ids) = [].
Proof. induction ids as [|id ids IH]; [done|]. exact IH. Qed.

Lemma send_or_record_calls sendgrid clock to productName content files :
  let '(r, files', calls) := send_or_record sendgrid clock to productName content files in
  count is_dispatch calls = 1%nat
  ∧ (count is_failure_record calls ≤ 1)%nat
  ∧ processed_events files' = processed_events files
  ∧ (is_ok r = false → files' = files ∧ data_dir files = false)
  ∧ notified_keys calls = [ec_meetingKeys content].
Proof.
  rewrite send_or_record_eq.
  destruct (fetch_result (sendgrid 0%nat)) as [[]|e0];
    [|destruct (fetch_result (sendgrid 1%nat)) as [[]|e1];
      [|destruct (fetch_result (sendgrid 2%nat)) as [[]|e2]]];
    cbn zeta; try destruct (data_dir files) eqn:Hdir; cbn;
    repeat split; (lia || done).
Qed.

Section WebhookFacts.
Variable catalog : Catalog.
Variable stripe : Stripe.
Variable sendgrid : nat → FetchOutcome.
Variable clock : Z.

Lemma handleCheckoutCompleted_calls session files :
  let '(r, files', calls) :=
    handleCheckoutCompleted catalog stripe sendgrid clock session files in
  (count is_dispatch calls ≤ 1)%nat
  ∧ (count is_failure_record calls ≤ count is_dispatch calls)%nat
  ∧ processed_events files' = processed_events files
  ∧ (is_ok r = false →
     files' = files ∧ (count is_dispatch calls = 0%nat ∨ data_dir files = false))
  ∧ Forall (λ keys, "F" ∈ keys) (notified_keys calls).
Proof.
  rewrite handleCheckoutCompleted_eq.
  destruct (listLineItems stripe (session_id session)) as [lineItems|e]; cbn zeta.
  2: { cbn. split_and!; [lia|lia|done|intros _; split; [done|by left]|constructor]. }
  destruct (negb (Js.truthy _)).
  { cbn. split_and!; [lia|lia|done|discriminate|constructor]. }
  destruct (negb _ || _).
  { rewrite !count_cons, !count_lookups by done. cbn [is_dispatch is_failure_record].
    change (notified_keys (?c :: ?l)) with (notified_keys l).
    rewrite notified_keys_lookups.
    split_and!; [lia|lia|done|discriminate|constructor]. }
  match goal with
  | |- context [send_or_record ?s ?c ?t ?n ?k ?f] =>
      pose proof (send_or_record_calls s c t n k f) as Hsend;
      destruct (send_or_record s c t n k f) as [[r files'] calls]
  end.
  destruct Hsend as (Hd & Hf & Hp & Hthrow & Hk).
  rewrite !count_cons, !count_app, !count_cons, !count_lookups by done.
  cbn [is_dispatch is_failure_record].
  change (notified_keys (?c :: ?l ++ ?d :: calls)) with (notified_keys (l ++ d :: calls)).
  rewrite notified_keys_app, notified_keys_lookups.
  change (notified_keys (LoadZoomMeetings :: calls)) with (notified_keys calls).
  rewrite Hk. cbn [ec_meetingKeys app].
  split_and!; [lia|lia|done| |].
  - intros Hr. destruct (Hthrow Hr) as [-> Hdir]. split; [done|by right].
  - apply Forall_singleton.
    rewrite merge_sort_Permutation. apply elem_of_set_add. by left.
Qed.

End WebhookFacts.

(** The names the catalog has for the purchased identifiers, in order. *)
Lemma purchased_name_last catalog ids : ∀ acc,
  (fold_left (purchased_step catalog) ids acc).1 =
    match last (omap (λ p, let name := PRODUCT_NAME_MAP catalog !! p in
                           if Js.truthy name then name else None) ids) with
    | Some name => Some name
    | None => acc.1
    end.
Proof.
  induction ids as [|p ids IH]; intros acc; simpl; [done|].
  rewrite IH. unfold purchased_step. cbn [fst].
  destruct (PRODUCT_NAME_MAP catalog !! p) as [name|] eqn:Hname;
    [destruct (Js.truthy (Some name)) eqn:Hp|].
  - rewrite last_cons. by destruct (last _).
  - by destruct (last _).
  - simpl. by destruct (last _).
Qed.

Lemma purchased_name_truthy_iff catalog ids :
  Js.truthy (fold_left (purchased_step catalog) ids (None, [])).1 = true ↔
  ∃ p, p ∈ ids ∧ Js.truthy (PRODUCT_NAME_MAP catalog !! p) = true.
Proof.
  split; [|intros H; apply purchased_name_truthy; by right].
  rewrite purchased_name_last.
  destruct (last _) as [name|] eqn:Hlast; [|done].
  intros Htruthy. apply last_Some_elem_of, list_elem_of_omap in Hlast
    as (p & Hp & Hname). exists p. split; [done|].
  simpl in Hname. by destruct (Js.truthy (PRODUCT_NAME_MAP catalog !! p)).
Qed.

Lemma purchased_keys_nonempty catalog ids :
  (fold_left (purchased_step catalog) ids (None, [])).2 ≠ [] ↔
  ∃ p keys, p ∈ ids ∧ ZOOM_LINK_MAP catalog !! p = Some keys ∧ keys ≠ [].
Proof.
  split.
  - destruct (fold_left _ _ _).2 as [|k l] eqn:E; [done|]. intros _.
    assert (Hk : k ∈ (fold_left (purchased_step catalog) ids (None, [])).2)
      by (rewrite E; left).
    apply purchased_keys_elem in Hk as [Hk|(p & keys & Hp & Hm & Hk)].
    + by apply elem_of_nil in Hk.
    + exists p, keys. split_and!; [done|done|]. intros ->. by apply elem_of_nil in Hk.
  - intros (p & [|k keys] & Hp & Hm & Hne); [done|]. intros Hnil.
    apply (elem_of_nil k). rewrite <- Hnil. apply purchased_keys_elem.
    right. exists p, (k :: keys). split_and!; [done|done|left].
Qed.

Lemma length_zero_iff {A} (l : list A) : (length l =? 0)%nat = true ↔ l = [].
Proof. by destruct l. Qed.

Lemma send_or_record_shape sendgrid clock to productName content files :
  ∃ r files' rest added,
    send_or_record sendgrid clock to productName content files
      = (r, files', SendEmailWithRetry to email_subject content :: rest)
    ∧ Forall (λ c, is_dispatch c = false ∧ is_store_or_catalog c = false) rest
    ∧ processed_events files' = processed_events files
    ∧ data_dir files' = data_dir files
    ∧ failed_emails files' = failed_emails files ++ added
    ∧ (count is_failure_record rest ≤ 1)%nat
    ∧ (if data_dir files
       then r = Ok tt ∧ length added = count is_failure_record rest
       else added = [])
    ∧ (is_ok r = false → files' = files)
    ∧ (is_ok r = true → length added = count is_failure_record rest).
Proof.
  rewrite send_or_record_eq.
  destruct (fetch_result (sendgrid 0%nat)) as [[]|e0];
    [|destruct (fetch_result (sendgrid 1%nat)) as [[]|e1];
      [|destruct (fetch_result (sendgrid 2%nat)) as [[]|e2]]].
  1-3: eexists _, _, _, []; rewrite app_nil_r; split_and!; [done|..];
       try done; try (by repeat constructor); try (simpl; lia);
       by destruct (data_dir files).
  cbn zeta. destruct (data_dir files) eqn:Hdir.
  - eexists _, _, _, [_]. split_and!; [done|..];
      try done; try (by repeat constructor); simpl; lia.
  - eexists _, _, _, []. rewrite app_nil_r. split_and!; [done|..];
      try done; try (by repeat constructor); simpl; lia.
Qed.

(** A call of another kind is not in a list of calls written out. *)
Ltac absent_call H :=
  repeat (apply elem_of_cons in H as [H|H]; [discriminate|]);
  by apply elem_of_nil in H.

(** Where a notification comes from, if there is one in the log. *)
Lemma handleCheckoutCompleted_dispatch catalog stripe sendgrid clock session files
    to subject content :
  SendEmailWithRetry to subject content
    ∈ (handleCheckoutCompleted catalog stripe sendgrid clock session files).2 →
  ∃ lineItems,
    let email := Js.or (customer_details_email session) (customer_email session) in
    let acc := fold_left (purchased_step catalog) (purchasedPriceIds lineItems)
                 (None, []) in
    listLineItems stripe (session_id session) = Ok lineItems
    ∧ Js.truthy email = true
    ∧ Js.truthy acc.1 = true
    ∧ acc.2 ≠ []
    ∧ to = default "" email
    ∧ subject = email_subject
    ∧ content = {| ec_productName := default "" acc.1;
                   ec_meetingKeys := merge_sort String.le (set_add "F" acc.2) |}.
Proof.
  rewrite handleCheckoutCompleted_eq.
  destruct (listLineItems stripe (session_id session)) as [lineItems|e]; cbn zeta.
  2: { intros Hin. cbn in Hin. absent_call Hin. }
  destruct (Js.truthy (Js.or _ _)) eqn:Hemail; cbn [negb].
  2: { intros Hin. cbn in Hin. absent_call Hin. }
  destruct (Js.truthy (fold_left _ _ _).1) eqn:Hname; cbn [negb orb].
  2: { intros Hin. cbn [snd] in Hin. apply elem_of_cons in Hin as [Hin|Hin]; [done|].
       apply list_elem_of_fmap in Hin as (id & ? & _). done. }
  destruct (length _ =? 0)%nat eqn:Hlen.
  { intros Hin. cbn [snd] in Hin. apply elem_of_cons in Hin as [Hin|Hin]; [done|].
    apply list_elem_of_fmap in Hin as (id & ? & _). done. }
  match goal with
  | |- context [send_or_record ?s ?c ?t ?n ?k ?f] =>
      destruct (send_or_record_shape s c t n k f)
        as (r & files' & rest & added & -> & Hrest & _)
  end.
  cbn [snd]. intros Hin. exists lineItems. cbn zeta.
  assert (Hne : (fold_left (purchased_step catalog) (purchasedPriceIds lineItems)
                   (None, [])).2 ≠ []).
  { intros Hnil. by rewrite Hnil in Hlen. }
  apply elem_of_cons in Hin as [Hin|Hin]; [done|].
  apply elem_of_app in Hin as [Hin|Hin].
  { apply list_elem_of_fmap in Hin as (id & ? & _). done. }
  apply elem_of_cons in Hin as [Hin|Hin]; [done|].
  apply elem_of_cons in Hin as [Hin|Hin].
  - injection Hin as -> -> ->. by split_and!.
  - rewrite Forall_forall in Hrest. by destruct (Hrest _ Hin) as [? _].
Qed.

(** When a notification is started. *)
Lemma handleCheckoutCompleted_notifies catalog stripe sendgrid clock session files :
  count is_dispatch (handleCheckoutCompleted catalog stripe sendgrid clock session files).2
    = 1%nat ↔
  ∃ lineItems,
    listLineItems stripe (session_id session) = Ok lineItems
    ∧ Js.truthy (Js.or (customer_details_email session)
                       (customer_email session)) = true
    ∧ (∃ p, p ∈ purchasedPriceIds lineItems
            ∧ Js.truthy (PRODUCT_NAME_MAP catalog !! p) = true)
    ∧ (∃ p keys, p ∈ purchasedPriceIds lineItems
                 ∧ ZOOM_LINK_MAP catalog !! p = Some keys ∧ keys ≠ []).
Proof.
  rewrite handleCheckoutCompleted_eq.
  destruct (listLineItems stripe (session_id session)) as [lineItems|e]; cbn zeta.
  2: { cbn. split; [lia|]. by intros (? & ? & _). }
  destruct (Js.truthy (Js.or _ _)) eqn:Hemail; cbn [negb].
  2: { cbn. split; [lia|]. intros (? & [= <-] & ? & _). congruence. }
  destruct (Js.truthy (fold_left _ _ _).1) eqn:Hname; cbn [negb orb].
  2: { cbn [snd]. rewrite count_cons, count_lookups by done. cbn. split; [lia|].
       intros (? & [= <-] & _ & Hex & _).
       apply purchased_name_truthy_iff in Hex. congruence. }
  destruct (length _ =? 0)%nat eqn:Hlen.
  { cbn [snd]. rewrite count_cons, count_lookups by done. cbn. split; [lia|].
    intros (? & [= <-] & _ & _ & Hex).
    apply purchased_keys_nonempty in Hex. apply length_zero_iff in Hlen. done. }
  match goal with
  | |- context [send_or_record ?s ?c ?t ?n ?k ?f] =>
      destruct (send_or_record_shape s c t n k f)
        as (r & files' & rest & added & -> & Hrest & _)
  end.
  cbn [snd]. rewrite count_cons, count_app, count_lookups, !count_cons by done.
  rewrite count_none by (eapply Forall_impl; [exact Hrest|]; by intros c [? _]).
  cbn. split; [intros _|done].
  exists lineItems. split_and!; [done|done|by apply purchased_name_truthy_iff|].
  apply purchased_keys_nonempty. intros Hnil. by rewrite Hnil in Hlen.
Qed.

(** What [handleCheckoutCompleted] does to the files. *)
Lemma handleCheckoutCompleted_files catalog stripe sendgrid clock session files :
  let '(r, files', calls) :=
    handleCheckoutCompleted catalog stripe sendgrid clock session files in
  ∃ added,
    processed_events files' = processed_events files
    ∧ data_dir files' = data_dir files
    ∧ failed_emails files' = failed_emails files ++ added
    ∧ (count is_failure_record calls ≤ 1)%nat
    ∧ (if data_dir files then length added = count is_failure_record calls
       else added = [])
    ∧ (is_ok r = true → length added = count is_failure_record calls).
Proof.
  rewrite handleCheckoutCompleted_eq.
  destruct (listLineItems stripe (session_id session)) as [lineItems|e]; cbn zeta.
  2: { exists []. rewrite app_nil_r. cbn.
       split_and!; [done|done|done|lia|by destruct (data_dir files)|done]. }
  destruct (negb (Js.truthy _)).
  { exists []. rewrite app_nil_r. cbn.
    split_and!; [done|done|done|lia|by destruct (data_dir files)|done]. }
  destruct (negb _ || _).
  { exists []. rewrite app_nil_r, count_cons, count_lookups by done. cbn.
    split_and!; [done|done|done|lia|by destruct (data_dir files)|done]. }
  match goal with
  | |- context [send_or_record ?s ?c ?t ?n ?k ?f] =>
      destruct (send_or_record_shape s c t n k f)
        as (r & files' & rest & added & -> & _ & Hp & Hd & Hf & Hle & Hdir & _ & Hok)
  end.
  exists added. rewrite count_cons, count_app, count_lookups, !count_cons by done.
  cbn. split_and!; [done|done|done|done| |done].
  destruct (data_dir files); [by destruct Hdir|done].
Qed.

(** C8. A request whose signature check throws (invalid or missing
    [stripe-signature] header) is answered with status 400 and the error
    text; the data files are unchanged and the only call made is the
    signature check itself: the idempotency file is neither read nor written
    and the catalog is not looked up. *)
Theorem signature_rejected_first (catalog : Catalog) (stripe : Stripe)
    (sendgrid : nat → FetchOutcome) (clock : Z) (secret : option string)
    (req : WebhookRequest) (files : Files) (err : JsError) :
  constructEvent stripe (req_body req) (stripe_signature req) secret = Throw err →
  let '(r, files', calls) :=
    stripe_webhook catalog stripe sendgrid clock secret req files in
  r = Ok {| status := 400;
            body := WebhookText ("Webhook Error: " +:+ err_message err) |}
  ∧ files' = files
  ∧ calls = [ConstructEvent false]
  ∧ count is_store_or_catalog calls = 0%nat
  ∧ count is_dispatch calls = 0%nat.
Proof.
  intros Hsig. rewrite stripe_webhook_eq, Hsig. by repeat split.
Qed.

Lemma committed_in_store (eventId : string) (processed : gset string) dir failed :
  eventId ∈ processed_events
    {| data_dir := dir; processed_events := {[eventId]} ∪ processed;
       failed_emails := failed |}.
Proof. simpl. apply elem_of_union_l, elem_of_singleton. done. Qed.

(** The idempotency file only grows. *)
Lemma stripe_webhook_store_grows catalog stripe sendgrid clock secret req files :
  processed_events files ⊆
    processed_events (stripe_webhook catalog stripe sendgrid clock secret req files).1.2.
Proof.
  rewrite stripe_webhook_eq.
  destruct (constructEvent _ _ _ _) as [event|err]; [|done].
  case_bool_decide; [done|].
  destruct (String.eqb _ _).
  - pose proof (handleCheckoutCompleted_calls catalog stripe sendgrid clock
                  (event_object event) files) as Hcalls.
    destruct (handleCheckoutCompleted _ _ _ _ _ _) as [[[[]|e] files1] calls];
      destruct Hcalls as (_ & _ & Hp & _); simpl; rewrite Hp;
      [apply union_subseteq_r|done].
  - simpl. apply union_subseteq_r.
Qed.

(** What the [switch] on [event.type] does. *)
Lemma webhook_action_calls catalog stripe sendgrid clock event files :
  let '(r, files', calls) :=
    if String.eqb (event_type event) "checkout.session.completed"
    then handleCheckoutCompleted catalog stripe sendgrid clock (event_object event) files
    else (Ok tt, files, []) in
  (count is_dispatch calls ≤ 1)%nat
  ∧ (count is_failure_record calls ≤ count is_dispatch calls)%nat
  ∧ (is_ok r = false → files' = files).
Proof.
  destruct (String.eqb _ _).
  - pose proof (handleCheckoutCompleted_calls catalog stripe sendgrid clock
                  (event_object event) files) as Hc.
    destruct (handleCheckoutCompleted _ _ _ _ _ _) as [[r f] calls]. tauto.
  - cbn. split_and!; [lia|lia|discriminate].
Qed.

(** C2, as the code has it. The same verified event [event] delivered
    twice, whatever Stripe and SendGrid answer at each delivery. When the
    first delivery was handled (status 200), the event identifier is in the
    idempotency file afterwards and the second delivery answers
    [already_processed], changes no file and calls nothing but the signature
    check and the read of the idempotency file. Together the two deliveries
    then start at most one notification and record at most one failure for
    it, which is then in the file of failed e-mails; they start exactly one
    notification when the event was new, is a purchase-completed
    event whose line items could be fetched, has a buyer e-mail, and some
    purchased identifier has a product name and some a registration link, and
    none otherwise. Any delivery made when the identifier is in the file is
    answered [already_processed] in the same way. *)
Theorem redelivery_idempotent (catalog : Catalog) (stripe1 stripe2 : Stripe)
    (sendgrid1 sendgrid2 : nat → FetchOutcome) (clock1 clock2 : Z)
    (secret : option string) (req : WebhookRequest) (event : StripeEvent)
    (files : Files) :
  constructEvent stripe1 (req_body req) (stripe_signature req) secret = Ok event →
  constructEvent stripe2 (req_body req) (stripe_signature req) secret = Ok event →
  let '(r1, files1, calls1) :=
    stripe_webhook catalog stripe1 sendgrid1 clock1 secret req files in
  let '(r2, files2, calls2) :=
    stripe_webhook catalog stripe2 sendgrid2 clock2 secret req files1 in
  (∀ response, r1 = Ok response → status response = 200 →
     event_id event ∈ processed_events files1
     ∧ r2 = Ok {| status := 200; body := ReceivedAlreadyProcessed |}
     ∧ files2 = files1
     ∧ calls2 = [ConstructEvent true; LoadProcessedEvents]
     ∧ (count is_dispatch (calls1 ++ calls2) ≤ 1)%nat
     ∧ (count is_failure_record (calls1 ++ calls2)
        ≤ count is_dispatch (calls1 ++ calls2))%nat
     ∧ (∃ added, failed_emails files2 = failed_emails files ++ added
                 ∧ length added = count is_failure_record (calls1 ++ calls2))
     ∧ (count is_dispatch (calls1 ++ calls2) = 1%nat ↔
        (event_id event ∉ processed_events files)
        ∧ event_type event = "checkout.session.completed"
        ∧ ∃ lineItems,
            listLineItems stripe1 (session_id (event_object event)) = Ok lineItems
            ∧ Js.truthy (Js.or (customer_details_email (event_object event))
                               (customer_email (event_object event))) = true
            ∧ (∃ p, p ∈ purchasedPriceIds lineItems
                    ∧ Js.truthy (PRODUCT_NAME_MAP catalog !! p) = true)
            ∧ (∃ p keys, p ∈ purchasedPriceIds lineItems
                         ∧ ZOOM_LINK_MAP catalog !! p = Some keys ∧ keys ≠ [])))
  ∧ (∀ files0, event_id event ∈ processed_events files0 →
       stripe_webhook catalog stripe2 sendgrid2 clock2 secret req files0 =
         (Ok {| status := 200; body := ReceivedAlreadyProcessed |}, files0,
          [ConstructEvent true; LoadProcessedEvents])).
Proof.
  intros H1 H2.
  assert (Hagain : ∀ files0, event_id event ∈ processed_events files0 →
            stripe_webhook catalog stripe2 sendgrid2 clock2 secret req files0 =
              (Ok {| status := 200; body := ReceivedAlreadyProcessed |}, files0,
               [ConstructEvent true; LoadProcessedEvents])).
  { intros files0 Hin. rewrite stripe_webhook_eq, H2. by rewrite bool_decide_true. }
  rewrite (stripe_webhook_eq _ stripe1), H1.
  case_bool_decide as Hin.
  { rewrite (Hagain _ Hin). split; [|done]. intros response _ _. count_simpl.
    split_and!; [done|done|done|done|lia|lia|exists []; by rewrite app_nil_r|].
    split; [lia|]. by intros [? _]. }
  pose proof (handleCheckoutCompleted_calls catalog stripe1 sendgrid1 clock1
                (event_object event) files) as Hcalls.
  pose proof (handleCheckoutCompleted_files catalog stripe1 sendgrid1 clock1
                (event_object event) files) as Hfiles.
  pose proof (handleCheckoutCompleted_notifies catalog stripe1 sendgrid1 clock1
                (event_object event) files) as Hnotifies.
  destruct (String.eqb (event_type event) "checkout.session.completed") eqn:Htype.
  - apply String.eqb_eq in Htype.
    destruct (handleCheckoutCompleted _ _ _ _ _ _) as [[[[]|e] f] calls];
      destruct Hcalls as (Hd & Hf & _); cbn [snd] in Hnotifies;
      destruct Hfiles as (added & _ & _ & Hadded & _ & _ & Hlen).
    + rewrite Hagain by apply committed_in_store.
      split; [|done]. intros response _ _. count_simpl.
      rewrite !Nat.add_0_r, Hnotifies.
      split_and!; [apply committed_in_store|done|done|done|lia|lia| |tauto].
      exists added. split; [done|]. by apply Hlen.
    + destruct (stripe_webhook catalog stripe2 _ _ _ _ _) as [[r2 files2] calls2].
      split; [|done]. intros response [= <-]. discriminate.
  - apply String.eqb_neq in Htype. rewrite Hagain by apply committed_in_store.
    split; [|done]. intros response _ _. count_simpl.
    split_and!; [apply committed_in_store|done|done|done|lia|lia| |].
    + exists []. by rewrite app_nil_r.
    + split; [lia|]. by intros (_ & ? & _).
Qed.

(** C2, as stated, fails where nothing is to be sent: an event of another
    type delivered twice is answered with status 200 both times, and the two
    deliveries together start no notification and record no failure. *)
Lemma redelivery_without_notification :
  let '(r1, files1, calls1) :=
    stripe_webhook (catalog_of Sample.ids) Scenario.invoice_stripe Sample.accepted 0
      None Sample.signed Sample.no_files in
  let '(r2, files2, calls2) :=
    stripe_webhook (catalog_of Sample.ids) Scenario.invoice_stripe Sample.accepted 1
      None Sample.signed files1 in
  r1 = Ok {| status := 200; body := Received |}
  ∧ r2 = Ok {| status := 200; body := ReceivedAlreadyProcessed |}
  ∧ count is_dispatch (calls1 ++ calls2) = 0%nat
  ∧ count is_failure_record (calls1 ++ calls2) = 0%nat
  ∧ ¬ (count is_dispatch (calls1 ++ calls2) = 1%nat
       ∨ count is_failure_record (calls1 ++ calls2) = 1%nat).
Proof. vm_compute. split_and!; [done|done|done|done|]. by intros [|]. Qed.

(** C10. A verified purchase-completed event with a buyer e-mail whose
    purchased identifiers are all unknown to the catalog is answered with
    status 200: no notification is started, no transport attempt is made, no
    failure is recorded, and the event identifier is in the idempotency file
    afterwards; any later delivery of the event, made while the committed
    identifiers are still in the file, is answered [already_processed]
    without any further call. *)
Theorem unmapped_purchase_committed (catalog : Catalog) (stripe : Stripe)
    (sendgrid : nat → FetchOutcome) (clock : Z) (secret : option string)
    (req : WebhookRequest) (event : StripeEvent) (lineItems : list Item)
    (files : Files) :
  constructEvent stripe (req_body req) (stripe_signature req) secret = Ok event →
  event_type event = "checkout.session.completed" →
  listLineItems stripe (session_id (event_object event)) = Ok lineItems →
  Js.truthy (Js.or (customer_details_email (event_object event))
                   (customer_email (event_object event))) = true →
  Forall (λ p, PRODUCT_NAME_MAP catalog !! p = None
               ∧ ZOOM_LINK_MAP catalog !! p = None) (purchasedPriceIds lineItems) →
  let '(r, files1, calls) :=
    stripe_webhook catalog stripe sendgrid clock secret req files in
  (∃ body, r = Ok {| status := 200; body := body |})
  ∧ count is_dispatch calls = 0%nat
  ∧ count is_fetch calls = 0%nat
  ∧ count is_failure_record calls = 0%nat
  ∧ failed_emails files1 = failed_emails files
  ∧ processed_events files1 = {[event_id event]} ∪ processed_events files
  ∧ (∀ stripe' sendgrid' clock' req' files',
       constructEvent stripe' (req_body req') (stripe_signature req') secret = Ok event →
       processed_events files1 ⊆ processed_events files' →
       stripe_webhook catalog stripe' sendgrid' clock' secret req' files' =
         (Ok {| status := 200; body := ReceivedAlreadyProcessed |}, files',
          [ConstructEvent true; LoadProcessedEvents])).
Proof.
  intros Hsig Htype Hitems Hemail Hunmapped.
  assert (Hagain : ∀ processed stripe' sendgrid' clock' req' files',
            event_id event ∈ processed →
            constructEvent stripe' (req_body req') (stripe_signature req') secret
              = Ok event →
            processed ⊆ processed_events files' →
            stripe_webhook catalog stripe' sendgrid' clock' secret req' files' =
              (Ok {| status := 200; body := ReceivedAlreadyProcessed |}, files',
               [ConstructEvent true; LoadProcessedEvents])).
  { intros processed stripe' sendgrid' clock' req' files' Hin Hsig' Hsub.
    rewrite stripe_webhook_eq, Hsig', bool_decide_true; [done|]. by apply Hsub. }
  rewrite stripe_webhook_eq, Hsig. case_bool_decide as Hin.
  - split; [by eexists|]. count_simpl. repeat split; try done.
    + symmetry. apply subseteq_union_1_L, singleton_subseteq_l, Hin.
    + intros stripe' sendgrid' clock' req' files'. by apply Hagain.
  - rewrite Htype. simpl String.eqb.
    rewrite handleCheckoutCompleted_eq, Hitems. cbn zeta.
    rewrite Hemail, (purchased_unmapped _ _ Hunmapped). cbn [negb fst snd orb Js.truthy].
    split; [by eexists|]. count_simpl. rewrite !count_lookups by done.
    repeat split; try done.
    intros stripe' sendgrid' clock' req' files'. apply Hagain, committed_in_store.
Qed.

(** C7. Whatever the catalog maps the purchased identifiers to, every
    notification that [handleCheckoutCompleted] starts lists the key [F]. *)
Theorem shared_key_in_every_notification (catalog : Catalog) (stripe : Stripe)
    (sendgrid : nat → FetchOutcome) (clock : Z) (session : CheckoutSession)
    (files : Files) (to subject : string) (content : EmailContent) :
  SendEmailWithRetry to subject content
    ∈ (handleCheckoutCompleted catalog stripe sendgrid clock session files).2 →
  "F" ∈ ec_meetingKeys content.
Proof.
  intros Hcall.
  pose proof (handleCheckoutCompleted_calls catalog stripe sendgrid clock session files)
    as Hcalls.
  destruct (handleCheckoutCompleted _ _ _ _ _ _) as [[r files'] calls].
  destruct Hcalls as (_ & _ & _ & _ & Hkeys). simpl in Hcall.
  rewrite Forall_forall in Hkeys. apply Hkeys.
  unfold notified_keys. apply list_elem_of_omap.
  exists (SendEmailWithRetry to subject content). by split.
Qed.

(** Every price identifier with registration links has a non-empty product
    name: the two tables are written with the same keys. *)
Lemma catalog_of_named ids p keys :
  ZOOM_LINK_MAP (catalog_of ids) !! p = Some keys →
  Js.truthy (PRODUCT_NAME_MAP (catalog_of ids) !! p) = true.
Proof.
  unfold catalog_of, object_literal. simpl. rewrite !lookup_insert.
  repeat case_decide; done.
Qed.

Lemma sorted_C_D_F : StronglySorted String.le ["C"; "D"; "F"].
Proof. repeat constructor. Qed.

(** C6. With the catalog of the server, a purchase whose line items carry
    exactly two distinct mapped identifiers, one with registration links
    [C, F] and one with [D, F] (in any order, repeated or not), starts one
    notification, and its session keys are [C, D, F]. *)
Theorem catalog_union (ids : PriceIds) (stripe : Stripe)
    (sendgrid : nat → FetchOutcome) (clock : Z) (session : CheckoutSession)
    (lineItems : list Item) (files : Files) (p1 p2 : string) :
  ZOOM_LINK_MAP (catalog_of ids) !! p1 = Some ["C"; "F"] →
  ZOOM_LINK_MAP (catalog_of ids) !! p2 = Some ["D"; "F"] →
  listLineItems stripe (session_id session) = Ok lineItems →
  Js.truthy (Js.or (customer_details_email session) (customer_email session)) = true →
  p1 ∈ purchasedPriceIds lineItems →
  p2 ∈ purchasedPriceIds lineItems →
  (∀ p, p ∈ purchasedPriceIds lineItems → p = p1 ∨ p = p2) →
  notified_keys
    (handleCheckoutCompleted (catalog_of ids) stripe sendgrid clock session files).2
  = [["C"; "D"; "F"]].
Proof.
  intros Hp1 Hp2 Hitems Hemail Hin1 Hin2 Honly.
  rewrite handleCheckoutCompleted_eq, Hitems. cbn zeta. rewrite Hemail.
  set (acc := fold_left _ _ _).
  assert (Hname : Js.truthy acc.1 = true).
  { apply purchased_name_truthy. right. exists p1. split; [done|].
    by eapply catalog_of_named. }
  assert (Hel : ∀ x, x ∈ acc.2 ↔ x ∈ ["C"; "D"; "F"]).
  { intros x. unfold acc. rewrite purchased_keys_elem. cbn [fst snd]. split.
    - intros [Hx|(p & keys & Hp & Hm & Hx)]; [by apply elem_of_nil in Hx|].
      destruct (Honly p Hp) as [-> | ->]; simplify_eq; elem_cases Hx; elem_lit.
    - intros Hx. right. elem_cases Hx.
      + exists p1, ["C"; "F"]. split_and!; [done|done|elem_lit].
      + exists p2, ["D"; "F"]. split_and!; [done|done|elem_lit].
      + exists p1, ["C"; "F"]. split_and!; [done|done|elem_lit]. }
  assert (Hnodup : NoDup acc.2) by (apply purchased_keys_NoDup; constructor).
  assert (Hlen : (length acc.2 =? 0)%nat = false).
  { destruct acc.2 as [|k l] eqn:E; [|done].
    exfalso. apply (elem_of_nil "C"), Hel. left. }
  rewrite Hname, Hlen. cbn [negb orb].
  match goal with
  | |- context [send_or_record ?s ?c ?t ?n ?k ?f] =>
      pose proof (send_or_record_calls s c t n k f) as Hsend;
      destruct (send_or_record s c t n k f) as [[r files'] calls]
  end.
  destruct Hsend as (_ & _ & _ & _ & Hkeys). cbn [snd].
  change (notified_keys (?c :: ?l ++ ?d :: calls)) with (notified_keys (l ++ d :: calls)).
  rewrite notified_keys_app, notified_keys_lookups.
  change (notified_keys (LoadZoomMeetings :: calls)) with (notified_keys calls).
  rewrite Hkeys. cbn [ec_meetingKeys app]. f_equal.
  apply sort_unique.
  - by apply NoDup_set_add.
  - apply (bool_decide_unpack _). by vm_compute.
  - exact sorted_C_D_F.
  - intros x. rewrite elem_of_set_add, Hel. split.
    + intros [->|Hx]; [elem_lit|done].
    + by right.
Qed.

(** ** Entitlement resolver *)

Section Resolver.
Variable catalog : Catalog.
Variable stripe : Stripe.

Lemma subscription_items_loop_eq items l :
  purchasedSessionKeys l = [] →
  subscription_items_loop items l =
    (Ok tt, if has_circle_item items then grant_all l else l, []).
Proof.
  intros Hkeys. induction items as [|item items IH]; simpl; [done|].
  case_bool_decide; simpl; [|exact IH].
  unfold set_keys, modify, grant_all. by rewrite Hkeys.
Qed.

Lemma subscriptions_loop_eq subs l :
  purchasedSessionKeys l = [] →
  subscriptions_loop subs l =
    (Ok tt, if circle_member subs then grant_all l else l, []).
Proof.
  intros Hkeys. induction subs as [|sub subs IH]; simpl; [done|].
  unfold bind at 1. rewrite subscription_items_loop_eq by done.
  destruct (has_circle_item (sub_items sub)); simpl.
  - done.
  - unfold bind, keys_size, get, ret. simpl. rewrite Hkeys. simpl.
    rewrite IH. done.
Qed.

(** Channel 1 up to the first member of the circle. *)
Lemma subscription_customers_loop_found before member after subs : ∀ l,
  purchasedSessionKeys l = [] →
  Forall (λ c, ∃ subs, subscriptions_list stripe (customer_id c) = Ok subs
                       ∧ circle_member subs = false) before →
  subscriptions_list stripe (customer_id member) = Ok subs →
  circle_member subs = true →
  subscription_customers_loop stripe (before ++ member :: after) l =
    (Ok tt, grant_all l,
     (λ c, SubscriptionsList (customer_id c) true) <$> (before ++ [member])).
Proof.
  intros l Hkeys Hbefore Hsubs Hmember.
  induction Hbefore as [|c before (subs' & Hc & Hno) _ IH]; simpl.
  - unfold bind at 1, call. rewrite Hsubs. simpl.
    unfold bind at 1. rewrite subscriptions_loop_eq, Hmember by done. done.
  - unfold bind at 1, call. rewrite Hc. simpl.
    unfold bind at 1. rewrite subscriptions_loop_eq, Hno by done.
    unfold bind at 1, keys_size, bind, get, ret. simpl. rewrite Hkeys. simpl.
    rewrite IH. done.
Qed.

(** Channel 1 calls nothing but the subscription listing. *)
Lemma subscription_customers_loop_calls customers : ∀ l,
  purchasedSessionKeys l = [] →
  let '(_, _, calls) := subscription_customers_loop stripe customers l in
  Forall (λ c, is_stripe_lookup c = true ∧ is_checkout_lookup c = false) calls.
Proof.
  induction customers as [|c customers IH]; intros l Hkeys; simpl; [constructor|].
  unfold bind at 1, call.
  destruct (subscriptions_list stripe (customer_id c)) as [subs|e]; simpl.
  2: { by repeat constructor. }
  unfold bind at 1. rewrite subscriptions_loop_eq by done.
  destruct (circle_member subs); simpl.
  - by repeat constructor.
  - unfold bind at 1, keys_size, bind, get, ret. simpl. rewrite Hkeys. simpl.
    specialize (IH l Hkeys).
    destruct (subscription_customers_loop stripe customers l) as [[r l'] calls].
    by constructor.
Qed.

Lemma subscription_channel_calls email :
  ∃ l calls, subscription_channel stripe email new_locals = (Ok tt, l, calls)
    ∧ Forall (λ c, is_stripe_lookup c = true ∧ is_checkout_lookup c = false) calls.
Proof.
  unfold subscription_channel, try_catch, bind at 1, call.
  destruct (customers_list stripe email) as [customers|e]; simpl.
  2: { eexists _, _. split; [done|]. by repeat constructor. }
  unfold bind at 1, set_allCustomers, modify. simpl.
  match goal with
  | |- context [subscription_customers_loop stripe customers ?l] =>
      pose proof (subscription_customers_loop_calls customers l eq_refl) as Hcalls;
      destruct (subscription_customers_loop stripe customers l) as [[[[]|e] l'] calls]
  end; eexists _, _; (split; [done|]); rewrite ?app_nil_r; by constructor.
Qed.

End Resolver.

Lemma lookups_with_app ok1 ok2 calls1 calls2 :
  lookups_with ok1 calls1 → lookups_with ok2 calls2 →
  lookups_with (ok1 && ok2) (calls1 ++ calls2).
Proof.
  intros [H1 ->] [H2 ->]. split; [by apply Forall_app|].
  by rewrite existsb_app, negb_orb.
Qed.

Lemma lookups_with_nil : lookups_with true [].
Proof. by split. Qed.

Section PurchaseChannels.
Variable catalog : Catalog.
Variable stripe : Stripe.

Lemma session_line_items_calls session l :
  ∃ l' returned,
    session_line_items catalog stripe session l =
      (Ok tt, l', [ListLineItems (session_id session) returned]).
Proof.
  unfold session_line_items, try_catch, bind, call, set_keys, modify, ret.
  destruct (listLineItems stripe (session_id session)); simpl; by eexists _, _.
Qed.

Lemma sessions_loop_calls sessions : ∀ l,
  ∃ l' calls, sessions_loop catalog stripe sessions l = (Ok tt, l', calls)
    ∧ lookups_with true calls.
Proof.
  induction sessions as [|session sessions IH]; intros l; simpl.
  - eexists _, _. split; [done|]. apply lookups_with_nil.
  - unfold bind. destruct (payment_qualifies session).
    + destruct (session_line_items_calls session l) as (l1 & b & ->).
      destruct (IH l1) as (l2 & calls & -> & Hcalls).
      eexists _, _. split; [done|].
      apply (lookups_with_app true true [_]); [|done]. by split; [repeat constructor|].
    + unfold ret. destruct (IH l) as (l2 & calls & -> & Hcalls).
      eexists _, _. split; [done|]. done.
Qed.

Lemma guest_sessions_loop_calls email sessions : ∀ l,
  ∃ l' calls, guest_sessions_loop catalog stripe email sessions l = (Ok tt, l', calls)
    ∧ lookups_with true calls.
Proof.
  induction sessions as [|session sessions IH]; intros l; simpl.
  - eexists _, _. split; [done|]. apply lookups_with_nil.
  - unfold bind. destruct (negb _); [|destruct (payment_qualifies session)].
    + unfold ret. destruct (IH l) as (l2 & calls & -> & Hcalls).
      eexists _, _. split; [done|]. done.
    + destruct (session_line_items_calls session l) as (l1 & b & ->).
      destruct (IH l1) as (l2 & calls & -> & Hcalls).
      eexists _, _. split; [done|].
      apply (lookups_with_app true true [_]); [|done]. by split; [repeat constructor|].
    + unfold ret. destruct (IH l) as (l2 & calls & -> & Hcalls).
      eexists _, _. split; [done|]. done.
Qed.

Lemma purchase_customers_loop_calls customers : ∀ l,
  let '(r, _, calls) := purchase_customers_loop catalog stripe customers l in
  lookups_with (is_ok r) calls.
Proof.
  induction customers as [|c customers IH]; intros l; simpl.
  - apply lookups_with_nil.
  - unfold bind at 1, call.
    destruct (sessions_list stripe (Some (customer_id c))) as [sessions|e]; simpl.
    2: { split; [by repeat constructor|done]. }
    unfold bind at 1.
    destruct (sessions_loop_calls sessions l) as (l1 & calls1 & -> & Hcalls1).
    specialize (IH l1).
    destruct (purchase_customers_loop catalog stripe customers l1) as [[r l2] calls2].
    apply (lookups_with_app true (is_ok r) [_]).
    + by split; [repeat constructor|].
    + by apply (lookups_with_app true (is_ok r)).
Qed.

Lemma purchase_channels_calls email l :
  let '(r, _, calls) := purchase_channels catalog stripe email l in
  lookups_with (is_ok r) calls.
Proof.
  unfold purchase_channels, keys_size, bind at 1, bind at 1, get, ret. simpl.
  destruct (length (purchasedSessionKeys l) =? 0)%nat; [|apply lookups_with_nil].
  unfold bind at 1. simpl. unfold bind at 1.
  pose proof (purchase_customers_loop_calls (allCustomers l) l) as Hloop.
  destruct (purchase_customers_loop catalog stripe (allCustomers l) l)
    as [[[[]|e] l1] calls1]; simpl; [|done].
  unfold bind at 1. simpl.
  destruct (_ && _).
  - unfold bind at 1, call.
    destruct (sessions_list stripe None) as [recent|e]; simpl.
    + destruct (guest_sessions_loop_calls email recent l1) as (l2 & calls2 & -> & Hcalls2).
      apply (lookups_with_app true true); [done|].
      apply (lookups_with_app true true [_]); [|done]. by split; [repeat constructor|].
    + apply (lookups_with_app true false); [done|]. by split; [repeat constructor|].
  - unfold ret. by apply (lookups_with_app true true).
Qed.

Lemma entitlement_page_eq l :
  entitlement_page l =
    (Ok (if (length (purchasedSessionKeys l) =? 0)%nat
         then {| status := 200; body := ErrorPage PurchaseNotFound |}
         else {| status := 200;
                 body := VideoPage (filter (λ k, k ∈ purchasedSessionKeys l)
                                      ALL_SESSION_KEYS) |}), l, []).
Proof.
  unfold entitlement_page, bind, get, ret. simpl.
  by destruct (length (purchasedSessionKeys l) =? 0)%nat.
Qed.

(** The resolver always answers; the answer is the server-error page
    exactly when a checkout-session listing threw. *)
Lemma resolve_entitlement_calls email :
  ∃ response l calls,
    resolve_entitlement catalog stripe email new_locals = (Ok response, l, calls)
    ∧ Forall (λ c, is_stripe_lookup c = true) calls
    ∧ (if existsb sessions_list_error calls
       then response = {| status := 500; body := ErrorPage ServerError |}
       else status response = 200).
Proof.
  unfold resolve_entitlement, try_catch, bind at 1.
  destruct (subscription_channel_calls stripe email) as (l1 & calls1 & -> & Hcalls1).
  assert (H1 : lookups_with true calls1).
  { split.
    - eapply Forall_impl; [exact Hcalls1|]. by intros c [? _].
    - symmetry. apply negb_true_iff, not_true_is_false. intros Hex.
      apply existsb_exists in Hex as (c & Hc & Herr).
      rewrite <- list_elem_of_In in Hc.
      rewrite Forall_forall in Hcalls1. destruct (Hcalls1 c Hc) as [_ Hno].
      by destruct c as [| | | | | | | | | | | |? []|]. }
  unfold bind at 1.
  pose proof (purchase_channels_calls email l1) as H2.
  destruct (purchase_channels catalog stripe email l1) as [[[[]|e] l2] calls2].
  - rewrite entitlement_page_eq.
    pose proof (lookups_with_app _ _ _ _ H1 H2) as [Hall Hok].
    eexists _, _, _. split; [done|]. rewrite !app_nil_r. split; [done|].
    simpl in Hok. symmetry in Hok. apply negb_true_iff in Hok. rewrite Hok.
    by destruct (length (purchasedSessionKeys l2) =? 0)%nat.
  - pose proof (lookups_with_app _ _ _ _ H1 H2) as [Hall Hok].
    unfold ret. eexists _, _, _. split; [done|]. rewrite !app_nil_r. split; [done|].
    simpl in Hok. symmetry in Hok. apply negb_false_iff in Hok. by rewrite Hok.
Qed.

End PurchaseChannels.

(** C4. When the customers found for the e-mail include a member of the
    circle (an active subscription with an item of the circle product) and
    the subscription listings of the customers before that one return without
    such an item, the resolver answers with the video page of all seven
    session keys, in display order, and its only calls are the customer
    lookup and those subscription listings: no checkout session is listed and
    no line item is fetched. *)
Theorem subscription_short_circuit (catalog : Catalog) (stripe : Stripe)
    (email : string) (before after : list Customer) (member : Customer)
    (subs : list Subscription) :
  customers_list stripe email = Ok (before ++ member :: after) →
  Forall (λ c, ∃ subs, subscriptions_list stripe (customer_id c) = Ok subs
                       ∧ circle_member subs = false) before →
  subscriptions_list stripe (customer_id member) = Ok subs →
  circle_member subs = true →
  let '(r, _, calls) := resolve_entitlement catalog stripe email new_locals in
  r = Ok {| status := 200;
            body := VideoPage ["A"; "B"; "C"; "D"; "E1"; "E2"; "F"] |}
  ∧ calls = CustomersList email true ::
              ((λ c, SubscriptionsList (customer_id c) true) <$> (before ++ [member]))
  ∧ count is_checkout_lookup calls = 0%nat.
Proof.
  intros Hcustomers Hbefore Hsubs Hmember.
  unfold resolve_entitlement, try_catch, bind at 1.
  unfold subscription_channel, try_catch, bind at 1, call. rewrite Hcustomers. simpl.
  unfold bind at 1, set_allCustomers, modify. simpl.
  rewrite (subscription_customers_loop_found stripe before member after subs)
    by done.
  unfold bind at 1, purchase_channels, keys_size, bind, get, ret. simpl.
  split; [done|]. rewrite !app_nil_r. split; [done|].
  rewrite count_cons. simpl. apply count_none, Forall_fmap, Forall_forall.
  by intros c _.
Qed.

(** C1, as the code has it. The resolver always answers, and with the
    server-error page (status 500) exactly when a checkout-session listing
    threw; otherwise the status is 200. In particular, when the customer
    lookup fails and the listing of recent checkout sessions fails too, the
    answer is the server-error page. *)
Theorem provider_failure_surfaced (catalog : Catalog) (stripe : Stripe) (email : string) :
  let '(r, _, calls) := resolve_entitlement catalog stripe email new_locals in
  ∃ response, r = Ok response
    ∧ (response = {| status := 500; body := ErrorPage ServerError |}
       ↔ existsb sessions_list_error calls = true)
    ∧ (existsb sessions_list_error calls = false → status response = 200)
    ∧ (is_ok (customers_list stripe email) = false →
       is_ok (sessions_list stripe None) = false →
       response = {| status := 500; body := ErrorPage ServerError |}).
Proof.
  destruct (resolve_entitlement_calls catalog stripe email)
    as (response & l & calls & Hrun & _ & Hresp).
  assert (Hboth : is_ok (customers_list stripe email) = false →
                  is_ok (sessions_list stripe None) = false →
                  resolve_entitlement catalog stripe email new_locals =
                    (Ok {| status := 500; body := ErrorPage ServerError |},
                     new_locals,
                     [CustomersList email false; SessionsList None false])).
  { intros Hc Hs.
    unfold resolve_entitlement, try_catch, bind at 1.
    unfold subscription_channel, try_catch, bind at 1, call.
    destruct (customers_list stripe email); [done|]. simpl.
    unfold bind at 1, purchase_channels, keys_size, bind, get, ret, call. simpl.
    destruct (sessions_list stripe None); [done|]. done. }
  rewrite Hrun. exists response. split; [done|].
  destruct (existsb sessions_list_error calls) eqn:Herr.
  - subst response. repeat split; try done.
  - repeat split; try done.
    + intros ->. discriminate.
    + intros Hc Hs. rewrite (Hboth Hc Hs) in Hrun.
      injection Hrun as <- _ <-. discriminate.
Qed.

(** C1, as stated, fails. The customer lookup throws, the listing of recent
    checkout sessions returns the buyer's paid session and the fetch of its
    line items throws: every lookup that could have granted a key failed, and
    the answer is the "no purchase found" page with status 200. The same
    happens for a registered customer whose subscription listing and
    line-item fetch throw. *)
Lemma provider_errors_reported_as_not_found :
  let down := {| err_name := "Error"; err_message := "connection reset" |} in
  let paid := {| session_id := "cs_1"; payment_status := "paid";
                 customer_details_email := Some "buyer@example.com";
                 customer_email := None |} in
  let guest := {| constructEvent := λ _ _ _, Throw down;
                  listLineItems := λ _, Throw down;
                  customers_list := λ _, Throw down;
                  subscriptions_list := λ _, Throw down;
                  sessions_list := λ _, Ok [paid] |} in
  let registered := {| constructEvent := λ _ _ _, Throw down;
                       listLineItems := λ _, Throw down;
                       customers_list := λ _, Ok [{| customer_id := "cus_1" |}];
                       subscriptions_list := λ _, Throw down;
                       sessions_list := λ _, Ok [paid] |} in
  let catalog := catalog_of {| PRICE_ID_FULL_DAY := Some "price_full";
                               PRICE_ID_PRACTICAL_AI_ARCHITECTURE := Some "price_practical";
                               PRICE_ID_IMAGE_GEN_AI := Some "price_image";
                               PRICE_ID_GOOGLE_HP_GAS := Some "price_gas" |} in
  let not_found := {| status := 200; body := ErrorPage PurchaseNotFound |} in
  resolve_entitlement catalog guest "buyer@example.com" new_locals =
    (Ok not_found, new_locals,
     [CustomersList "buyer@example.com" false; SessionsList None true;
      ListLineItems "cs_1" false])
  ∧ resolve_entitlement catalog registered "buyer@example.com" new_locals =
    (Ok not_found,
     {| purchasedSessionKeys := []; allCustomers := [{| customer_id := "cus_1" |}] |},
     [CustomersList "buyer@example.com" true; SubscriptionsList "cus_1" false;
      SessionsList (Some "cus_1") true; ListLineItems "cs_1" false])
  ∧ not_found ≠ {| status := 500; body := ErrorPage ServerError |}.
Proof. split; [by vm_compute|split; [by vm_compute|discriminate]]. Qed.

(** From the validation on, the handler calls nothing but Stripe lookups. *)
Lemma verify_email_calls catalog stripe maxRequests now email rate :
  Forall (λ c, is_stripe_lookup c = true)
    (verify_email catalog stripe maxRequests now email rate).2.
Proof.
  unfold verify_email.
  destruct (negb (Js.truthy (Some email)) || negb (email_regex_test email));
    [constructor|].
  destruct (checkArchiveRateLimit_with maxRequests now email rate) as [[] rate'];
    simpl; [|constructor].
  destruct (resolve_entitlement_calls catalog stripe email)
    as (response & l & calls & -> & Hcalls & _). done.
Qed.

Lemma no_token_check (calls : list Call) :
  Forall (λ c, is_stripe_lookup c = true) calls → count is_token_check calls = 0%nat.
Proof.
  intros Hcalls. apply count_none. eapply Forall_impl; [exact Hcalls|].
  by intros [].
Qed.

(** * The properties at sample inputs *)

(** Five requests a minute apart are allowed, the sixth is denied and leaves
    the five timestamps, and a request ten minutes after the first is allowed. *)
Lemma rate_limit_sliding_window_witness :
  let out := run_checks 5 (Sample.requests ++ [Sample.sixth]) ∅ in
  out.1 = [true; true; true; true; true; false]
  ∧ window_of out.2 "user@example.com" = [0; 60000; 120000; 180000; 240000]
  ∧ (checkArchiveRateLimit 600000 "User@example.com" out.2).1 = true.
Proof.
  unshelve epose proof (rate_limit_sliding_window 5 "user@example.com"
                          Sample.requests Sample.sixth ∅ _ _ _ _ _) as H.
  - lia.
  - reflexivity.
  - reflexivity.
  - repeat constructor.
  - unfold within_window, windowMs. repeat constructor.
  - cbv zeta in H. destruct H as (H1 & H2 & H3 & _).
    split; [exact H1|]. split; [exact H2|].
    apply (H3 600000 "User@example.com" 0); [reflexivity|reflexivity|].
    unfold windowMs. lia.
Defined.

(** A request without signature header. *)
Lemma signature_rejected_first_witness :
  let stripe := Sample.stripe [] in
  constructEvent stripe (req_body Sample.unsigned) (stripe_signature Sample.unsigned)
    (Some "whsec_1") = Throw Sample.bad_signature
  ∧ let '(r, files', calls) :=
      stripe_webhook (catalog_of Sample.ids) stripe Sample.accepted 0 (Some "whsec_1")
        Sample.unsigned Sample.no_files in
    r = Ok {| status := 400;
              body := WebhookText ("Webhook Error: " +:+
                                   err_message Sample.bad_signature) |}
    ∧ files' = Sample.no_files
    ∧ calls = [ConstructEvent false]
    ∧ count is_store_or_catalog calls = 0%nat
    ∧ count is_dispatch calls = 0%nat.
Proof.
  split; [reflexivity|].
  apply (signature_rejected_first (catalog_of Sample.ids) (Sample.stripe [])
           Sample.accepted 0 (Some "whsec_1") Sample.unsigned Sample.no_files
           Sample.bad_signature).
  reflexivity.
Defined.

(** A purchase whose notification fails three times, delivered twice: one
    notification, one recorded failure, and [already_processed] the second
    time. *)
Lemma redelivery_idempotent_witness :
  let stripe := Sample.stripe [Sample.line_item "price_practical"] in
  let first := stripe_webhook (catalog_of Sample.ids) stripe Sample.unavailable 0
                 None Sample.signed Sample.no_files in
  let second := stripe_webhook (catalog_of Sample.ids) stripe Sample.accepted 1
                  None Sample.signed first.1.2 in
  constructEvent stripe (req_body Sample.signed) (stripe_signature Sample.signed) None
    = Ok Sample.event
  ∧ count is_dispatch (first.2 ++ second.2) = 1%nat
  ∧ count is_failure_record (first.2 ++ second.2) = 1%nat
  ∧ second.1.1 = Ok {| status := 200; body := ReceivedAlreadyProcessed |}
  ∧ length (failed_emails second.1.2) = 1%nat.
Proof.
  intros stripe first second. subst first second.
  pose proof (redelivery_idempotent (catalog_of Sample.ids) stripe stripe
                Sample.unavailable Sample.accepted 0 1 None Sample.signed
                Sample.event Sample.no_files eq_refl eq_refl) as H.
  assert (Hfirst :
    let first := stripe_webhook (catalog_of Sample.ids) stripe Sample.unavailable 0
                   None Sample.signed Sample.no_files in
    first.1.1 = Ok {| status := 200; body := Received |}
    ∧ count is_dispatch first.2 = 1%nat
    ∧ count is_failure_record first.2 = 1%nat) by (by vm_compute).
  cbv zeta in Hfirst.
  destruct (stripe_webhook (catalog_of Sample.ids) stripe Sample.unavailable 0
              None Sample.signed Sample.no_files) as [[r1 files1] calls1].
  cbn [fst snd] in *.
  destruct (stripe_webhook (catalog_of Sample.ids) stripe Sample.accepted 1
              None Sample.signed files1) as [[r2 files2] calls2].
  cbn [fst snd].
  destruct H as (H3 & _). destruct Hfirst as (Hr1 & Hd1 & Hf1).
  split; [reflexivity|].
  destruct (H3 _ Hr1 eq_refl)
    as (_ & -> & -> & -> & _ & _ & (added & Hadded & Hlen) & _).
  rewrite Hadded, length_app, Hlen, !count_app, Hd1, Hf1. by repeat split.
Defined.

(** A purchase of an item the catalog does not know. *)
Lemma unmapped_purchase_committed_witness :
  let stripe := Sample.stripe [Sample.line_item "price_other"] in
  let out := stripe_webhook (catalog_of Sample.ids) stripe Sample.accepted 0 None
               Sample.signed Sample.no_files in
  Forall (λ p, PRODUCT_NAME_MAP (catalog_of Sample.ids) !! p = None
               ∧ ZOOM_LINK_MAP (catalog_of Sample.ids) !! p = None)
    (purchasedPriceIds [Sample.line_item "price_other"])
  ∧ out.1.1 = Ok {| status := 200; body := Received |}
  ∧ count is_dispatch out.2 = 0%nat
  ∧ "evt_1" ∈ processed_events out.1.2
  ∧ stripe_webhook (catalog_of Sample.ids) stripe Sample.accepted 1 None
      Sample.signed out.1.2
    = (Ok {| status := 200; body := ReceivedAlreadyProcessed |}, out.1.2,
       [ConstructEvent true; LoadProcessedEvents]).
Proof.
  intros stripe out. subst out.
  assert (Hunmapped :
    Forall (λ p, PRODUCT_NAME_MAP (catalog_of Sample.ids) !! p = None
                 ∧ ZOOM_LINK_MAP (catalog_of Sample.ids) !! p = None)
      (purchasedPriceIds [Sample.line_item "price_other"])).
  { repeat constructor. }
  pose proof (unmapped_purchase_committed (catalog_of Sample.ids) stripe
                Sample.accepted 0 None Sample.signed Sample.event
                [Sample.line_item "price_other"] Sample.no_files
                eq_refl eq_refl eq_refl eq_refl Hunmapped) as H.
  assert (Hreceived :
    (stripe_webhook (catalog_of Sample.ids) stripe Sample.accepted 0 None
       Sample.signed Sample.no_files).1.1
    = Ok {| status := 200; body := Received |}) by (by vm_compute).
  destruct (stripe_webhook (catalog_of Sample.ids) stripe Sample.accepted 0 None
              Sample.signed Sample.no_files) as [[r files1] calls].
  cbn [fst snd] in *.
  destruct H as (_ & Hd & _ & _ & _ & Hp & Hagain).
  split; [exact Hunmapped|]. split; [exact Hreceived|]. split; [exact Hd|]. split.
  - rewrite Hp. apply elem_of_union_l, elem_of_singleton. reflexivity.
  - apply (Hagain stripe Sample.accepted 1 Sample.signed files1); reflexivity.
Defined.

(** A catalog whose only registration link is [C]: the notification lists
    [C] and [F]. *)
Lemma shared_key_in_every_notification_witness :
  let stripe := Sample.stripe [Sample.line_item "price_workshop"] in
  let content := {| ec_productName := "Workshop"; ec_meetingKeys := ["C"; "F"] |} in
  ZOOM_LINK_MAP Sample.workshop_catalog !! "price_workshop" = Some ["C"]
  ∧ SendEmailWithRetry "buyer@example.com" email_subject content
      ∈ (handleCheckoutCompleted Sample.workshop_catalog stripe Sample.accepted 0
           Sample.session Sample.no_files).2
  ∧ "F" ∈ ec_meetingKeys content.
Proof.
  intros stripe content.
  assert (Hcall : SendEmailWithRetry "buyer@example.com" email_subject content
            ∈ (handleCheckoutCompleted Sample.workshop_catalog stripe Sample.accepted 0
                 Sample.session Sample.no_files).2).
  { apply (bool_decide_unpack _). by vm_compute. }
  split; [reflexivity|]. split; [exact Hcall|].
  exact (shared_key_in_every_notification Sample.workshop_catalog stripe
           Sample.accepted 0 Sample.session Sample.no_files
           "buyer@example.com" email_subject content Hcall).
Defined.

(** The image seminar and the practical seminar bought together. *)
Lemma catalog_union_witness :
  let items := [Sample.line_item "price_image"; Sample.line_item "price_practical"] in
  ZOOM_LINK_MAP (catalog_of Sample.ids) !! "price_practical" = Some ["C"; "F"]
  ∧ ZOOM_LINK_MAP (catalog_of Sample.ids) !! "price_image" = Some ["D"; "F"]
  ∧ notified_keys
      (handleCheckoutCompleted (catalog_of Sample.ids) (Sample.stripe items)
         Sample.unavailable 0 Sample.session Sample.no_files).2
    = [["C"; "D"; "F"]].
Proof.
  intros items. split; [reflexivity|]. split; [reflexivity|].
  apply (catalog_union Sample.ids (Sample.stripe items) Sample.unavailable 0
           Sample.session items Sample.no_files "price_practical" "price_image").
  - reflexivity.
  - reflexivity.
  - reflexivity.
  - reflexivity.
  - apply (bool_decide_unpack _). by vm_compute.
  - apply (bool_decide_unpack _). by vm_compute.
  - intros p Hp. change (purchasedPriceIds items)
      with ["price_image"; "price_practical"] in Hp.
    apply elem_of_cons in Hp as [->|Hp]; [by right|].
    apply elem_of_cons in Hp as [->|Hp]; [by left|].
    by apply elem_of_nil in Hp.
Defined.

(** Two customers for the e-mail, the second a member of the circle. *)
Lemma subscription_short_circuit_witness :
  let stripe := Sample.stripe [] in
  let out := resolve_entitlement (catalog_of Sample.ids) stripe "buyer@example.com"
               new_locals in
  customers_list stripe "buyer@example.com"
    = Ok ([{| customer_id := "cus_1" |}] ++ {| customer_id := "cus_2" |} :: [])
  ∧ circle_member [Sample.circle_subscription] = true
  ∧ out.1.1 = Ok {| status := 200;
                    body := VideoPage ["A"; "B"; "C"; "D"; "E1"; "E2"; "F"] |}
  ∧ out.2 = [CustomersList "buyer@example.com" true;
             SubscriptionsList "cus_1" true; SubscriptionsList "cus_2" true].
Proof.
  intros stripe out. subst out.
  unshelve epose proof (subscription_short_circuit (catalog_of Sample.ids) stripe
                          "buyer@example.com" [{| customer_id := "cus_1" |}] []
                          {| customer_id := "cus_2" |} [Sample.circle_subscription]
                          eq_refl _ eq_refl eq_refl) as H.
  { constructor; [|constructor]. by exists []. }
  destruct (resolve_entitlement (catalog_of Sample.ids) stripe "buyer@example.com"
              new_locals) as [[r l] calls].
  destruct H as (-> & -> & _). by repeat split.
Defined.

(** * Further properties *)

(** ** Rate limiter *)

Lemma window_of_insert (m : gmap string (list Z)) key l k :
  window_of (<[key := l]> m) k = if decide (key = k) then l else window_of m k.
Proof. unfold window_of. rewrite lookup_insert. by case_decide. Qed.

Lemma check_keeps_bound maxRequests now email (m : gmap string (list Z)) :
  (∀ k, (length (window_of m k) ≤ maxRequests)%nat) →
  ∀ k, (length (window_of (checkArchiveRateLimit_with maxRequests now email m).2 k)
        ≤ maxRequests)%nat.
Proof.
  intros Hm k. rewrite checkArchiveRateLimit_with_eq.
  pose proof (length_filter (λ t, now - t < windowMs)
                (window_of m (Js.trim (Js.toLowerCase email)))) as Hle.
  specialize (Hm (Js.trim (Js.toLowerCase email))) as Hkey.
  case_decide; simpl; rewrite window_of_insert; case_decide; try apply Hm.
  - lia.
  - rewrite length_app. simpl. lia.
Qed.

(** X1. From the empty [Map] of a fresh process, whatever requests are made,
    no identity ever has more than [maxRequests] timestamps recorded. *)
Theorem rate_limit_window_bounded (maxRequests : nat) (reqs : list (Z * string))
    (k : string) :
  (length (window_of (run_checks maxRequests reqs ∅).2 k) ≤ maxRequests)%nat.
Proof.
  assert (H : ∀ m : gmap string (list Z),
            (∀ k, (length (window_of m k) ≤ maxRequests)%nat) →
            ∀ k, (length (window_of (run_checks maxRequests reqs m).2 k)
                  ≤ maxRequests)%nat).
  { induction reqs as [|[now email] reqs IH]; intros m Hm k'; simpl; [apply Hm|].
    pose proof (check_keeps_bound maxRequests now email m Hm) as Hstep.
    destruct (checkArchiveRateLimit_with maxRequests now email m) as [ok m1].
    specialize (IH m1 Hstep k').
    by destruct (run_checks maxRequests reqs m1) as [oks m2]. }
  apply H. intros k'. unfold window_of. rewrite lookup_empty. simpl. lia.
Qed.

(** X2. A call for one e-mail address leaves the entry of every other
    identity as it was. *)
Theorem rate_limit_isolated (maxRequests : nat) (now : Z) (email k : string)
    (m : gmap string (list Z)) :
  k ≠ Js.trim (Js.toLowerCase email) →
  (checkArchiveRateLimit_with maxRequests now email m).2 !! k = m !! k.
Proof.
  intros Hk. rewrite checkArchiveRateLimit_with_eq.
  case_decide; simpl; by rewrite lookup_insert_ne.
Qed.

(** X3. After a call at time [now], allowed or denied, every timestamp
    recorded for the identity is less than [windowMs] old: the entries that
    left the window are dropped from the [Map], and those kept are the old
    ones in their order, followed by [now] when the call was allowed. *)
Theorem rate_limit_evicts_stale (maxRequests : nat) (now : Z) (email : string)
    (m : gmap string (list Z)) :
  let key := Js.trim (Js.toLowerCase email) in
  let out := checkArchiveRateLimit_with maxRequests now email m in
  Forall (λ t, now - t < windowMs) (window_of out.2 key)
  ∧ (∀ t, t ∈ window_of m key → windowMs ≤ now - t → t ∉ window_of out.2 key)
  ∧ window_of out.2 key =
      filter (λ t, now - t < windowMs) (window_of m key)
        ++ (if out.1 then [now] else []).
Proof.
  intros key out. subst out. rewrite checkArchiveRateLimit_with_eq. fold key.
  assert (Hfresh : Forall (λ t, now - t < windowMs)
                     (filter (λ t, now - t < windowMs) (window_of m key))).
  { apply Forall_forall. intros t Ht. by apply list_elem_of_filter in Ht as [? _]. }
  assert (Hnow : now - now < windowMs) by (unfold windowMs; lia).
  case_decide; simpl; rewrite window_of_insert, decide_True by done.
  - split; [done|]. split; [|by rewrite app_nil_r].
    intros t _ Hold Hin. apply list_elem_of_filter in Hin as [Hlt _]. lia.
  - split; [apply Forall_app; split; [done|by constructor]|]. split; [|done].
    intros t _ Hold Hin. apply elem_of_app in Hin as [Hin|Hin].
    + apply list_elem_of_filter in Hin as [Hlt _]. lia.
    + apply list_elem_of_singleton in Hin. subst t. lia.
Qed.

(** ** Normalisation of the e-mail address *)

Lemma ascii_toLowerCase_idem c :
  Js.ascii_toLowerCase (Js.ascii_toLowerCase c) = Js.ascii_toLowerCase c.
Proof. by destruct c as [[] [] [] [] [] [] [] []]. Qed.

Lemma is_space_toLowerCase c :
  Ascii.is_space (Js.ascii_toLowerCase c) = Ascii.is_space c.
Proof. by destruct c as [[] [] [] [] [] [] [] []]. Qed.

Lemma toLowerCase_idem s : Js.toLowerCase (Js.toLowerCase s) = Js.toLowerCase s.
Proof. induction s as [|c s IH]; simpl; [done|]. by rewrite ascii_toLowerCase_idem, IH. Qed.

Lemma trimStart_toLowerCase s :
  Js.trimStart (Js.toLowerCase s) = Js.toLowerCase (Js.trimStart s).
Proof.
  induction s as [|c s IH]; simpl; [done|].
  rewrite is_space_toLowerCase. by destruct (Ascii.is_space c).
Qed.

Lemma rev_app_toLowerCase s1 : ∀ s2,
  String.rev_app (Js.toLowerCase s1) (Js.toLowerCase s2)
  = Js.toLowerCase (String.rev_app s1 s2).
Proof. induction s1 as [|c s1 IH]; intros s2; simpl; [done|]. by rewrite <- IH. Qed.

Lemma trim_toLowerCase s : Js.trim (Js.toLowerCase s) = Js.toLowerCase (Js.trim s).
Proof.
  unfold Js.trim, String.rev.
  rewrite trimStart_toLowerCase.
  rewrite (rev_app_toLowerCase _ ""), trimStart_toLowerCase.
  by rewrite (rev_app_toLowerCase _ "").
Qed.

Lemma list_of_rev_app s1 : ∀ s2,
  list_ascii_of_string (String.rev_app s1 s2)
  = rev_append (list_ascii_of_string s1) (list_ascii_of_string s2).
Proof. induction s1 as [|c s1 IH]; intros s2; simpl; [done|]. by rewrite IH. Qed.

Lemma list_of_rev s :
  list_ascii_of_string (String.rev s) = List.rev (list_ascii_of_string s).
Proof.
  unfold String.rev. rewrite list_of_rev_app, rev_append_rev. simpl.
  by rewrite app_nil_r.
Qed.

Lemma list_of_trimStart s :
  list_ascii_of_string (Js.trimStart s) = drop_spaces (list_ascii_of_string s).
Proof. induction s as [|c s IH]; simpl; [done|]. by destruct (Ascii.is_space c). Qed.

Lemma list_of_trim s :
  list_ascii_of_string (Js.trim s)
  = List.rev (drop_spaces (List.rev (drop_spaces (list_ascii_of_string s)))).
Proof.
  unfold Js.trim. by rewrite list_of_rev, list_of_trimStart, list_of_rev, list_of_trimStart.
Qed.

Lemma list_ascii_of_string_inj s1 s2 :
  list_ascii_of_string s1 = list_ascii_of_string s2 → s1 = s2.
Proof.
  intros H. rewrite <- (string_of_list_ascii_of_string s1),
    <- (string_of_list_ascii_of_string s2). by rewrite H.
Qed.

Lemma drop_spaces_clean l : starts_clean (drop_spaces l).
Proof.
  induction l as [|c l IH]; simpl; [done|].
  by destruct (Ascii.is_space c) eqn:E.
Qed.

Lemma drop_spaces_id l : starts_clean l → drop_spaces l = l.
Proof. destruct l as [|c l]; simpl; [done|]. by intros ->. Qed.

(** Dropping leading white space does not uncover trailing white space. *)
Lemma drop_spaces_keeps_end l :
  starts_clean (List.rev l) → starts_clean (List.rev (drop_spaces l)).
Proof.
  induction l as [|c l IH]; simpl; [done|].
  destruct (Ascii.is_space c) eqn:E; [|done].
  intros Hclean. apply IH.
  destruct (List.rev l) as [|d l']; simpl in *; [congruence|done].
Qed.

Lemma trim_trim s : Js.trim (Js.trim s) = Js.trim s.
Proof.
  apply list_ascii_of_string_inj. rewrite !list_of_trim.
  set (t := drop_spaces (list_ascii_of_string s)).
  set (u := drop_spaces (List.rev t)).
  assert (Hu : starts_clean (List.rev u)).
  { apply drop_spaces_keeps_end. rewrite List.rev_involutive. apply drop_spaces_clean. }
  rewrite (drop_spaces_id (List.rev u)) by done.
  rewrite List.rev_involutive.
  by rewrite (drop_spaces_id u) by apply drop_spaces_clean.
Qed.

(** The key of the rate limiter for an address the handler has normalised is
    that address. *)
Lemma normalized_is_own_key raw :
  Js.trim (Js.toLowerCase (Js.toLowerCase (Js.trim raw))) = Js.toLowerCase (Js.trim raw).
Proof. by rewrite toLowerCase_idem, trim_toLowerCase, trim_trim. Qed.

(** X4. [/archive/verify] charges a request to the window of the address it
    validates and looks up, the trimmed and lower-cased e-mail field, and to
    no other: the entry of every other identity is left as it was, whatever
    the outcome. *)
Theorem archive_verify_charges_normalized (catalog : Catalog) (stripe : Stripe)
    (now : Z) (body_email : option string) (rate : gmap string (list Z)) (k : string) :
  k ≠ Js.toLowerCase (Js.trim (Js.or_empty body_email)) →
  (archive_verify catalog stripe now body_email rate).1.2 !! k = rate !! k.
Proof.
  intros Hk. unfold archive_verify, verify_email.
  set (email := Js.toLowerCase (Js.trim (Js.or_empty body_email))) in *.
  destruct (negb _ || negb _); [done|].
  assert (Hiso : (checkArchiveRateLimit_with 5 now email rate).2 !! k = rate !! k).
  { assert (Hown : Js.trim (Js.toLowerCase email) = email)
      by apply normalized_is_own_key.
    rewrite checkArchiveRateLimit_with_eq, Hown.
    case_decide; simpl; by rewrite lookup_insert_ne. }
  destruct (checkArchiveRateLimit_with 5 now email rate) as [[] rate']; simpl in *.
  - by destruct (resolve_entitlement catalog stripe email new_locals) as [[[] ?] ?].
  - done.
Qed.

(** ** Validation of the e-mail address *)

Lemma split_at_first_app sep (before after : list ascii) :
  sep ∉ before → split_at_first sep (before ++ sep :: after) = Some (before, after).
Proof.
  induction before as [|c before IH]; intros Hsep; simpl.
  - by rewrite Ascii.eqb_refl.
  - destruct (Ascii.eqb c sep) eqn:E.
    + apply Ascii.eqb_eq in E. subst c. exfalso. apply Hsep. left.
    + rewrite IH; [done|]. intros Hin. apply Hsep. by right.
Qed.

Lemma split_at_first_Some sep (l before after : list ascii) :
  split_at_first sep l = Some (before, after) → l = before ++ sep :: after.
Proof.
  revert before. induction l as [|c l IH]; intros before; simpl; [done|].
  destruct (Ascii.eqb c sep) eqn:E.
  - apply Ascii.eqb_eq in E. subst c. by intros [= <- <-].
  - destruct (split_at_first sep l) as [[b a]|]; simpl; [|done].
    intros [= <- <-]. by rewrite (IH b).
Qed.

Lemma nonempty_true {A} (l : list A) : nonempty l = true ↔ l ≠ [].
Proof. by destruct l. Qed.

Lemma dotted_shape (l : list ascii) :
  dotted l = true ↔
  ∃ host tld, l = host ++ "."%char :: tld ∧ host ≠ [] ∧ tld ≠ []
    ∧ forallb not_space_or_at host = true ∧ forallb not_space_or_at tld = true.
Proof.
  split.
  - induction l as [|c l IH]; [done|].
    destruct l as [|d [|e rest]]; [done|done|].
    change (dotted (c :: d :: e :: rest))
      with (not_space_or_at c &&
            ((Ascii.eqb d "." && nonempty (e :: rest)
              && forallb not_space_or_at (e :: rest))
             || dotted (d :: e :: rest))).
    intros [Hc [Hdot|Hrec]%orb_prop]%andb_prop.
    + apply andb_prop in Hdot as [[Hd _]%andb_prop Hrest].
      apply Ascii.eqb_eq in Hd. subst d.
      exists [c], (e :: rest). simpl. by rewrite Hc.
    + destruct (IH Hrec) as (host & tld & Heq & Hh & Ht & Hfh & Hft).
      exists (c :: host), tld. simpl. rewrite Heq, Hc, Hfh. done.
  - intros (host & tld & -> & Hh & Ht & Hfh & Hft).
    induction host as [|c host IH]; [done|].
    simpl in Hfh. apply andb_prop in Hfh as [Hc Hfh].
    destruct host as [|d host].
    + destruct tld as [|e tld]; [done|].
      change (dotted ([c] ++ "."%char :: e :: tld))
        with (not_space_or_at c &&
              ((Ascii.eqb "." "." && nonempty (e :: tld)
                && forallb not_space_or_at (e :: tld))
               || dotted ("."%char :: e :: tld))).
      rewrite Hc, Hft. done.
    + assert (Hrec : dotted ((d :: host) ++ "."%char :: tld) = true)
        by (by apply IH).
      destruct (host ++ "."%char :: tld) as [|e rest] eqn:E.
      { by destruct host. }
      change ((c :: d :: host) ++ "."%char :: tld)
        with (c :: d :: (host ++ "."%char :: tld)).
      change ((d :: host) ++ "."%char :: tld)
        with (d :: (host ++ "."%char :: tld)) in Hrec.
      rewrite E in *.
      change (dotted (c :: d :: e :: rest))
        with (not_space_or_at c &&
              ((Ascii.eqb d "." && nonempty (e :: rest)
                && forallb not_space_or_at (e :: rest))
               || dotted (d :: e :: rest))).
      rewrite Hc, Hrec. by rewrite orb_true_r.
Qed.

Lemma no_at_in_run (l : list ascii) :
  forallb not_space_or_at l = true → "@"%char ∉ l.
Proof.
  intros Hl Hin. rewrite forallb_forall in Hl.
  apply list_elem_of_In, Hl in Hin. done.
Qed.

(** X5. The test of the e-mail address accepts exactly the strings of the
    shape [local@host.tld] in which the three parts are non-empty and free of
    white space and of [@] (the host part may itself contain dots). *)
Theorem email_regex_test_shape (email : string) :
  email_regex_test email = true ↔ email_shape (list_ascii_of_string email).
Proof.
  unfold email_regex_test, email_shape. split.
  - destruct (split_at_first "@" (list_ascii_of_string email)) as [[local domain]|] eqn:E;
      [|done].
    intros [[Hne Hlocal]%andb_prop Hdot]%andb_prop.
    apply split_at_first_Some in E.
    apply dotted_shape in Hdot as (host & tld & -> & Hh & Ht & Hfh & Hft).
    exists local, host, tld. by rewrite nonempty_true in Hne.
  - intros (local & host & tld & -> & Hl & Hh & Ht & Hfl & Hfh & Hft).
    rewrite split_at_first_app by by apply no_at_in_run.
    rewrite Hfl, (proj2 (nonempty_true local) Hl). simpl.
    apply dotted_shape. by exists host, tld.
Qed.

(** ** Notification dispatcher, for any number of retries *)

Lemma sendEmail_loop_spec (sendgrid : nat → FetchOutcome) {S} (maxRetries : nat)
    (to : string) (s : S) (remaining : nat) : ∀ attempt,
  (attempt + remaining = maxRetries)%nat →
  let '(r, s', calls) := sendEmail_loop sendgrid remaining attempt maxRetries to s in
  s' = s
  ∧ match r with
    | Ok true =>
        ∃ i, (attempt ≤ i < maxRetries)%nat
          ∧ fetch_result (sendgrid i) = Ok tt
          ∧ (∀ j, (attempt ≤ j < i)%nat → is_ok (fetch_result (sendgrid j)) = false)
          ∧ count is_fetch calls = (Datatypes.S i - attempt)%nat
          ∧ timeouts calls = (λ a, default 0 (delays !! a)) <$> seq attempt (i - attempt)
    | Ok false => remaining = 0%nat ∧ calls = []
    | Throw e =>
        (0 < remaining)%nat
        ∧ fetch_result (sendgrid (maxRetries - 1)%nat) = Throw e
        ∧ (∀ j, (attempt ≤ j < maxRetries)%nat →
             is_ok (fetch_result (sendgrid j)) = false)
        ∧ count is_fetch calls = remaining
        ∧ timeouts calls =
            (λ a, default 0 (delays !! a)) <$> seq attempt (remaining - 1)
    end.
Proof.
  induction remaining as [|remaining IH]; intros attempt Hsum.
  { simpl. unfold ret. by repeat split. }
  assert (Hfirst : fetch_result (sendgrid attempt) = Ok tt →
            sendEmail_loop sendgrid (Datatypes.S remaining) attempt maxRetries to s
            = (Ok true, s, [Fetch to attempt true])).
  { intros H. cbn [sendEmail_loop]. unfold bind, try_catch, call, ret. by rewrite H. }
  assert (Hretry : ∀ e, fetch_result (sendgrid attempt) = Throw e →
            (attempt <? maxRetries - 1)%nat = true →
            sendEmail_loop sendgrid (Datatypes.S remaining) attempt maxRetries to s
            = let '(r, s', calls) :=
                sendEmail_loop sendgrid remaining (Datatypes.S attempt) maxRetries to s in
              (r, s', Fetch to attempt false
                        :: SetTimeout (default 0 (delays !! attempt)) :: calls)).
  { intros e H Hlt. cbn [sendEmail_loop].
    unfold bind at 1, try_catch, bind at 1, call. rewrite H, Hlt.
    unfold bind, tell, ret.
    by destruct (sendEmail_loop sendgrid remaining (Datatypes.S attempt) maxRetries to s)
      as [[r s'] calls]. }
  assert (Hgiveup : ∀ e, fetch_result (sendgrid attempt) = Throw e →
            (attempt <? maxRetries - 1)%nat = false →
            sendEmail_loop sendgrid (Datatypes.S remaining) attempt maxRetries to s
            = (Throw e, s, [Fetch to attempt false])).
  { intros e H Hlt. cbn [sendEmail_loop].
    unfold bind at 1, try_catch, bind at 1, call. rewrite H, Hlt. unfold throw. done. }
  destruct (fetch_result (sendgrid attempt)) as [[]|e] eqn:Hfetch.
  { rewrite Hfirst by done. split; [done|]. exists attempt. rewrite Nat.sub_diag.
    repeat split; try done; try lia.
    rewrite count_cons, count_nil. cbn [is_fetch]. lia. }
  assert (Hfail : is_ok (fetch_result (sendgrid attempt)) = false)
    by (by rewrite Hfetch).
  destruct (attempt <? maxRetries - 1)%nat eqn:Hlast.
  - rewrite (Hretry e) by done. apply Nat.ltb_lt in Hlast.
    specialize (IH (Datatypes.S attempt) ltac:(lia)).
    destruct (sendEmail_loop sendgrid remaining (Datatypes.S attempt) maxRetries to s)
      as [[r s'] calls].
    destruct IH as [-> IH]. split; [done|].
    destruct r as [[]|e'].
    + destruct IH as (i & Hi & Hok & Hbefore & Hcount & Hwaits).
      exists i. split; [lia|]. split; [done|]. split; [|split].
      * intros j Hj. destruct (decide (j = attempt)) as [->|]; [done|].
        apply Hbefore. lia.
      * rewrite !count_cons. cbn [is_fetch]. rewrite Hcount. lia.
      * change (timeouts (?a :: SetTimeout ?w :: calls)) with (w :: timeouts calls).
        rewrite Hwaits.
        replace (i - attempt)%nat with (Datatypes.S (i - Datatypes.S attempt)) by lia.
        done.
    + destruct IH as [-> _]. lia.
    + destruct IH as (Hpos & Hlaste & Hall & Hcount & Hwaits).
      split; [lia|]. split; [done|]. split; [|split].
      * intros j Hj. destruct (decide (j = attempt)) as [->|]; [done|].
        apply Hall. lia.
      * rewrite !count_cons. cbn [is_fetch]. rewrite Hcount. lia.
      * change (timeouts (?a :: SetTimeout ?w :: calls)) with (w :: timeouts calls).
        rewrite Hwaits.
        replace (Datatypes.S remaining - 1)%nat
          with (Datatypes.S (remaining - 1)) by lia.
        done.
  - rewrite (Hgiveup e) by done. apply Nat.ltb_ge in Hlast.
    assert (attempt = (maxRetries - 1)%nat ∧ remaining = 0%nat) as [Hatt ->] by lia.
    split; [done|]. split; [lia|]. split; [by rewrite <- Hatt|]. split; [|done].
    intros j Hj. assert (j = attempt) as -> by lia. done.
Qed.

(** X6. For every [maxRetries], [sendEmailWithRetry] makes at most
    [maxRetries] transport attempts and waits between consecutive attempts
    only, for [delays[0]], [delays[1]], ... (nothing for an attempt beyond the
    table). It returns [true] at the first attempt that is delivered, when
    there is one among the first [maxRetries]; otherwise it throws the error
    of the last attempt; and with [maxRetries = 0] it returns without
    attempting anything and without an error. *)
Theorem sendEmailWithRetry_attempts (sendgrid : nat → FetchOutcome) {S : Type}
    (to subject : string) (content : EmailContent) (maxRetries : nat) (s : S) :
  let '(r, s', calls) := sendEmailWithRetry sendgrid to subject content maxRetries s in
  s' = s
  ∧ (count is_fetch calls ≤ maxRetries)%nat
  ∧ timeouts calls =
      (λ a, default 0 (delays !! a)) <$> seq 0 (count is_fetch calls - 1)
  ∧ match r with
    | Ok true =>
        ∃ i, (i < maxRetries)%nat
          ∧ fetch_result (sendgrid i) = Ok tt
          ∧ (∀ j, (j < i)%nat → is_ok (fetch_result (sendgrid j)) = false)
          ∧ count is_fetch calls = Datatypes.S i
    | Ok false => maxRetries = 0%nat ∧ count is_fetch calls = 0%nat
    | Throw e =>
        (0 < maxRetries)%nat
        ∧ fetch_result (sendgrid (maxRetries - 1)%nat) = Throw e
        ∧ (∀ j, (j < maxRetries)%nat → is_ok (fetch_result (sendgrid j)) = false)
        ∧ count is_fetch calls = maxRetries
    end.
Proof.
  unfold sendEmailWithRetry, bind, tell.
  pose proof (sendEmail_loop_spec sendgrid maxRetries to s maxRetries 0%nat eq_refl)
    as Hloop.
  destruct (sendEmail_loop sendgrid maxRetries 0 maxRetries to s) as [[r s'] calls].
  destruct Hloop as [-> Hloop]. cbn [app]. split; [done|].
  rewrite count_cons. cbn [is_dispatch is_fetch Nat.add].
  change (timeouts (?c :: calls)) with (timeouts calls).
  destruct r as [[]|e].
  - destruct Hloop as (i & Hi & Hok & Hbefore & Hcount & Hwaits).
    rewrite Hcount, Hwaits, !Nat.sub_0_r. simpl.
    split; [lia|]. split; [by rewrite Nat.sub_0_r|].
    exists i. repeat split; try done; try lia. intros j Hj. apply Hbefore. lia.
  - destruct Hloop as [-> ->]. by repeat split.
  - destruct Hloop as (Hpos & Hlast & Hall & Hcount & Hwaits).
    rewrite Hcount, Hwaits. repeat split; try done; try lia.
    intros j Hj. apply Hall. lia.
Qed.

(** ** Webhook processor: what is sent, to whom, and what is stored *)

(** X7. The session keys of a notification are in ascending order without
    repetition, and they are [F] together with every registration-link key
    the catalog gives for a purchased price identifier, and nothing else. *)
Theorem notification_keys_sorted_union (catalog : Catalog) (stripe : Stripe)
    (sendgrid : nat → FetchOutcome) (clock : Z) (session : CheckoutSession)
    (files : Files) (lineItems : list Item) (to subject : string)
    (content : EmailContent) :
  listLineItems stripe (session_id session) = Ok lineItems →
  SendEmailWithRetry to subject content
    ∈ (handleCheckoutCompleted catalog stripe sendgrid clock session files).2 →
  StronglySorted String.le (ec_meetingKeys content)
  ∧ NoDup (ec_meetingKeys content)
  ∧ ∀ k, k ∈ ec_meetingKeys content ↔
      k = "F" ∨ ∃ p keys, p ∈ purchasedPriceIds lineItems
                          ∧ ZOOM_LINK_MAP catalog !! p = Some keys ∧ k ∈ keys.
Proof.
  intros Hitems Hin.
  apply handleCheckoutCompleted_dispatch in Hin as (lineItems' & Hin).
  cbn zeta in Hin. destruct Hin as (Hitems' & _ & _ & _ & _ & _ & ->).
  rewrite Hitems in Hitems'. injection Hitems' as <-. cbn [ec_meetingKeys].
  split; [apply StronglySorted_merge_sort; apply _|]. split.
  - rewrite merge_sort_Permutation. apply NoDup_set_add, purchased_keys_NoDup.
    constructor.
  - intros k. rewrite merge_sort_Permutation, elem_of_set_add, purchased_keys_elem.
    cbn [snd]. rewrite elem_of_nil. tauto.
Qed.

(** X8. A notification goes to the e-mail of [customer_details] when the
    session has one and to [customer_email] otherwise, under the fixed
    subject, and names one product only: the last purchased price identifier
    for which the catalog has a name. *)
Theorem notification_recipient_and_product (catalog : Catalog) (stripe : Stripe)
    (sendgrid : nat → FetchOutcome) (clock : Z) (session : CheckoutSession)
    (files : Files) (lineItems : list Item) (to subject : string)
    (content : EmailContent) :
  listLineItems stripe (session_id session) = Ok lineItems →
  SendEmailWithRetry to subject content
    ∈ (handleCheckoutCompleted catalog stripe sendgrid clock session files).2 →
  Js.or (customer_details_email session) (customer_email session) = Some to
  ∧ to ≠ ""
  ∧ subject = email_subject
  ∧ last (omap (λ p, let name := PRODUCT_NAME_MAP catalog !! p in
                     if Js.truthy name then name else None)
               (purchasedPriceIds lineItems))
    = Some (ec_productName content).
Proof.
  intros Hitems Hin.
  apply handleCheckoutCompleted_dispatch in Hin as (lineItems' & Hin).
  cbn zeta in Hin. destruct Hin as (Hitems' & Hemail & Hname & _ & -> & -> & ->).
  rewrite Hitems in Hitems'. injection Hitems' as <-. cbn [ec_productName].
  destruct (Js.or _ _) as [email|]; [|done]. simpl.
  split; [done|]. split.
  { intros ->. done. }
  split; [done|].
  rewrite purchased_name_last in Hname |- *.
  by destruct (last _).
Qed.

(** X9. [handleCheckoutCompleted] starts a notification, and then exactly
    one, if and only if the line items could be fetched, the session has a
    buyer e-mail, some purchased price identifier has a product name and some
    purchased price identifier has a registration link. *)
Theorem notification_sent_iff (catalog : Catalog) (stripe : Stripe)
    (sendgrid : nat → FetchOutcome) (clock : Z) (session : CheckoutSession)
    (files : Files) :
  let calls := (handleCheckoutCompleted catalog stripe sendgrid clock session files).2 in
  (count is_dispatch calls ≤ 1)%nat
  ∧ (count is_dispatch calls = 1%nat ↔
     ∃ lineItems,
       listLineItems stripe (session_id session) = Ok lineItems
       ∧ Js.truthy (Js.or (customer_details_email session)
                          (customer_email session)) = true
       ∧ (∃ p, p ∈ purchasedPriceIds lineItems
               ∧ Js.truthy (PRODUCT_NAME_MAP catalog !! p) = true)
       ∧ (∃ p keys, p ∈ purchasedPriceIds lineItems
                    ∧ ZOOM_LINK_MAP catalog !! p = Some keys ∧ keys ≠ [])).
Proof.
  intros calls. subst calls. split; [|apply handleCheckoutCompleted_notifies].
  pose proof (handleCheckoutCompleted_calls catalog stripe sendgrid clock session files)
    as Hcalls.
  destruct (handleCheckoutCompleted _ _ _ _ _ _) as [[r f] calls]. tauto.
Qed.

(** X10. When the line items of a new purchase-completed event cannot be
    fetched, the webhook answers with status 500 and changes no file: the
    event is not marked as processed, so a redelivery is handled again. *)
Theorem line_item_failure_not_committed (catalog : Catalog) (stripe : Stripe)
    (sendgrid : nat → FetchOutcome) (clock : Z) (secret : option string)
    (req : WebhookRequest) (event : StripeEvent) (files : Files) (e : JsError) :
  constructEvent stripe (req_body req) (stripe_signature req) secret = Ok event →
  event_type event = "checkout.session.completed" →
  event_id event ∉ processed_events files →
  listLineItems stripe (session_id (event_object event)) = Throw e →
  stripe_webhook catalog stripe sendgrid clock secret req files =
    (Ok {| status := 500; body := WebhookText "Webhook handler error" |}, files,
     [ConstructEvent true; LoadProcessedEvents;
      ListLineItems (session_id (event_object event)) false]).
Proof.
  intros Hsig Htype Hnew Hitems.
  rewrite stripe_webhook_eq, Hsig, bool_decide_false, Htype by done. simpl String.eqb.
  by rewrite handleCheckoutCompleted_eq, Hitems.
Qed.

(** X11. A new purchase-completed event without buyer e-mail (neither in
    [customer_details] nor in [customer_email], or empty) is answered
    [received] and marked as processed after the line items were fetched;
    the catalog is not looked up and nothing is sent or recorded. *)
Theorem missing_buyer_email_committed (catalog : Catalog) (stripe : Stripe)
    (sendgrid : nat → FetchOutcome) (clock : Z) (secret : option string)
    (req : WebhookRequest) (event : StripeEvent) (lineItems : list Item)
    (files : Files) :
  constructEvent stripe (req_body req) (stripe_signature req) secret = Ok event →
  event_type event = "checkout.session.completed" →
  event_id event ∉ processed_events files →
  listLineItems stripe (session_id (event_object event)) = Ok lineItems →
  Js.truthy (Js.or (customer_details_email (event_object event))
                   (customer_email (event_object event))) = false →
  stripe_webhook catalog stripe sendgrid clock secret req files =
    (Ok {| status := 200; body := Received |},
     {| data_dir := true;
        processed_events := {[event_id event]} ∪ processed_events files;
        failed_emails := failed_emails files |},
     [ConstructEvent true; LoadProcessedEvents;
      ListLineItems (session_id (event_object event)) true;
      LoadProcessedEvents; SaveProcessedEvent (event_id event)]).
Proof.
  intros Hsig Htype Hnew Hitems Hemail.
  rewrite stripe_webhook_eq, Hsig, bool_decide_false, Htype by done. simpl String.eqb.
  rewrite handleCheckoutCompleted_eq, Hitems. cbn zeta. by rewrite Hemail.
Qed.

(** X12. Whatever the request, the webhook only adds to its two files and
    keeps the data directory: every processed identifier stays, the only
    identifier that can be added is the one of the verified event, and the
    failed e-mails are extended at their end by at most one entry.
    [recordFailedEmail] is called at most once; with the data directory in
    place each call appends its entry, without it nothing is appended. *)
Theorem webhook_files_grow (catalog : Catalog) (stripe : Stripe)
    (sendgrid : nat → FetchOutcome) (clock : Z) (secret : option string)
    (req : WebhookRequest) (files : Files) :
  let '(_, files', calls) :=
    stripe_webhook catalog stripe sendgrid clock secret req files in
  processed_events files ⊆ processed_events files'
  ∧ (∀ id, id ∈ processed_events files' →
       id ∈ processed_events files
       ∨ ∃ event, constructEvent stripe (req_body req) (stripe_signature req) secret
                    = Ok event
                  ∧ event_id event = id)
  ∧ (data_dir files = true → data_dir files' = true)
  ∧ ∃ added, failed_emails files' = failed_emails files ++ added
             ∧ (length added ≤ 1)%nat
             ∧ (count is_failure_record calls ≤ 1)%nat
             ∧ (if data_dir files then length added = count is_failure_record calls
                else added = []).
Proof.
  assert (Hnone : ∀ dir : bool,
            if dir then length (@nil FailedEmail) = 0%nat else @nil FailedEmail = [])
    by (by intros []).
  rewrite stripe_webhook_eq.
  destruct (constructEvent _ _ _ _) as [event|err].
  2: { split; [done|]. split; [by left|]. split; [done|].
       exists []. rewrite app_nil_r. cbn. split_and!; [done|lia|lia|apply Hnone]. }
  case_bool_decide.
  { split; [done|]. split; [by left|]. split; [done|].
    exists []. rewrite app_nil_r. cbn. split_and!; [done|lia|lia|apply Hnone]. }
  assert (Hact :
    let '(r, files1, calls) :=
      if String.eqb (event_type event) "checkout.session.completed"
      then handleCheckoutCompleted catalog stripe sendgrid clock (event_object event) files
      else (Ok tt, files, []) in
    ∃ added,
      processed_events files1 = processed_events files
      ∧ data_dir files1 = data_dir files
      ∧ failed_emails files1 = failed_emails files ++ added
      ∧ (count is_failure_record calls ≤ 1)%nat
      ∧ (if data_dir files then length added = count is_failure_record calls
         else added = [])
      ∧ (is_ok r = true → length added = count is_failure_record calls)).
  { destruct (String.eqb _ _); [apply handleCheckoutCompleted_files|].
    exists []. rewrite app_nil_r. cbn.
    split_and!; [done|done|done|lia|apply Hnone|done]. }
  destruct (if String.eqb _ _ then _ else _) as [[[[]|e] files1] calls];
    destruct Hact as (added & Hp & Hd & Hf & Hle & Hdir & _);
    cbn [processed_events failed_emails data_dir].
  - split; [rewrite Hp; apply union_subseteq_r|]. split; [|split; [done|]].
    + intros id [Hid|Hid]%elem_of_union.
      * apply elem_of_singleton in Hid. right. by exists event.
      * left. by rewrite <- Hp.
    + exists added. count_simpl.
      destruct (data_dir files); [|subst added]; split_and!; (done || simpl; lia).
  - split; [by rewrite Hp|]. split; [|split; [by rewrite Hd|]].
    + intros id Hid. left. by rewrite <- Hp.
    + exists added. count_simpl.
      destruct (data_dir files); [|subst added]; split_and!; (done || simpl; lia).
Qed.

(** ** Catalog *)

Lemma zoom_links_have_meetings (ids : PriceIds) (p : string) (keys : list string) :
  ZOOM_LINK_MAP (catalog_of ids) !! p = Some keys →
  Forall (λ k, is_Some (MEETING_NAME_MAP !! k)) keys.
Proof.
  unfold catalog_of, object_literal. cbn [ZOOM_LINK_MAP fst snd].
  rewrite !lookup_insert, !lookup_empty.
  repeat case_decide; intros [= <-]; by repeat constructor.
Qed.

Lemma archive_keys_in_display_order (ids : PriceIds) (p : string) (keys : list string) :
  ARCHIVE_SESSION_MAP (catalog_of ids) !! p = Some keys →
  filter (λ k, k ∈ keys) ALL_SESSION_KEYS = keys.
Proof.
  unfold catalog_of, object_literal. cbn [ARCHIVE_SESSION_MAP fst snd].
  rewrite !lookup_insert, !lookup_empty.
  repeat case_decide; intros [= <-]; by vm_compute.
Qed.

(** X13. However the four price variables are set (also unset, or set to the
    same value), the three tables know the same price identifiers; every
    product name is non-empty; every list of registration links contains [F]
    and only keys that have a meeting name; and every archive list is
    non-empty and is a selection of the seven session keys in display
    order. *)
Theorem catalog_tables_agree (ids : PriceIds) (p : string) :
  let catalog := catalog_of ids in
  (PRODUCT_NAME_MAP catalog !! p = None ↔ ZOOM_LINK_MAP catalog !! p = None)
  ∧ (ZOOM_LINK_MAP catalog !! p = None ↔ ARCHIVE_SESSION_MAP catalog !! p = None)
  ∧ (∀ name, PRODUCT_NAME_MAP catalog !! p = Some name → name ≠ "")
  ∧ (∀ keys, ZOOM_LINK_MAP catalog !! p = Some keys →
       "F" ∈ keys ∧ Forall (λ k, is_Some (MEETING_NAME_MAP !! k)) keys)
  ∧ (∀ keys, ARCHIVE_SESSION_MAP catalog !! p = Some keys →
       keys ≠ [] ∧ filter (λ k, k ∈ keys) ALL_SESSION_KEYS = keys).
Proof.
  unfold catalog_of, object_literal.
  cbn [PRODUCT_NAME_MAP ZOOM_LINK_MAP ARCHIVE_SESSION_MAP fst snd].
  rewrite !lookup_insert, !lookup_empty.
  repeat case_decide; (split_and!; [done|done|..]).
  all: try (intros x [= <-]; done).
  all: try (intros x [= <-]; split; [elem_lit|by repeat constructor]).
  all: try (intros x [= <-]; split; [done|by vm_compute]).
  all: done.
Qed.

(** ** Entitlement resolver: what each channel grants *)

Section ChannelKeys.
Variable catalog : Catalog.
Variable stripe : Stripe.

Lemma add_archive_keys_elem lineItems : ∀ keys k,
  k ∈ add_archive_keys catalog lineItems keys ↔
  k ∈ keys ∨ ∃ item p mapped,
    item ∈ lineItems ∧ item_price_id item = Some p ∧ p ≠ ""
    ∧ ARCHIVE_SESSION_MAP catalog !! p = Some mapped ∧ k ∈ mapped.
Proof.
  unfold add_archive_keys.
  induction lineItems as [|item lineItems IH]; intros keys k; simpl.
  { split; [by left|]. intros [?|(item & ? & ? & Hin & _)]; [done|].
    by apply elem_of_nil in Hin. }
  rewrite IH. clear IH.
  assert (Hhead : ∀ keys' : list string,
    (k ∈ keys' ↔ k ∈ keys ∨ ∃ p mapped, item_price_id item = Some p ∧ p ≠ ""
       ∧ ARCHIVE_SESSION_MAP catalog !! p = Some mapped ∧ k ∈ mapped) →
    (k ∈ keys' ∨ (∃ item' p mapped, item' ∈ lineItems ∧ item_price_id item' = Some p
        ∧ p ≠ "" ∧ ARCHIVE_SESSION_MAP catalog !! p = Some mapped ∧ k ∈ mapped))
    ↔ (k ∈ keys ∨ ∃ item' p mapped, item' ∈ item :: lineItems
        ∧ item_price_id item' = Some p ∧ p ≠ ""
        ∧ ARCHIVE_SESSION_MAP catalog !! p = Some mapped ∧ k ∈ mapped)).
  { intros keys' ->. split.
    - intros [[?|(p & mapped & ?)]|(item' & p & mapped & ? & ?)].
      + by left.
      + right. exists item, p, mapped. split; [left|done].
      + right. exists item', p, mapped. split; [by right|done].
    - intros [?|(item' & p & mapped & [->|?]%elem_of_cons & ?)].
      + left. by left.
      + left. right. by exists p, mapped.
      + right. by exists item', p, mapped. }
  apply Hhead.
  destruct (item_price_id item) as [p|] eqn:Hp; simpl.
  2: { split; [by left|]. by intros [?|(? & ? & ? & _)]. }
  destruct (String.eqb p "") eqn:Hempty; simpl.
  { apply String.eqb_eq in Hempty. split; [by left|].
    intros [?|(? & ? & [= <-] & ? & _)]; done. }
  apply String.eqb_neq in Hempty.
  destruct (ARCHIVE_SESSION_MAP catalog !! p) as [mapped|] eqn:Hm.
  - rewrite elem_of_set_add_all. split.
    + intros [?|?]; [right|by left]. by exists p, mapped.
    + intros [?|(? & ? & [= <-] & _ & Hm' & ?)]; [by right|].
      rewrite Hm in Hm'. injection Hm' as <-. by left.
  - split; [by left|].
    intros [?|(? & ? & [= <-] & _ & Hm' & _)]; [done|]. by rewrite Hm in Hm'.
Qed.

Lemma session_line_items_keys session l :
  ∃ l' returned,
    session_line_items catalog stripe session l
      = (Ok tt, l', [ListLineItems (session_id session) returned])
    ∧ allCustomers l' = allCustomers l
    ∧ ∀ k, k ∈ purchasedSessionKeys l' ↔
        k ∈ purchasedSessionKeys l ∨ purchased_in catalog stripe session k.
Proof.
  unfold session_line_items, try_catch, bind, call, set_keys, modify, ret, purchased_in.
  destruct (listLineItems stripe (session_id session)) as [lineItems|e]; simpl.
  - eexists _, _. split; [done|]. split; [done|]. intros k. simpl.
    rewrite add_archive_keys_elem. split.
    + intros [?|(item & p & mapped & ?)]; [by left|]. right.
      by exists lineItems, item, p, mapped.
    + intros [?|(? & item & p & mapped & [= <-] & ?)]; [by left|]. right.
      by exists item, p, mapped.
  - eexists _, _. split; [done|]. split; [done|]. intros k. split; [by left|].
    by intros [?|(? & ? & ? & ? & ? & _)].
Qed.

Lemma sessions_loop_keys sessions : ∀ l,
  ∃ l' calls,
    sessions_loop catalog stripe sessions l = (Ok tt, l', calls)
    ∧ line_item_fetches calls
    ∧ allCustomers l' = allCustomers l
    ∧ ∀ k, k ∈ purchasedSessionKeys l' ↔
        k ∈ purchasedSessionKeys l
        ∨ ∃ s, s ∈ sessions ∧ payment_qualifies s = true
               ∧ purchased_in catalog stripe s k.
Proof.
  induction sessions as [|session sessions IH]; intros l; simpl.
  { eexists _, _. split; [done|]. split; [constructor|]. split; [done|].
    intros k. split; [by left|]. intros [?|(? & Hin & _)]; [done|].
    by apply elem_of_nil in Hin. }
  unfold bind. destruct (payment_qualifies session) eqn:Hq.
  - destruct (session_line_items_keys session l) as (l1 & b & -> & Hc1 & Hk1).
    destruct (IH l1) as (l2 & calls & -> & Hcalls & Hc2 & Hk2).
    eexists _, _. split; [done|]. split; [by constructor|].
    split; [congruence|]. intros k. rewrite Hk2, Hk1. split.
    + intros [[?|?]|(s & ? & ?)]; [by left| |].
      * right. exists session. split; [left|done].
      * right. exists s. split; [by right|done].
    + intros [?|(s & [->|?]%elem_of_cons & ? & ?)].
      * left. by left.
      * left. by right.
      * right. by exists s.
  - unfold ret. destruct (IH l) as (l2 & calls & -> & Hcalls & Hc2 & Hk2).
    eexists _, _. split; [done|]. split; [done|]. split; [done|].
    intros k. rewrite Hk2. split.
    + intros [?|(s & ? & ?)]; [by left|]. right. exists s. split; [by right|done].
    + intros [?|(s & [->|?]%elem_of_cons & Hq' & ?)]; [by left|congruence|].
      right. by exists s.
Qed.

Lemma guest_sessions_loop_keys email sessions : ∀ l,
  ∃ l' calls,
    guest_sessions_loop catalog stripe email sessions l = (Ok tt, l', calls)
    ∧ line_item_fetches calls
    ∧ allCustomers l' = allCustomers l
    ∧ ∀ k, k ∈ purchasedSessionKeys l' ↔
        k ∈ purchasedSessionKeys l
        ∨ ∃ s, s ∈ sessions ∧ session_email s = email
               ∧ payment_qualifies s = true ∧ purchased_in catalog stripe s k.
Proof.
  induction sessions as [|session sessions IH]; intros l; simpl.
  { eexists _, _. split; [done|]. split; [constructor|]. split; [done|].
    intros k. split; [by left|]. intros [?|(? & Hin & _)]; [done|].
    by apply elem_of_nil in Hin. }
  unfold bind. fold (session_email session).
  destruct (String.eqb (session_email session) email) eqn:He; simpl;
    [destruct (payment_qualifies session) eqn:Hq|].
  - apply String.eqb_eq in He.
    destruct (session_line_items_keys session l) as (l1 & b & -> & Hc1 & Hk1).
    destruct (IH l1) as (l2 & calls & -> & Hcalls & Hc2 & Hk2).
    eexists _, _. split; [done|]. split; [by constructor|].
    split; [congruence|]. intros k. rewrite Hk2, Hk1. split.
    + intros [[?|?]|(s & ? & ?)]; [by left| |].
      * right. exists session. split; [left|done].
      * right. exists s. split; [by right|done].
    + intros [?|(s & [->|?]%elem_of_cons & ? & ? & ?)].
      * left. by left.
      * left. by right.
      * right. by exists s.
  - unfold ret. destruct (IH l) as (l2 & calls & -> & Hcalls & Hc2 & Hk2).
    eexists _, _. split; [done|]. split; [done|]. split; [done|].
    intros k. rewrite Hk2. split.
    + intros [?|(s & ? & ?)]; [by left|]. right. exists s. split; [by right|done].
    + intros [?|(s & [->|?]%elem_of_cons & ? & Hq' & ?)]; [by left|congruence|].
      right. by exists s.
  - apply String.eqb_neq in He.
    unfold ret. destruct (IH l) as (l2 & calls & -> & Hcalls & Hc2 & Hk2).
    eexists _, _. split; [done|]. split; [done|]. split; [done|].
    intros k. rewrite Hk2. split.
    + intros [?|(s & ? & ?)]; [by left|]. right. exists s. split; [by right|done].
    + intros [?|(s & [->|?]%elem_of_cons & He' & ?)]; [by left|congruence|].
      right. by exists s.
Qed.

End ChannelKeys.

Section ResolverKeys.
Variable catalog : Catalog.
Variable stripe : Stripe.

(** [key] is granted by a paid checkout session of one of the customers. *)
Let bought_by (customers : list Customer) (k : string) : Prop :=
  ∃ c sessions s,
    c ∈ customers
    ∧ sessions_list stripe (Some (customer_id c)) = Ok sessions
    ∧ s ∈ sessions ∧ payment_qualifies s = true ∧ purchased_in catalog stripe s k.

(** [key] is granted by a paid recent checkout session with the e-mail. *)
Let bought_as_guest (email : string) (k : string) : Prop :=
  ∃ recent s,
    sessions_list stripe None = Ok recent
    ∧ s ∈ recent ∧ session_email s = email
    ∧ payment_qualifies s = true ∧ purchased_in catalog stripe s k.

Lemma purchase_customers_loop_keys customers : ∀ l,
  let '(r, l', calls) := purchase_customers_loop catalog stripe customers l in
  Forall (λ c, is_stripe_lookup c = true ∧ is_recent_listing c = false) calls
  ∧ match r with
    | Ok _ =>
        allCustomers l' = allCustomers l
        ∧ ∀ k, k ∈ purchasedSessionKeys l' ↔
            k ∈ purchasedSessionKeys l ∨ bought_by customers k
    | Throw _ =>
        ∃ c, c ∈ customers
             ∧ is_ok (sessions_list stripe (Some (customer_id c))) = false
    end.
Proof.
  induction customers as [|c customers IH]; intros l; simpl.
  { split; [constructor|]. split; [done|]. intros k. split; [by left|].
    intros [?|(? & ? & ? & Hin & _)]; [done|]. by apply elem_of_nil in Hin. }
  unfold bind at 1, call.
  destruct (sessions_list stripe (Some (customer_id c))) as [sessions|e] eqn:Hs; simpl.
  2: { split; [by repeat constructor|]. exists c. split; [left|by rewrite Hs]. }
  unfold bind at 1.
  destruct (sessions_loop_keys catalog stripe sessions l)
    as (l1 & calls1 & -> & Hcalls1 & Hc1 & Hk1).
  specialize (IH l1).
  destruct (purchase_customers_loop catalog stripe customers l1) as [[r l2] calls2].
  destruct IH as [Hcalls2 IH]. split.
  { constructor; [done|]. apply Forall_app. split; [|done].
    eapply Forall_impl; [exact Hcalls1|]. by intros ? (? & ? & _). }
  destruct r as [[]|e].
  - destruct IH as [Hc2 Hk2]. split; [congruence|]. intros k.
    rewrite Hk2, Hk1. unfold bought_by. split.
    + intros [[?|(s & ? & ?)]|(c' & sessions' & s & ? & ?)]; [by left| |].
      * right. exists c, sessions, s. split; [left|done].
      * right. exists c', sessions', s. split; [by right|done].
    + intros [?|(c' & sessions' & s & [->|?]%elem_of_cons & Hs' & ?)].
      * left. by left.
      * rewrite Hs in Hs'. injection Hs' as <-. left. right. by exists s.
      * right. by exists c', sessions', s.
  - destruct IH as (c' & ? & ?). exists c'. split; [by right|done].
Qed.

Lemma subscription_customers_loop_state customers : ∀ l,
  purchasedSessionKeys l = [] →
  ∃ r calls,
    subscription_customers_loop stripe customers l
      = (r, if finds_member stripe customers then grant_all l else l, calls)
    ∧ Forall (λ c, is_stripe_lookup c = true ∧ is_recent_listing c = false
                   ∧ is_checkout_lookup c = false) calls.
Proof.
  induction customers as [|c customers IH]; intros l Hkeys; simpl.
  { eexists _, _. split; [done|constructor]. }
  unfold bind at 1, call.
  destruct (subscriptions_list stripe (customer_id c)) as [subs|e]; simpl.
  2: { eexists _, _. split; [done|by repeat constructor]. }
  unfold bind at 1. rewrite subscriptions_loop_eq by done.
  destruct (circle_member subs); simpl.
  - eexists _, _. split; [done|by repeat constructor].
  - unfold bind at 1, keys_size, bind, get, ret. simpl. rewrite Hkeys. simpl.
    destruct (IH l Hkeys) as (r & calls & -> & Hcalls).
    eexists _, _. split; [done|by constructor].
Qed.

Lemma subscription_channel_state email :
  ∃ calls,
    subscription_channel stripe email new_locals
      = (Ok tt,
         {| purchasedSessionKeys :=
              if finds_member stripe (customers_found stripe email)
              then ALL_SESSION_KEYS else [];
            allCustomers := customers_found stripe email |}, calls)
    ∧ Forall (λ c, is_stripe_lookup c = true ∧ is_recent_listing c = false
                   ∧ is_checkout_lookup c = false) calls.
Proof.
  unfold subscription_channel, customers_found, try_catch, bind at 1, call.
  destruct (customers_list stripe email) as [customers|e]; simpl.
  2: { eexists. split; [done|by repeat constructor]. }
  unfold bind at 1, set_allCustomers, modify. simpl.
  destruct (subscription_customers_loop_state customers
              {| purchasedSessionKeys := []; allCustomers := customers |} eq_refl)
    as (r & calls & -> & Hcalls).
  destruct r as [[]|e]; eexists; (split; [by destruct (finds_member _ _)|]).
  - by constructor.
  - rewrite app_nil_r. by constructor.
Qed.

Lemma purchase_channels_keys email l :
  purchasedSessionKeys l = [] →
  let '(r, l', calls) := purchase_channels catalog stripe email l in
  Forall (λ c, is_stripe_lookup c = true) calls
  ∧ (allCustomers l ≠ [] → Forall (λ c, is_recent_listing c = false) calls)
  ∧ match r with
    | Ok _ =>
        ∀ k, k ∈ purchasedSessionKeys l' ↔
          bought_by (allCustomers l) k
          ∨ (allCustomers l = [] ∧ bought_as_guest email k)
    | Throw _ =>
        (∃ c, c ∈ allCustomers l
              ∧ is_ok (sessions_list stripe (Some (customer_id c))) = false)
        ∨ (allCustomers l = [] ∧ is_ok (sessions_list stripe None) = false)
    end.
Proof.
  intros Hkeys.
  unfold purchase_channels, keys_size, bind at 1, bind at 1, get, ret. simpl.
  rewrite Hkeys. simpl. unfold bind at 1. simpl. unfold bind at 1.
  pose proof (purchase_customers_loop_keys (allCustomers l) l) as Hloop.
  destruct (purchase_customers_loop catalog stripe (allCustomers l) l)
    as [[[[]|e] l1] calls1]; destruct Hloop as [Hcalls1 Hloop].
  2: { split; [eapply Forall_impl; [exact Hcalls1|]; by intros ? [? ?]|].
       split; [|by left].
       intros _. eapply Forall_impl; [exact Hcalls1|]. by intros ? [? ?]. }
  destruct Hloop as [Hc1 Hk1]. unfold bind at 1. simpl. rewrite Hc1.
  assert (Hlook1 : Forall (λ c, is_stripe_lookup c = true) calls1)
    by (eapply Forall_impl; [exact Hcalls1|]; by intros ? [? ?]).
  assert (Hrec1 : Forall (λ c, is_recent_listing c = false) calls1)
    by (eapply Forall_impl; [exact Hcalls1|]; by intros ? [? ?]).
  destruct (allCustomers l) as [|c customers] eqn:Hall.
  - assert (Hnone : ∀ k, ¬ bought_by [] k).
    { intros k (? & ? & ? & Hin & _). by apply elem_of_nil in Hin. }
    assert (Hempty : purchasedSessionKeys l1 = []).
    { destruct (purchasedSessionKeys l1) as [|k rest]; [done|].
      exfalso. destruct (proj1 (Hk1 k) ltac:(left)) as [Hk|Hk].
      - rewrite Hkeys in Hk. by apply elem_of_nil in Hk.
      - by apply Hnone in Hk. }
    rewrite Hempty. simpl. unfold bind at 1, call.
    destruct (sessions_list stripe None) as [recent|e] eqn:Hrecent; simpl.
    + destruct (guest_sessions_loop_keys catalog stripe email recent l1)
        as (l2 & calls2 & -> & Hcalls2 & _ & Hk2).
      split; [|split; [done|]].
      { apply Forall_app. split; [done|]. constructor; [done|].
        eapply Forall_impl; [exact Hcalls2|]. by intros ? (? & _). }
      intros k. rewrite Hk2, Hempty. unfold bought_as_guest. split.
      * intros [Hk|(s & ?)]; [by apply elem_of_nil in Hk|].
        right. split; [done|]. by exists recent, s.
      * intros [Hk|[_ (recent' & s & [= <-] & ?)]]; [by apply Hnone in Hk|].
        right. by exists s.
    + split; [|split; [done|by right]].
      apply Forall_app. split; [done|by repeat constructor].
  - replace ((length (purchasedSessionKeys l1) =? 0)%nat
             && (length (c :: customers) =? 0)%nat) with false
      by (by rewrite andb_false_r).
    unfold ret. rewrite !app_nil_r. split; [done|]. split; [done|].
    intros k. rewrite Hk1, Hkeys. split.
    + intros [Hk|?]; [by apply elem_of_nil in Hk|by left].
    + intros [?|[? _]]; [by right|done].
Qed.

(** The resolver, run: the server-error page when a checkout-session listing
    that is consulted throws, and otherwise the page of the keys granted by
    the first channel that grants any. *)
Lemma resolve_entitlement_keys email :
  let customers := customers_found stripe email in
  ∃ response l calls,
    resolve_entitlement catalog stripe email new_locals = (Ok response, l, calls)
    ∧ Forall (λ c, is_stripe_lookup c = true) calls
    ∧ (customers ≠ [] → Forall (λ c, is_recent_listing c = false) calls)
    ∧ (finds_member stripe customers = true →
       response = page_of ALL_SESSION_KEYS
       ∧ Forall (λ c, is_checkout_lookup c = false) calls)
    ∧ (finds_member stripe customers = false →
       (response = {| status := 500; body := ErrorPage ServerError |}
        ∧ ((∃ c, c ∈ customers
                 ∧ is_ok (sessions_list stripe (Some (customer_id c))) = false)
           ∨ (customers = [] ∧ is_ok (sessions_list stripe None) = false)))
       ∨ ∃ keys, response = page_of keys
           ∧ ∀ k, k ∈ keys ↔
               bought_by customers k ∨ (customers = [] ∧ bought_as_guest email k)).
Proof.
  intros customers. unfold resolve_entitlement, try_catch, bind at 1.
  destruct (subscription_channel_state email) as (calls1 & -> & Hcalls1).
  fold customers. unfold bind at 1.
  assert (Hlook1 : Forall (λ c, is_stripe_lookup c = true) calls1)
    by (eapply Forall_impl; [exact Hcalls1|]; by intros ? (? & _)).
  assert (Hrec1 : Forall (λ c, is_recent_listing c = false) calls1)
    by (eapply Forall_impl; [exact Hcalls1|]; by intros ? (? & ? & _)).
  destruct (finds_member stripe customers) eqn:Hmember.
  - unfold purchase_channels, keys_size, bind at 1, bind at 1, get, ret.
    cbn [purchasedSessionKeys ALL_SESSION_KEYS length Nat.eqb].
    rewrite entitlement_page_eq.
    eexists _, _, _. split; [done|]. rewrite !app_nil_r.
    split; [done|]. split; [done|]. split; [|done]. intros _. split; [done|].
    eapply Forall_impl; [exact Hcalls1|]. by intros ? (? & ? & ?).
  - match goal with
    | |- context [purchase_channels catalog stripe email ?l] =>
        pose proof (purchase_channels_keys email l eq_refl) as Hpurchase;
        destruct (purchase_channels catalog stripe email l) as [[[[]|e] l2] calls2]
    end; cbn [allCustomers] in Hpurchase;
      destruct Hpurchase as (Hlook2 & Hrec2 & Hkeys).
    + rewrite entitlement_page_eq. eexists _, _, _. split; [done|].
      rewrite !app_nil_r. split; [by apply Forall_app|]. split.
      { intros Hne. apply Forall_app. split; [done|by apply Hrec2]. }
      split; [done|]. intros _. right. by exists (purchasedSessionKeys l2).
    + unfold ret. eexists _, _, _. split; [done|].
      rewrite !app_nil_r. split; [by apply Forall_app|]. split.
      { intros Hne. apply Forall_app. split; [done|by apply Hrec2]. }
      split; [done|]. intros _. by left.
Qed.

End ResolverKeys.

Lemma page_of_video (keys ks : list string) :
  body (page_of keys) = VideoPage ks →
  keys ≠ [] ∧ ks = filter (λ k, k ∈ keys) ALL_SESSION_KEYS.
Proof.
  unfold page_of. destruct keys as [|k keys]; simpl; [done|]. by intros [= <-].
Qed.

(** X14. With the catalog of the server, whatever Stripe answers, a video
    page is sent with status 200 and lists at least one session key, and its
    keys are a selection of [A, B, C, D, E1, E2, F] in that order, each at
    most once. *)
Theorem video_page_keys_canonical (ids : PriceIds) (stripe : Stripe) (email : string)
    (response : HttpResponse ArchivePage) (ks : list string) :
  (resolve_entitlement (catalog_of ids) stripe email new_locals).1.1 = Ok response →
  body response = VideoPage ks →
  status response = 200
  ∧ ks ≠ []
  ∧ ks `sublist_of` ALL_SESSION_KEYS.
Proof.
  intros Hrun Hbody.
  destruct (resolve_entitlement_keys (catalog_of ids) stripe email)
    as (response' & l & calls & Heq & _ & _ & Hmember & Hother).
  rewrite Heq in Hrun. injection Hrun as ->.
  assert (Hpage : ∀ keys, response = page_of keys →
            (∀ k, k ∈ keys → k ∈ ALL_SESSION_KEYS) →
            status response = 200 ∧ ks ≠ [] ∧ ks `sublist_of` ALL_SESSION_KEYS).
  { intros keys -> Hall. apply page_of_video in Hbody as [Hne ->].
    split; [unfold page_of; by destruct (length keys =? 0)%nat|].
    split; [|apply sublist_filter].
    destruct keys as [|k keys]; [done|]. intros Hnil.
    apply (elem_of_nil k). rewrite <- Hnil. apply list_elem_of_filter.
    split; [left|apply Hall; left]. }
  destruct (finds_member stripe (customers_found stripe email)).
  { destruct (Hmember eq_refl) as [-> _]. by apply (Hpage ALL_SESSION_KEYS). }
  destruct (Hother eq_refl) as [[-> _]|(keys & -> & Hkeys)]; [done|].
  apply (Hpage keys); [done|]. intros k Hk.
  assert (Hbought : ∀ s, purchased_in (catalog_of ids) stripe s k →
                         k ∈ ALL_SESSION_KEYS).
  { intros s (lineItems & item & p & mapped & _ & _ & _ & _ & Hmapped & Hin).
    rewrite <- (archive_keys_in_display_order ids p mapped Hmapped) in Hin. by apply list_elem_of_filter in Hin as [_ ?]. }
  apply Hkeys in Hk as [(c & sessions & s & _ & _ & _ & _ & Hs)
                       |[_ (recent & s & _ & _ & _ & _ & Hs)]];
    by apply (Hbought s).
Qed.

(** X15. When the customer lookup finds a customer record for the e-mail,
    the recent checkout sessions are never listed: the guest channel is left
    out even if the customers' own purchases grant nothing. *)
Theorem guest_channel_skipped_for_customers (catalog : Catalog) (stripe : Stripe)
    (email : string) (c : Customer) (customers : list Customer) :
  customers_list stripe email = Ok (c :: customers) →
  count is_recent_listing (resolve_entitlement catalog stripe email new_locals).2
  = 0%nat.
Proof.
  intros Hcustomers.
  destruct (resolve_entitlement_keys catalog stripe email)
    as (response & l & calls & -> & _ & Hrecent & _).
  unfold customers_found in Hrecent. rewrite Hcustomers in Hrecent.
  by apply count_none, Hrecent.
Qed.

(** X16. Guest purchases. When no customer record is found for the e-mail
    (none exists, or the lookup threw) and the recent checkout sessions can
    be listed, the keys granted are exactly the archive keys of the line
    items of those recent sessions whose e-mail, lower-cased, is the e-mail
    asked for and whose payment status is [paid] or [no_payment_required];
    the answer is the video page of these keys in display order, or the "not
    found" page when there are none. *)
Theorem guest_fallback (catalog : Catalog) (stripe : Stripe) (email : string)
    (recent : list CheckoutSession) :
  (∀ c customers, customers_list stripe email ≠ Ok (c :: customers)) →
  sessions_list stripe None = Ok recent →
  ∃ keys,
    (resolve_entitlement catalog stripe email new_locals).1.1 = Ok (page_of keys)
    ∧ ∀ k, k ∈ keys ↔
        ∃ s, s ∈ recent ∧ session_email s = email
             ∧ payment_qualifies s = true ∧ purchased_in catalog stripe s k.
Proof.
  intros Hnone Hrecent.
  assert (Hfound : customers_found stripe email = []).
  { unfold customers_found.
    destruct (customers_list stripe email) as [[|c customers]|e] eqn:E; try done.
    by destruct (Hnone c customers). }
  destruct (resolve_entitlement_keys catalog stripe email)
    as (response & l & calls & -> & _ & _ & _ & Hother).
  rewrite Hfound in Hother.
  destruct (Hother eq_refl) as [[_ [(c & Hc & _)|[_ Hfail]]]|(keys & -> & Hkeys)].
  - by apply elem_of_nil in Hc.
  - by rewrite Hrecent in Hfail.
  - exists keys. split; [done|]. intros k. rewrite Hkeys. split.
    + intros [(c & ? & ? & Hc & _)|[_ (recent' & s & Hr & ?)]].
      * by apply elem_of_nil in Hc.
      * rewrite Hrecent in Hr. injection Hr as <-. by exists s.
    + intros (s & ?). right. split; [done|]. by exists recent, s.
Qed.

(** X17. Purchases of registered customers. When customer records are found,
    the subscription channel grants nothing (no member of the circle is
    reached, be it because a subscription listing threw) and the checkout
    sessions of every customer can be listed, the keys granted are exactly
    the archive keys of the line items of the customers' sessions whose
    payment status is [paid] or [no_payment_required]; a session whose line
    items cannot be fetched contributes nothing. *)
Theorem registered_purchases (catalog : Catalog) (stripe : Stripe) (email : string)
    (customers : list Customer) :
  customers_list stripe email = Ok customers →
  customers ≠ [] →
  finds_member stripe customers = false →
  Forall (λ c, is_ok (sessions_list stripe (Some (customer_id c))) = true) customers →
  ∃ keys,
    (resolve_entitlement catalog stripe email new_locals).1.1 = Ok (page_of keys)
    ∧ ∀ k, k ∈ keys ↔
        ∃ c sessions s,
          c ∈ customers
          ∧ sessions_list stripe (Some (customer_id c)) = Ok sessions
          ∧ s ∈ sessions ∧ payment_qualifies s = true
          ∧ purchased_in catalog stripe s k.
Proof.
  intros Hcustomers Hne Hmember Hlist.
  destruct (resolve_entitlement_keys catalog stripe email)
    as (response & l & calls & -> & _ & _ & _ & Hother).
  unfold customers_found in Hother. rewrite Hcustomers in Hother.
  destruct (Hother Hmember) as [[_ [(c & Hc & Hfail)|[? _]]]|(keys & -> & Hkeys)].
  - rewrite Forall_forall in Hlist. rewrite (Hlist c Hc) in Hfail. done.
  - done.
  - exists keys. split; [done|]. intros k. rewrite Hkeys. split.
    + by intros [?|[? _]].
    + by left.
Qed.

(** ** The handler of [/archive/verify] *)

Lemma email_regex_test_nonempty email :
  email_regex_test email = true → Js.truthy (Some email) = true.
Proof. by destruct email. Qed.

(** The resolver starts with the customer lookup for the address. *)
Lemma subscription_channel_first stripe email :
  ∃ l rest,
    subscription_channel stripe email new_locals
    = (Ok tt, l, CustomersList email (is_ok (customers_list stripe email)) :: rest).
Proof.
  unfold subscription_channel, try_catch, bind at 1, call.
  destruct (customers_list stripe email) as [customers|e]; simpl; [|by eexists _, _].
  unfold bind at 1, set_allCustomers, modify. simpl.
  match goal with
  | |- context [subscription_customers_loop stripe customers ?l] =>
      destruct (subscription_customers_loop stripe customers l) as [[[[]|e] l'] calls]
  end; by eexists _, _.
Qed.

Lemma resolve_entitlement_first_call catalog stripe email :
  ∃ rest,
    (resolve_entitlement catalog stripe email new_locals).2
    = CustomersList email (is_ok (customers_list stripe email)) :: rest.
Proof.
  unfold resolve_entitlement, try_catch, bind at 1.
  destruct (subscription_channel_first stripe email) as (l1 & rest1 & ->).
  destruct (bind (purchase_channels catalog stripe email) _ l1) as [[[r|e] l2] calls2];
    by eexists.
Qed.

(** C9. In [src/unnamed/part_000], a request without [firebaseToken] whose
    e-mail field, trimmed and lower-cased, is a well-formed address within
    its rate limit (of 30 requests) is resolved for that address as it
    stands, whether or not Firebase is configured: no identity token is
    verified, the request is charged to the address, the first call is the
    Stripe customer lookup for it, and the answer is the entitlement of the
    address: the page of all sessions when the lookup reaches a member of the
    circle, and otherwise the page of the keys purchased by its customers or,
    without customer record, by recent guest sessions with that e-mail (or the
    server-error page). For any request, a token is verified only if the
    request carries one and Firebase is configured. *)
Theorem unverified_email_without_token (catalog : Catalog) (stripe : Stripe)
    (FIREBASE_CONFIG : bool) (verifyIdToken : string → result (option string))
    (now : Z) (body_email : option string) (rate : gmap string (list Z)) :
  email_regex_test (Js.toLowerCase (Js.trim (Js.or_empty body_email))) = true →
  (checkArchiveRateLimit_part_000 now
     (Js.toLowerCase (Js.trim (Js.or_empty body_email))) rate).1 = true →
  let email := Js.toLowerCase (Js.trim (Js.or_empty body_email)) in
  let customers := customers_found stripe email in
  let '(response, rate', calls) :=
    archive_verify_part_000 catalog stripe FIREBASE_CONFIG verifyIdToken now
      None body_email rate in
  count is_token_check calls = 0%nat
  ∧ (∃ rest, calls = CustomersList email (is_ok (customers_list stripe email)) :: rest)
  ∧ rate' = (checkArchiveRateLimit_part_000 now email rate).2
  ∧ (finds_member stripe customers = true →
     response = {| status := 200; body := VideoPage ALL_SESSION_KEYS |})
  ∧ (finds_member stripe customers = false →
     response = {| status := 500; body := ErrorPage ServerError |}
     ∨ ∃ keys, response = page_of keys
         ∧ ∀ k, k ∈ keys ↔
             granted_to_customers catalog stripe customers k
             ∨ (customers = [] ∧ granted_to_guest catalog stripe email k))
  ∧ (∀ firebaseToken body_email' now' rate0,
       (0 < count is_token_check
              (archive_verify_part_000 catalog stripe FIREBASE_CONFIG verifyIdToken
                 now' firebaseToken body_email' rate0).2)%nat →
       Js.truthy firebaseToken = true ∧ FIREBASE_CONFIG = true).
Proof.
  intros Hvalid Hallowed email customers.
  assert (Htoken : ∀ firebaseToken body_email' now' rate0,
            (0 < count is_token_check
                   (archive_verify_part_000 catalog stripe FIREBASE_CONFIG
                      verifyIdToken now' firebaseToken body_email' rate0).2)%nat →
            Js.truthy firebaseToken = true ∧ FIREBASE_CONFIG = true).
  { intros firebaseToken body_email' now' rate0 Hcount.
    unfold archive_verify_part_000 in Hcount.
    destruct (Js.truthy firebaseToken); [destruct FIREBASE_CONFIG|]; simpl in Hcount.
    - done.
    - rewrite no_token_check in Hcount by apply verify_email_calls. lia.
    - rewrite no_token_check in Hcount by apply verify_email_calls. lia. }
  unfold archive_verify_part_000. cbn [Js.truthy andb]. fold email.
  unfold verify_email.
  rewrite (email_regex_test_nonempty email Hvalid). fold email in Hvalid.
  rewrite Hvalid. cbn [negb orb].
  fold email in Hallowed. unfold checkArchiveRateLimit_part_000 in *.
  destruct (checkArchiveRateLimit_with 30 now email rate) as [allowed rate'].
  cbn [fst snd] in *. subst allowed. cbn [negb].
  destruct (resolve_entitlement_first_call catalog stripe email) as (rest & Hfirst).
  destruct (resolve_entitlement_keys catalog stripe email)
    as (response & l & calls & Heq & Hcalls & _ & Hmember & Hother).
  rewrite Heq in Hfirst |- *. cbn [snd] in Hfirst.
  split_and!; [by apply no_token_check|by exists rest|done| | |exact Htoken].
  - intros Hm. by destruct (Hmember Hm) as [-> _].
  - intros Hm. destruct (Hother Hm) as [[-> _]|Hkeys]; [by left|right; exact Hkeys].
Qed.

(** X18. [/archive/verify] rejects at the door: an address that fails the
    test gets the "enter a valid address" page and leaves the rate limiter
    untouched; a well-formed address is charged to the rate limiter, and when
    it is over the limit the answer is status 429; in both cases Stripe is
    not called. Status 429 is sent in no other case. *)
Theorem stripe_called_only_when_admitted (catalog : Catalog) (stripe : Stripe)
    (maxRequests : nat) (now : Z) (email : string) (rate : gmap string (list Z)) :
  let '(response, rate', calls) :=
    verify_email catalog stripe maxRequests now email rate in
  let checked := checkArchiveRateLimit_with maxRequests now email rate in
  (if email_regex_test email
   then rate' = checked.2
        ∧ (checked.1 = false →
           response = {| status := 429; body := ErrorPage RequestLimitReached |}
           ∧ calls = [])
   else response = {| status := 200; body := ErrorPage EnterValidEmail |}
        ∧ rate' = rate ∧ calls = [])
  ∧ (status response = 429 ↔ email_regex_test email = true ∧ checked.1 = false).
Proof.
  unfold verify_email.
  destruct (email_regex_test email) eqn:Hvalid.
  2: { rewrite orb_true_r. cbn. split; [done|]. split; [done|]. by intros [? _]. }
  rewrite (email_regex_test_nonempty _ Hvalid). cbn [negb orb].
  destruct (checkArchiveRateLimit_with maxRequests now email rate) as [[] rate'];
    cbn [negb fst snd].
  - destruct (resolve_entitlement_calls catalog stripe email)
      as (response & l & calls & -> & _ & Hstatus).
    split; [done|]. split; [|by intros [_ ?]].
    intros H429. destruct (existsb sessions_list_error calls).
    + by subst response.
    + rewrite Hstatus in H429. done.
  - split; [done|]. split; [done|]. by intros _.
Qed.

(** X19. In [src/unnamed/part_000], with Firebase configured and a token in
    the request, the e-mail field of the body plays no part; when the token
    cannot be verified the answer is the "authentication failed" page, the
    rate limiter is left untouched and Stripe is not called. Without
    Firebase configuration a token in the request is ignored. *)
Theorem token_decides_address (catalog : Catalog) (stripe : Stripe)
    (verifyIdToken : string → result (option string)) (now : Z) (token : string)
    (body_email body_email' : option string) (rate : gmap string (list Z)) :
  token ≠ "" →
  archive_verify_part_000 catalog stripe true verifyIdToken now (Some token)
    body_email rate
  = archive_verify_part_000 catalog stripe true verifyIdToken now (Some token)
      body_email' rate
  ∧ (is_ok (verifyIdToken token) = false →
     archive_verify_part_000 catalog stripe true verifyIdToken now (Some token)
       body_email rate
     = ({| status := 200; body := ErrorPage AuthenticationFailed |}, rate,
        [VerifyIdToken token false]))
  ∧ archive_verify_part_000 catalog stripe false verifyIdToken now (Some token)
      body_email rate
    = archive_verify_part_000 catalog stripe false verifyIdToken now None
        body_email rate.
Proof.
  intros Htoken. unfold archive_verify_part_000.
  assert (Js.truthy (Some token) = true) as ->.
  { simpl. apply negb_true_iff. by apply String.eqb_neq. }
  cbn [andb default]. unfold id. split; [done|]. split; [|done].
  destruct (verifyIdToken token); [intros [=]|done].
Qed.

(** ** The archive page and the registration links *)

Lemma session_card_of_key k :
  k ∈ ALL_SESSION_KEYS →
  ∃ card, session_card k = Some card
    ∧ card_key card = k
    ∧ Js.truthy (youtubeId <$> AIFES_SESSIONS !! k) = negb (String.eqb k "E1")
    ∧ (card_video card = Player k ∧ k ≠ "E1"
       ∨ (∃ title notice, card_video card = Placeholder title notice) ∧ k = "E1").
Proof.
  intros Hk. elem_cases Hk; eexists; (split; [by vm_compute|]);
    (split; [done|]); (split; [by vm_compute|]);
    first [left; by split | right; split; [by eexists _, _|done]].
Qed.

(** X20. For session keys among [A, B, C, D, E1, E2, F], as the resolver
    produces them, the archive page shows one card per key, in the order of
    the keys, so the number of sessions announced is the number of cards;
    every card but the one of [E1] holds a player, and [videoIds] has an
    entry for every key but [E1], whose card is a placeholder. *)
Theorem archive_page_cards (sessionKeys : list string) :
  (∀ k, k ∈ sessionKeys → k ∈ ALL_SESSION_KEYS) →
  let page := generateArchiveVideoPage sessionKeys in
  card_key <$> session_cards page = sessionKeys
  ∧ session_count page = length (session_cards page)
  ∧ (videoIds page).*1 = List.filter (λ k, negb (String.eqb k "E1")) sessionKeys
  ∧ Forall (λ card,
       if String.eqb (card_key card) "E1"
       then ∃ title notice, card_video card = Placeholder title notice
       else card_video card = Player (card_key card)) (session_cards page).
Proof.
  intros Hkeys page. subst page. unfold generateArchiveVideoPage.
  cbn [session_cards session_count videoIds].
  assert (Hcards : card_key <$> omap session_card sessionKeys = sessionKeys
    ∧ Forall (λ card,
         if String.eqb (card_key card) "E1"
         then ∃ title notice, card_video card = Placeholder title notice
         else card_video card = Player (card_key card))
        (omap session_card sessionKeys)
    ∧ ((λ k, (k, default "" (youtubeId <$> AIFES_SESSIONS !! k))) <$>
         List.filter (λ k, Js.truthy (youtubeId <$> AIFES_SESSIONS !! k)) sessionKeys).*1
      = List.filter (λ k, negb (String.eqb k "E1")) sessionKeys).
  { induction sessionKeys as [|k ks IH]; [by repeat split|].
    destruct IH as (IH1 & IH2 & IH3); [intros k' ?; apply Hkeys; by right|].
    destruct (session_card_of_key k) as (card & Hcard & Hkey & Hvideo & Hshape);
      [apply Hkeys; left|].
    cbn [omap list_omap List.filter]. rewrite Hcard, Hvideo.
    split; [|split].
    - cbn. by rewrite Hkey, IH1.
    - constructor; [|done]. rewrite Hkey.
      destruct Hshape as [[-> Hne]|[Hph ->]]; [|done].
      apply String.eqb_neq in Hne. by rewrite Hne.
    - destruct (negb (String.eqb k "E1")); cbn; by rewrite IH3. }
  destruct Hcards as (H1 & H2 & H3). split; [done|]. split; [|done].
  by rewrite <- H1 at 1; rewrite length_fmap.
Qed.

Lemma meeting_names_nonempty k name :
  MEETING_NAME_MAP !! k = Some name → name ≠ "".
Proof.
  unfold MEETING_NAME_MAP. rewrite !lookup_insert, lookup_empty.
  repeat case_decide; intros [= <-]; done.
Qed.

(** X21. With the catalog of the server, every session key of a notification
    has a meeting name, so the registration link put in the message for it is
    the [registration_url] that [zoom_meetings.json] holds under that name
    (and none when the file has no such meeting). *)
Theorem notified_keys_have_meetings (ids : PriceIds) (stripe : Stripe)
    (sendgrid : nat → FetchOutcome) (clock : Z) (session : CheckoutSession)
    (files : Files) (to subject : string) (content : EmailContent)
    (zoomMeetings : gmap string ZoomMeeting) (k : string) :
  SendEmailWithRetry to subject content
    ∈ (handleCheckoutCompleted (catalog_of ids) stripe sendgrid clock session files).2 →
  k ∈ ec_meetingKeys content →
  ∃ name,
    MEETING_NAME_MAP !! k = Some name
    ∧ getRegistrationUrl zoomMeetings k = zoomMeetings !! name ≫= registration_url.
Proof.
  intros Hcall Hk.
  apply handleCheckoutCompleted_dispatch in Hcall as (lineItems & Hcall).
  cbn zeta in Hcall. destruct Hcall as (_ & _ & _ & _ & _ & _ & ->).
  cbn [ec_meetingKeys] in Hk.
  rewrite merge_sort_Permutation, elem_of_set_add, purchased_keys_elem in Hk.
  assert (Hname : is_Some (MEETING_NAME_MAP !! k)).
  { destruct Hk as [->|[Hk|(p & keys & _ & Hkeys & Hk)]].
    - by eexists.
    - by apply elem_of_nil in Hk.
    - pose proof (zoom_links_have_meetings ids p keys Hkeys) as Hnames.
      rewrite Forall_forall in Hnames. by apply Hnames. }
  destruct Hname as [name Hname]. exists name. split; [done|].
  unfold getRegistrationUrl. rewrite Hname.
  pose proof (meeting_names_nonempty k name Hname) as Hne.
  assert (Js.truthy (Some name) = true) as ->.
  { simpl. apply negb_true_iff. by apply String.eqb_neq. }
  cbn [negb default]. unfold id. by destruct (zoomMeetings !! name).
Qed.

(** * The further properties at sample inputs *)

(** A request of one person leaves the window of another as it is. *)
Lemma rate_limit_isolated_witness :
  "other@example.com" ≠ Js.trim (Js.toLowerCase " User@Example.com")
  ∧ (checkArchiveRateLimit 100 " User@Example.com" Scenario.other_window).2
      !! "other@example.com" = Some [5].
Proof.
  split; [done|].
  unfold checkArchiveRateLimit.
  rewrite (rate_limit_isolated 5 100 " User@Example.com" "other@example.com"
             Scenario.other_window); done.
Defined.

Lemma archive_verify_charges_normalized_witness :
  "other@example.com" ≠ Js.toLowerCase (Js.trim (Js.or_empty (Some " User@Example.com ")))
  ∧ (archive_verify (catalog_of Sample.ids) Scenario.guest_stripe 100
       (Some " User@Example.com ") Scenario.other_window).1.2
      !! "other@example.com" = Some [5].
Proof.
  split; [done|].
  rewrite (archive_verify_charges_normalized (catalog_of Sample.ids)
             Scenario.guest_stripe 100 (Some " User@Example.com ")
             Scenario.other_window "other@example.com"); done.
Defined.

Lemma line_item_failure_not_committed_witness :
  listLineItems Scenario.broken_items_stripe (session_id Sample.session)
    = Throw Scenario.down
  ∧ stripe_webhook (catalog_of Sample.ids) Scenario.broken_items_stripe
      Sample.accepted 0 None Sample.signed Sample.no_files
    = (Ok {| status := 500; body := WebhookText "Webhook handler error" |},
       Sample.no_files,
       [ConstructEvent true; LoadProcessedEvents; ListLineItems "cs_1" false]).
Proof.
  split; [done|].
  apply (line_item_failure_not_committed (catalog_of Sample.ids)
           Scenario.broken_items_stripe Sample.accepted 0 None Sample.signed
           Sample.event Sample.no_files Scenario.down); done.
Defined.

Lemma missing_buyer_email_committed_witness :
  Js.truthy (Js.or (customer_details_email (event_object Scenario.anonymous_event))
                   (customer_email (event_object Scenario.anonymous_event))) = false
  ∧ stripe_webhook (catalog_of Sample.ids) Scenario.anonymous_stripe
      Sample.accepted 0 None Sample.signed Sample.no_files
    = (Ok {| status := 200; body := Received |},
       {| data_dir := true; processed_events := {["evt_2"]} ∪ ∅;
          failed_emails := [] |},
       [ConstructEvent true; LoadProcessedEvents; ListLineItems "cs_2" true;
        LoadProcessedEvents; SaveProcessedEvent "evt_2"]).
Proof.
  split; [done|].
  apply (missing_buyer_email_committed (catalog_of Sample.ids)
           Scenario.anonymous_stripe Sample.accepted 0 None Sample.signed
           Scenario.anonymous_event [Sample.line_item "price_practical"]
           Sample.no_files); done.
Defined.

Lemma two_seminars_notified :
  SendEmailWithRetry "buyer@example.com" email_subject Scenario.two_seminars_content
    ∈ (handleCheckoutCompleted (catalog_of Sample.ids)
         (Sample.stripe Scenario.two_seminars) Sample.accepted 0 Sample.session
         Sample.no_files).2.
Proof. apply (bool_decide_unpack _). by vm_compute. Defined.

Lemma notification_keys_sorted_union_witness :
  StronglySorted String.le (ec_meetingKeys Scenario.two_seminars_content)
  ∧ NoDup (ec_meetingKeys Scenario.two_seminars_content)
  ∧ ∀ k, k ∈ ec_meetingKeys Scenario.two_seminars_content ↔
      k = "F" ∨ ∃ p keys, p ∈ purchasedPriceIds Scenario.two_seminars
                          ∧ ZOOM_LINK_MAP (catalog_of Sample.ids) !! p = Some keys
                          ∧ k ∈ keys.
Proof.
  exact (notification_keys_sorted_union (catalog_of Sample.ids)
           (Sample.stripe Scenario.two_seminars) Sample.accepted 0 Sample.session
           Sample.no_files Scenario.two_seminars "buyer@example.com" email_subject
           Scenario.two_seminars_content eq_refl two_seminars_notified).
Defined.

Lemma notification_recipient_and_product_witness :
  Js.or (customer_details_email Sample.session) (customer_email Sample.session)
    = Some "buyer@example.com"
  ∧ "buyer@example.com" ≠ ""
  ∧ email_subject = email_subject
  ∧ last (omap (λ p, let name := PRODUCT_NAME_MAP (catalog_of Sample.ids) !! p in
                     if Js.truthy name then name else None)
               (purchasedPriceIds Scenario.two_seminars))
    = Some (ec_productName Scenario.two_seminars_content).
Proof.
  exact (notification_recipient_and_product (catalog_of Sample.ids)
           (Sample.stripe Scenario.two_seminars) Sample.accepted 0 Sample.session
           Sample.no_files Scenario.two_seminars "buyer@example.com" email_subject
           Scenario.two_seminars_content eq_refl two_seminars_notified).
Defined.

Lemma video_page_keys_canonical_witness :
  (resolve_entitlement (catalog_of Sample.ids) Scenario.guest_stripe
     "buyer@example.com" new_locals).1.1
  = Ok {| status := 200; body := VideoPage ["A"; "B"; "D"; "F"] |}
  ∧ ["A"; "B"; "D"; "F"] ≠ []
  ∧ ["A"; "B"; "D"; "F"] `sublist_of` ALL_SESSION_KEYS.
Proof.
  assert (Hrun : (resolve_entitlement (catalog_of Sample.ids) Scenario.guest_stripe
                    "buyer@example.com" new_locals).1.1
                 = Ok {| status := 200; body := VideoPage ["A"; "B"; "D"; "F"] |})
    by (by vm_compute).
  split; [exact Hrun|].
  apply (video_page_keys_canonical Sample.ids Scenario.guest_stripe
           "buyer@example.com" _ ["A"; "B"; "D"; "F"] Hrun eq_refl).
Defined.

Lemma guest_channel_skipped_for_customers_witness :
  customers_list (Sample.stripe []) "buyer@example.com"
    = Ok ({| customer_id := "cus_1" |} :: [{| customer_id := "cus_2" |}])
  ∧ count is_recent_listing
      (resolve_entitlement (catalog_of Sample.ids) (Sample.stripe [])
         "buyer@example.com" new_locals).2 = 0%nat.
Proof.
  split; [done|].
  by apply (guest_channel_skipped_for_customers (catalog_of Sample.ids)
              (Sample.stripe []) "buyer@example.com" {| customer_id := "cus_1" |}
              [{| customer_id := "cus_2" |}]).
Defined.

Lemma guest_fallback_witness :
  sessions_list Scenario.guest_stripe None
    = Ok [Scenario.other_session; Scenario.unpaid_session; Scenario.guest_session]
  ∧ (resolve_entitlement (catalog_of Sample.ids) Scenario.guest_stripe
       "buyer@example.com" new_locals).1.1
    = Ok {| status := 200; body := VideoPage ["A"; "B"; "D"; "F"] |}
  ∧ ∃ keys,
      (resolve_entitlement (catalog_of Sample.ids) Scenario.guest_stripe
         "buyer@example.com" new_locals).1.1 = Ok (page_of keys)
      ∧ ∀ k, k ∈ keys ↔
          ∃ s, s ∈ [Scenario.other_session; Scenario.unpaid_session;
                    Scenario.guest_session]
               ∧ session_email s = "buyer@example.com"
               ∧ payment_qualifies s = true
               ∧ purchased_in (catalog_of Sample.ids) Scenario.guest_stripe s k.
Proof.
  split; [done|]. split; [by vm_compute|].
  by apply (guest_fallback (catalog_of Sample.ids) Scenario.guest_stripe
              "buyer@example.com").
Defined.

Lemma registered_purchases_witness :
  finds_member Scenario.registered_stripe [{| customer_id := "cus_1" |}] = false
  ∧ (resolve_entitlement (catalog_of Sample.ids) Scenario.registered_stripe
       "buyer@example.com" new_locals).1.1
    = Ok {| status := 200; body := VideoPage ["A"; "B"; "C"; "F"] |}
  ∧ ∃ keys,
      (resolve_entitlement (catalog_of Sample.ids) Scenario.registered_stripe
         "buyer@example.com" new_locals).1.1 = Ok (page_of keys)
      ∧ ∀ k, k ∈ keys ↔
          ∃ c sessions s,
            c ∈ [{| customer_id := "cus_1" |}]
            ∧ sessions_list Scenario.registered_stripe (Some (customer_id c))
              = Ok sessions
            ∧ s ∈ sessions ∧ payment_qualifies s = true
            ∧ purchased_in (catalog_of Sample.ids) Scenario.registered_stripe s k.
Proof.
  split; [done|]. split; [by vm_compute|].
  apply (registered_purchases (catalog_of Sample.ids) Scenario.registered_stripe
           "buyer@example.com" [{| customer_id := "cus_1" |}]); try done.
  by repeat constructor.
Defined.

Lemma token_decides_address_witness :
  "token" ≠ ""
  ∧ archive_verify_part_000 (catalog_of Sample.ids) Scenario.guest_stripe true
      (λ _, Throw Scenario.down) 100 (Some "token") (Some "buyer@example.com") ∅
    = ({| status := 200; body := ErrorPage AuthenticationFailed |}, ∅,
       [VerifyIdToken "token" false]).
Proof.
  split; [done|].
  destruct (token_decides_address (catalog_of Sample.ids) Scenario.guest_stripe
              (λ _, Throw Scenario.down) 100 "token" (Some "buyer@example.com")
              None ∅) as (_ & Hfailed & _); [done|].
  by apply Hfailed.
Defined.

Lemma archive_page_cards_witness :
  let page := generateArchiveVideoPage ["A"; "E1"] in
  (∀ k, k ∈ ["A"; "E1"] → k ∈ ALL_SESSION_KEYS)
  ∧ card_key <$> session_cards page = ["A"; "E1"]
  ∧ session_count page = 2%nat
  ∧ (videoIds page).*1 = ["A"].
Proof.
  intros page.
  assert (Hkeys : ∀ k, k ∈ ["A"; "E1"] → k ∈ ALL_SESSION_KEYS).
  { intros k Hk. elem_cases Hk; elem_lit. }
  split; [exact Hkeys|].
  pose proof (archive_page_cards ["A"; "E1"] Hkeys) as Hpage.
  cbv zeta in Hpage. fold page in Hpage.
  destruct Hpage as (Hcards & Hcount & Hids & _).
  split; [exact Hcards|]. split; [|exact Hids].
  rewrite Hcount, <- (length_fmap card_key), Hcards. done.
Defined.

Lemma notified_keys_have_meetings_witness :
  "C" ∈ ec_meetingKeys Scenario.two_seminars_content
  ∧ ∃ name, MEETING_NAME_MAP !! "C" = Some name
      ∧ getRegistrationUrl Scenario.zoom_meetings "C"
        = Scenario.zoom_meetings !! name ≫= registration_url.
Proof.
  assert (Hkey : "C" ∈ ec_meetingKeys Scenario.two_seminars_content) by elem_lit.
  split; [exact Hkey|].
  exact (notified_keys_have_meetings Sample.ids (Sample.stripe Scenario.two_seminars)
           Sample.accepted 0 Sample.session Sample.no_files "buyer@example.com"
           email_subject Scenario.two_seminars_content Scenario.zoom_meetings "C"
           two_seminars_notified Hkey).
Defined.

(** A request without token, with Firebase configured: the address typed with
    spaces and capitals is looked up as [buyer@example.com], and the guest
    purchase found for it opens the videos. *)
Lemma unverified_email_without_token_witness :
  let email := Js.toLowerCase (Js.trim (Js.or_empty (Some " Buyer@Example.com "))) in
  let out :=
    archive_verify_part_000 (catalog_of Sample.ids) Scenario.guest_stripe true
      (λ _, Throw Scenario.down) 100 None (Some " Buyer@Example.com ") ∅ in
  email = "buyer@example.com"
  ∧ email_regex_test email = true
  ∧ (checkArchiveRateLimit_part_000 100 email ∅).1 = true
  ∧ out = ({| status := 200; body := VideoPage ["A"; "B"; "D"; "F"] |},
           {[ "buyer@example.com" := [100] ]},
           [CustomersList "buyer@example.com" true; SessionsList None true;
            ListLineItems "cs_guest" true])
  ∧ count is_token_check out.2 = 0%nat
  ∧ ∃ rest, out.2 = CustomersList "buyer@example.com" true :: rest.
Proof.
  intros email out.
  assert (Hemail : email = "buyer@example.com") by (by vm_compute).
  assert (Hvalid : email_regex_test email = true) by (by vm_compute).
  assert (Hallowed : (checkArchiveRateLimit_part_000 100 email ∅).1 = true)
    by (by vm_compute).
  assert (Hout : out = ({| status := 200; body := VideoPage ["A"; "B"; "D"; "F"] |},
                        {[ "buyer@example.com" := [100] ]},
                        [CustomersList "buyer@example.com" true; SessionsList None true;
                         ListLineItems "cs_guest" true])) by (by vm_compute).
  split_and!; [done|done|done|done|..];
    pose proof (unverified_email_without_token (catalog_of Sample.ids)
                  Scenario.guest_stripe true (λ _, Throw Scenario.down) 100
                  (Some " Buyer@Example.com ") ∅ Hvalid Hallowed) as H;
    cbv zeta in H; fold out in H; rewrite Hout in H |- *;
    destruct H as (Hcount & Hfirst & _); [exact Hcount|exact Hfirst].
Defined.

(** C5. The failing input: the purchase of the practical seminar is delivered
    to a server whose data directory does not exist yet, and SendGrid answers
    500 at every attempt. Three attempts are made, with waits of 1 s and 2 s,
    and [recordFailedEmail] is called with the recipient and the error of the
    third attempt; but its write throws, so that no failure is recorded: the
    webhook answers 500, no file is changed, the event is not marked as
    processed, and its redelivery starts the notification a second time. *)
Theorem exhausted_retry_record_lost :
  let stripe := Sample.stripe [Sample.line_item "price_practical"] in
  let '(r, files', calls) :=
    stripe_webhook (catalog_of Sample.ids) stripe Sample.unavailable 0 None
      Sample.signed Scenario.no_data_dir in
  let '(_, _, calls2) :=
    stripe_webhook (catalog_of Sample.ids) stripe Sample.accepted 1 None
      Sample.signed files' in
  count is_fetch calls = 3%nat
  ∧ timeouts calls = [1000; 2000]
  ∧ last calls =
      Some (RecordFailedEmail
              {| fe_email := "buyer@example.com";
                 fe_product_name := "第２回実務で使えるAI×建築セミナー";
                 fe_error := "SendGrid API Error: 500 unavailable";
                 fe_timestamp := 0 |})
  ∧ r = Ok {| status := 500; body := WebhookText "Webhook handler error" |}
  ∧ files' = Scenario.no_data_dir
  ∧ failed_emails files' = []
  ∧ (event_id Sample.event ∉ processed_events files')
  ∧ count is_dispatch (calls ++ calls2) = 2%nat.
Proof. vm_compute. by split_and!. Qed.
